(** * st-voyageai-memory: a shallow embedding and its properties

    The extension keeps a long-term memory for a chat: every message is
    summarized by an OpenAI-compatible service, the summary is embedded by
    VoyageAI, and the record is kept in a per-character store; before a
    generation the stored records most similar to the last user message
    are retrieved.

    Part I embeds the JavaScript sources:
    - [JS]: the pieces of the language the code relies on (numbers,
      [Array.prototype.sort], [String.prototype.trim], ...);
    - the data model of [lib/storage.js];
    - [Similarity]: [lib/similarity.js];
    - [Runtime]: the state of the page, the outside world and the monad
      in which the effectful code is written;
    - [Storage]: [lib/storage.js];
    - [Summarizer]: [lib/summarizer.js];
    - [VoyageAI]: [lib/voyageai.js];
    - [Index]: the write path of [index.js];
    - [SingleFlight]: overlapping invocations of the write path.

    Part II states and proves the properties of the write path, the
    store and the retrieval; Part III those of the rest of the code. *)

From Stdlib Require Import ZArith List String Ascii Bool Floats Lia.
From Stdlib Require Import Sorting.Sorted Sorting.Permutation.
From stdpp Require Import base option list sorting gmap strings pretty.
Import ListNotations.

(* ===================================================================== *)
(** * Part I: the embedding *)
(* ===================================================================== *)

(** ** The language runtime *)

Module JS.

(** A JavaScript number is an IEEE 754 binary64 value: Rocq's primitive
    [float], with the same arithmetic, comparisons, NaN and signed
    zeros. *)
Definition number := float.

(** [a >= b] and [a > b]; both are false when an operand is NaN. *)
Definition ge (a b : number) : bool := PrimFloat.leb b a.
Definition gt (a b : number) : bool := PrimFloat.ltb b a.

(** [a === b] on numbers. *)
Definition strict_eq (a b : number) : bool := PrimFloat.eqb a b.

(** A number position of a value that [JSON.parse] returned: a number
    or [null]. *)
Inductive json_number :=
| Null
| Num (x : number).

(** [ToNumber], as the arithmetic operators apply it to an operand:
    [null] counts for 0. *)
Definition ToNumber (v : json_number) : number :=
  match v with
  | Null => 0%float
  | Num x => x
  end.

(** A number position written by [JSON.stringify] and read back by
    [JSON.parse]: NaN and the infinities are written [null], the
    negative zero is written [0], and every other number is written
    with the digits that give it back. *)
Definition JSON_number (v : json_number) : json_number :=
  match v with
  | Null => Null
  | Num x =>
      if (PrimFloat.is_nan x || PrimFloat.is_infinity x)%bool then Null
      else if strict_eq x 0%float then Num 0%float
      else Num x
  end.

(** [ToInt32], the conversion behind [x | 0]: truncate towards zero,
    wrap modulo 2^32 into the signed range; NaN and the infinities
    give 0. *)
Definition ToInt32 (x : number) : Z :=
  match Prim2SF x with
  | S754_finite s m e =>
      let t := Z.shiftl (Z.pos m) e in
      let i := if s then Z.opp t else t in
      ((i + 2147483648) mod 4294967296 - 2147483648)%Z
  | _ => 0%Z
  end.

(** One hexadecimal digit, as [Number.prototype.toString(16)] prints a
    number between 0 and 15. *)
Definition hex_digit (v : Z) : string :=
  match v with
  | 0 => "0" | 1 => "1" | 2 => "2" | 3 => "3" | 4 => "4" | 5 => "5"
  | 6 => "6" | 7 => "7" | 8 => "8" | 9 => "9" | 10 => "a" | 11 => "b"
  | 12 => "c" | 13 => "d" | 14 => "e" | 15 => "f"
  | _ => "?"
  end%Z%string.

(** [Array.prototype.sort(compareFn)]. ECMAScript (2019 on) makes the
    sort stable, and with a consistent comparator its result is the one
    stable sorted arrangement, which this insertion sort computes.
    [after x y] says that [compareFn(x, y) > 0]: [x] belongs after [y].
    An element moves past the elements it belongs after and stops at the
    first one it does not, so equal elements keep their order. *)
Fixpoint sort_insert {A : Type} (after : A -> A -> bool) (x : A) (l : list A) : list A :=
  match l with
  | [] => [x]
  | y :: l' => if after x y then y :: sort_insert after x l' else x :: y :: l'
  end.

Definition Array_sort {A : Type} (after : A -> A -> bool) (l : list A) : list A :=
  fold_right (sort_insert after) [] l.

(** [array.slice(0, n)] for a count [n]. *)
Definition Array_slice0 {A : Type} (l : list A) (n : nat) : list A := firstn n l.

(** [array.findIndex(p)]: the first index whose element satisfies [p],
    or -1. *)
Fixpoint findIndex_from {A : Type} (p : A -> bool) (l : list A) (i : Z) : Z :=
  match l with
  | [] => (-1)%Z
  | x :: l' => if p x then i else findIndex_from p l' (i + 1)%Z
  end.

Definition Array_findIndex {A : Type} (p : A -> bool) (l : list A) : Z :=
  findIndex_from p l 0%Z.

(** Strings are sequences of code units; the model keeps to the code
    units below 256, one per character of a Rocq [string]. Among them
    [String.prototype.trim] removes TAB, LF, VT, FF, CR, SPACE and
    NO-BREAK SPACE. *)
Definition isWhiteSpace (c : ascii) : bool :=
  let n := nat_of_ascii c in
  (Nat.eqb n 9 || Nat.eqb n 10 || Nat.eqb n 11 || Nat.eqb n 12 || Nat.eqb n 13
   || Nat.eqb n 32 || Nat.eqb n 160)%bool.

Fixpoint trimStart (s : string) : string :=
  match s with
  | EmptyString => EmptyString
  | String c s' => if isWhiteSpace c then trimStart s' else s
  end.

(** [trimEnd] keeps a character when it is not white space or when
    something is left after it. *)
Fixpoint trimEnd (s : string) : string :=
  match s with
  | EmptyString => EmptyString
  | String c s' =>
      match trimEnd s' with
      | EmptyString => if isWhiteSpace c then EmptyString else String c EmptyString
      | t => String c t
      end
  end.

Definition trim (s : string) : string := trimEnd (trimStart s).

(** Truthiness of a string: every string but the empty one. *)
Definition truthy (s : string) : bool :=
  match s with EmptyString => false | _ => true end.

(** [a || b] on strings. *)
Definition or_else (a b : string) : string := if truthy a then a else b.

(** [n || d] on counts: 0 is falsy. *)
Definition or_default (n d : nat) : nat := match n with O => d | _ => n end.


(** A count (an array length) as a number: the nearest binary64
    value, which is the count itself below 2^53. *)
Definition of_count (n : nat) : number :=
  SF2Prim (binary_normalize prec emax (Z.of_nat n) 0 false).

(** [s.lastIndexOf(c)] for a character [c]: the last index where [c]
    stands, or -1. *)
Fixpoint lastIndexOf_from (s : string) (c : ascii) (i found : Z) : Z :=
  match s with
  | EmptyString => found
  | String d s' => lastIndexOf_from s' c (i + 1)%Z (if Ascii.eqb d c then i else found)
  end.

Definition lastIndexOf (s : string) (c : ascii) : Z := lastIndexOf_from s c 0%Z (-1)%Z.

(** [s.slice(0, n)] for a count [n]. *)
Definition String_slice0 (s : string) (n : nat) : string := String.substring 0 n s.

End JS.

(** ** The data model ([lib/storage.js]) *)

(** Instants ([new Date()], ISO strings and back) are milliseconds since
    the epoch. *)
Definition Instant := Z.

(** The [metadata] object built by [createMemory]: the three defaulted
    fields, then the caller's own keys ([role] and [chatId]) spread over
    them. *)
Record Metadata := {
  role : string;
  chat_id : option string;
  importance : JS.json_number;
  chatId : option string
}.

(** What [createMemory] returns and [addMemory] receives. An embedding
    may be missing ([None]) in a record that was imported, and a
    component of it may be [null]. *)
Record PartialMemory := {
  p_original_message : string;
  p_summary : string;
  p_embedding : option (list JS.json_number);
  p_metadata : Metadata
}.

Record MemoryRecord := {
  id : string;
  timestamp : Instant;
  original_message : string;
  summary : string;
  embedding : option (list JS.json_number);
  metadata : Metadata
}.

(** The per-character store object. *)
Record StoreData := {
  character_id : string;
  character_name : string;
  created_at : Instant;
  updated_at : Instant;
  memories : list MemoryRecord
}.

Definition set_memories (d : StoreData) (ms : list MemoryRecord) : StoreData :=
  {| character_id := character_id d; character_name := character_name d;
     created_at := created_at d; updated_at := updated_at d; memories := ms |}.

Definition set_updated_at (d : StoreData) (t : Instant) : StoreData :=
  {| character_id := character_id d; character_name := character_name d;
     created_at := created_at d; updated_at := t; memories := memories d |}.

(** *** JSON texts

    A text is represented by what [JSON.parse] makes of it, as far as
    [importMemories] looks: a syntax error, the value [null], or a value
    with its [memories] property. An array of memories is an array of
    memory records. *)
Inductive MemoriesField :=
| FieldFalsy       (* no such property, or null, false, 0, the empty string *)
| FieldNotArray    (* a truthy value that is not an array *)
| FieldArray (ms : list MemoryRecord).

Record Document := {
  doc_character_id : string;
  doc_character_name : string;
  doc_created_at : Instant;
  doc_updated_at : Instant;
  doc_memories : MemoriesField
}.

Inductive JsonText :=
| NotJson (raw : string)
| JsonNull
| JsonValue (d : Document).

(** [JSON.stringify(data)] (and [JSON.stringify(data, null, 2)], which
    differs by white space only). The strings come back as they were;
    the numbers of a record, the components of its embedding and its
    importance, come back as [JS.JSON_number] says. *)
Definition JSON_metadata (m : Metadata) : Metadata :=
  {| role := role m; chat_id := chat_id m;
     importance := JS.JSON_number (importance m);
     chatId := chatId m |}.

Definition JSON_record (m : MemoryRecord) : MemoryRecord :=
  {| id := id m; timestamp := timestamp m;
     original_message := original_message m;
     summary := summary m;
     embedding := option_map (List.map JS.JSON_number) (embedding m);
     metadata := JSON_metadata (metadata m) |}.

Definition JSON_stringify (d : StoreData) : JsonText :=
  JsonValue {| doc_character_id := character_id d;
               doc_character_name := character_name d;
               doc_created_at := created_at d;
               doc_updated_at := updated_at d;
               doc_memories := FieldArray (List.map JSON_record (memories d)) |}.

(** ** Vector similarity ([lib/similarity.js]) *)

Module Similarity.

Definition vector := list JS.number.

(** The three accumulators of the loop of [cosineSimilarity]. *)
Record Sums := { dotProduct : JS.number; normA : JS.number; normB : JS.number }.

Definition sums_step (acc : Sums) (ab : JS.number * JS.number) : Sums :=
  {| dotProduct := (dotProduct acc + fst ab * snd ab)%float;
     normA := (normA acc + fst ab * fst ab)%float;
     normB := (normB acc + snd ab * snd ab)%float |}.

Definition sums (vecA vecB : vector) : Sums :=
  fold_left sums_step (combine vecA vecB)
    {| dotProduct := 0%float; normA := 0%float; normB := 0%float |}.

(** The three ways out of [cosineSimilarity]: the guard on the
    arguments, the guard on the norms, and the division. *)
Inductive Exit :=
| ExitInvalid
| ExitZeroNorm
| ExitDivide (dot nA nB : JS.number).

Definition cosine_exit (vecA vecB : option vector) : Exit :=
  match vecA, vecB with
  | Some a, Some b =>
      if negb (Nat.eqb (length a) (length b)) then ExitInvalid
      else
        let s := sums a b in
        let nA := PrimFloat.sqrt (normA s) in
        let nB := PrimFloat.sqrt (normB s) in
        if (JS.strict_eq nA 0%float || JS.strict_eq nB 0%float)%bool then ExitZeroNorm
        else ExitDivide (dotProduct s) nA nB
  | _, _ => ExitInvalid
  end.

Definition cosineSimilarity (vecA vecB : option vector) : JS.number :=
  match cosine_exit vecA vecB with
  | ExitInvalid => 0%float
  | ExitZeroNorm => 0%float
  | ExitDivide dot nA nB => (dot / (nA * nB))%float
  end.

Record Scored := { memory : MemoryRecord; similarity : JS.number }.

(** [memory.embedding && memory.embedding.length > 0] *)
Definition has_embedding (m : MemoryRecord) : bool :=
  match embedding m with
  | Some (_ :: _) => true
  | _ => false
  end.

(** The embedding of a memory as [cosineSimilarity] reads it: every
    component is an operand of [*]. *)
Definition embedding_numbers (m : MemoryRecord) : option vector :=
  option_map (List.map JS.ToNumber) (embedding m).

Definition score (queryEmbedding : vector) (m : MemoryRecord) : Scored :=
  {| memory := m;
     similarity := cosineSimilarity (Some queryEmbedding) (embedding_numbers m) |}.

(** The comparator [(a, b) => b.similarity - a.similarity] is positive
    when [a] belongs after [b]. *)
Definition by_similarity_desc (a b : Scored) : bool :=
  JS.gt (similarity b - similarity a)%float 0%float.

(** [topK] is a count of results. *)
Definition findTopKSimilar (queryEmbedding : option vector)
    (memories : option (list MemoryRecord)) (topK : nat) (threshold : JS.number)
    : list Scored :=
  match queryEmbedding, memories with
  | None, _ => []
  | _, None => []
  | _, Some [] => []
  | Some q, Some ms =>
      JS.Array_slice0
        (JS.Array_sort by_similarity_desc
           (List.filter (fun item => JS.ge (similarity item) threshold)
              (List.map (score q) (List.filter has_embedding ms))))
        topK
  end.


(** [averageEmbeddings]. One turn of the outer loop:
    [result[i] += embedding[i]] for every [i] below the dimension. Past
    the end of [embedding] the value read is [undefined], and the sum
    NaN. *)
Fixpoint add_into (result embedding : vector) : vector :=
  match result with
  | [] => []
  | r :: result' =>
      (r + match embedding with e :: _ => e | [] => nan end)%float
      :: add_into result' (tl embedding)
  end.

Definition averageEmbeddings (embeddings : option (list vector)) : vector :=
  match embeddings with
  | None => []
  | Some [] => []
  | Some (first :: rest) =>
      let dimension := length first in
      let result := fold_left add_into (first :: rest) (repeat 0%float dimension) in
      List.map (fun r => (r / JS.of_count (length (first :: rest)))%float) result
  end.

(** [normalizeVector]: the loop that sums the squares, then the guard
    on the norm. *)
Definition sum_squares (v : vector) : JS.number :=
  fold_left (fun norm x => (norm + x * x)%float) v 0%float.

Definition normalizeVector (vec : option vector) : vector :=
  match vec with
  | None => []
  | Some [] => []
  | Some v =>
      let norm := PrimFloat.sqrt (sum_squares v) in
      if JS.strict_eq norm 0%float then v
      else List.map (fun x => (x / norm)%float) v
  end.

End Similarity.

(** ** The page, the outside world and the monad of effects *)

Module Runtime.

(** Thrown values: the class of the error and its message. Errors made
    by the code are [Error]s; a [fetch] that fails rejects with a
    [TypeError], a body that is not JSON gives a [SyntaxError], a full
    [localStorage] a [DOMException]. *)
Inductive ErrorClass := Error | TypeError | SyntaxError | DOMException.

Record JsError := { err_class : ErrorClass; err_message : string }.

Definition mkError (msg : string) : JsError := {| err_class := Error; err_message := msg |}.

(** How a call ends. *)
Inductive Completion (A : Type) :=
| Return (a : A)
| Throw (e : JsError).
Arguments Return {A} a.
Arguments Throw {A} e.

(** *** HTTP *)

Record Response (B : Type) := {
  resp_ok : bool;
  resp_status : Z;
  resp_statusText : string;
  resp_error_message : option string;  (* [errorData.error?.message] *)
  resp_json : option B                 (* [None]: the body is not JSON *)
}.
Arguments resp_ok {B} _.
Arguments resp_status {B} _.
Arguments resp_statusText {B} _.
Arguments resp_error_message {B} _.
Arguments resp_json {B} _.

Inductive FetchOutcome (B : Type) :=
| Rejected (reason : string)
| Resolved (r : Response B).
Arguments Rejected {B} reason.
Arguments Resolved {B} r.

(** The body of a chat completion, as far as it is read:
    [data.choices?.[0]?.message?.content]. *)
Definition CompletionBody := option string.

(** The JSON body of an embeddings reply, as [embed] reads it. Either
    [data.data] is an array of items, each with its [index] and its
    [embedding]; or the reading throws a [TypeError], whose message is
    given: the body has no [data] array (as [{}] has none), or an item
    of the array is [null]. *)
Inductive EmbeddingsBody :=
| Malformed (message : string)
| Items (items : list (Z * list JS.number)).

(** *** The outside world

    Everything the code asks of its environment is answered by [Env],
    indexed by the number of questions asked so far ([tick]): the clock,
    [Math.random], the three HTTP services, whether [localStorage] is
    full, and the user's answer to [confirm]. *)
Record Env := {
  clock : nat -> Instant;
  random : nat -> JS.number;
  file_server : nat -> string -> FetchOutcome StoreData;
  summarizer_api : nat -> FetchOutcome CompletionBody;
  embedding_api : nat -> FetchOutcome EmbeddingsBody;
  quota_exceeded : nat -> bool;
  confirms : nat -> bool
}.

(** *** What can be observed *)

Inductive ToastLevel := ToastSuccess | ToastError | ToastWarning | ToastInfo.

(** The context object given to [summarize]. *)
Record RawMessage := { raw_role : string; raw_name : string; raw_content : string }.

Record SummarizeContext := {
  ctx_role : string;
  ctx_characterName : string;
  ctx_userName : string;
  ctx_wordLimit : nat;
  ctx_summaryHistory : list string;
  ctx_rawHistory : list RawMessage
}.

Inductive Event :=
| EvFetchFile (path : string)
| EvSummarizeRequest (url : string) (message : string) (context : SummarizeContext)
| EvEmbedRequest (texts : list string) (input_type : string)
| EvSetItem (key : string)
| EvConsoleLog (text : string)
| EvConsoleError (text : string)
| EvToast (level : ToastLevel) (text : string).

(** *** The state of the page *)

Record SummarizerClient := {
  sc_apiUrl : string;
  sc_apiKey : string;
  sc_model : string;
  sc_wordLimit : nat
}.

Record VoyageAIClient := { vc_apiKey : string; vc_model : string }.

(** [extension_settings[extensionName]], the fields the write path and
    the retrieval read. *)
Record Settings := {
  top_k : nat;
  similarity_threshold : JS.number;
  word_limit : nat;
  include_history : bool;
  history_count : nat;
  include_raw_history : bool;
  raw_history_count : nat;
  raw_include_bot : bool;
  raw_include_user : bool;
  debug_mode : bool
}.

(** SillyTavern's context ([getContext()]). *)
Record ChatMessage := { mes : string; is_user : bool; is_system : bool }.

Record Context := {
  characterId : option string;
  chat : option (list ChatMessage);
  name1 : string;
  name2 : string;
  context_chatId : option string
}.

Record World := {
  (* lib/storage.js: [this.cache] of the one MemoryStorage instance *)
  cache : gmap string StoreData;
  (* the browser *)
  localStorage : gmap string JsonText;
  (* index.js: the global instances *)
  isProcessing : bool;
  settings : Settings;
  summarizerClient : SummarizerClient;
  voyageClient : VoyageAIClient;
  host : Context;
  (* the outside world and how far it has been consulted *)
  env : Env;
  tick : nat;
  (* what happened so far, oldest first *)
  trace : list Event
}.

Definition set_cache (f : gmap string StoreData -> gmap string StoreData) (w : World) : World :=
  {| cache := f (cache w); localStorage := localStorage w; isProcessing := isProcessing w;
     settings := settings w; summarizerClient := summarizerClient w;
     voyageClient := voyageClient w; host := host w; env := env w; tick := tick w;
     trace := trace w |}.

Definition set_localStorage (f : gmap string JsonText -> gmap string JsonText) (w : World) : World :=
  {| cache := cache w; localStorage := f (localStorage w); isProcessing := isProcessing w;
     settings := settings w; summarizerClient := summarizerClient w;
     voyageClient := voyageClient w; host := host w; env := env w; tick := tick w;
     trace := trace w |}.

Definition set_isProcessing (b : bool) (w : World) : World :=
  {| cache := cache w; localStorage := localStorage w; isProcessing := b;
     settings := settings w; summarizerClient := summarizerClient w;
     voyageClient := voyageClient w; host := host w; env := env w; tick := tick w;
     trace := trace w |}.

Definition next_tick (w : World) : World :=
  {| cache := cache w; localStorage := localStorage w; isProcessing := isProcessing w;
     settings := settings w; summarizerClient := summarizerClient w;
     voyageClient := voyageClient w; host := host w; env := env w; tick := S (tick w);
     trace := trace w |}.

Definition emit (e : Event) (w : World) : World :=
  {| cache := cache w; localStorage := localStorage w; isProcessing := isProcessing w;
     settings := settings w; summarizerClient := summarizerClient w;
     voyageClient := voyageClient w; host := host w; env := env w; tick := tick w;
     trace := trace w ++ [e] |}.

(** *** The monad: a call takes the world and gives its completion and
    the world it leaves. [await] is sequencing: a call runs to its end
    before the next statement. *)
Definition Js (A : Type) : Type := World -> Completion A * World.

Definition ret {A} (a : A) : Js A := fun w => (Return a, w).

Definition throw {A} (e : JsError) : Js A := fun w => (Throw e, w).

Definition bind {A B} (c : Js A) (k : A -> Js B) : Js B :=
  fun w =>
    match c w with
    | (Return a, w') => k a w'
    | (Throw e, w') => (Throw e, w')
    end.

(** [try { c } catch (error) { handler error }] *)
Definition try_catch {A} (c : Js A) (handler : JsError -> Js A) : Js A :=
  fun w =>
    match c w with
    | (Return a, w') => (Return a, w')
    | (Throw e, w') => handler e w'
    end.

(** [try { c } finally { f }], for an [f] that does not throw. *)
Definition try_finally {A} (c : Js A) (f : World -> World) : Js A :=
  fun w => let (r, w') := c w in (r, f w').

Definition get_world : Js World := fun w => (Return w, w).

Definition update (f : World -> World) : Js unit := fun w => (Return tt, f w).

Declare Scope js_scope.
Delimit Scope js_scope with js.
Notation "x <- c ;; k" := (bind c (fun x => k))
  (at level 100, c at next level, right associativity) : js_scope.
Notation "c ;;; k" := (bind c (fun _ => k))
  (at level 100, right associativity) : js_scope.
Local Open Scope js_scope.

Definition when (b : bool) (c : Js unit) : Js unit := if b then c else ret tt.

(** [for (const x of l) { body x }] *)
Fixpoint for_of {A} (l : list A) (body : A -> Js unit) : Js unit :=
  match l with
  | [] => ret tt
  | x :: l' => body x ;;; for_of l' body
  end.

(** *** Primitives *)

Definition console_log (text : string) : Js unit := update (emit (EvConsoleLog text)).
Definition console_error (text : string) : Js unit := update (emit (EvConsoleError text)).
Definition toastr (level : ToastLevel) (text : string) : Js unit := update (emit (EvToast level text)).

(** [new Date()] *)
Definition Date_now : Js Instant :=
  fun w => (Return (clock (env w) (tick w)), next_tick w).

(** [Math.random()] *)
Definition Math_random : Js JS.number :=
  fun w => (Return (random (env w) (tick w)), next_tick w).

(** [confirm(text)] *)
Definition confirm : Js bool :=
  fun w => (Return (confirms (env w) (tick w)), next_tick w).

(** [await fetch(...)]: the request is observed, then the promise is
    rejected or resolved. *)
Definition fetch {B} (request : Event) (service : World -> FetchOutcome B) : Js (Response B) :=
  fun w =>
    let w' := next_tick (emit request w) in
    match service w with
    | Rejected reason => (Throw {| err_class := TypeError; err_message := reason |}, w')
    | Resolved r => (Return r, w')
    end.

(** [await response.json()] *)
Definition response_json {B} (r : Response B) : Js B :=
  match resp_json r with
  | Some b => ret b
  | None => throw {| err_class := SyntaxError; err_message := "Unexpected token in JSON" |}
  end.

(** [localStorage.setItem(key, value)] *)
Definition localStorage_setItem (key : string) (value : JsonText) : Js unit :=
  fun w =>
    let w' := next_tick (emit (EvSetItem key) w) in
    if quota_exceeded (env w) (tick w)
    then (Throw {| err_class := DOMException; err_message := "The quota has been exceeded." |}, w')
    else (Return tt, set_localStorage (insert key value) w').

End Runtime.

(** ** Memory storage ([lib/storage.js]) *)

Module Storage.
Import Runtime.
Local Open Scope js_scope.
Local Open Scope string_scope.

(** [generateUUID]: every [x] and [y] of the template is replaced, from
    left to right, by a digit drawn with [Math.random() * 16 | 0]. *)
Definition uuid_template : string := "xxxxxxxx-xxxx-4xxx-yxxx-xxxxxxxxxxxx".

Definition uuid_digit (c : ascii) : Js string :=
  x <- Math_random ;;
  let r := JS.ToInt32 (x * 16)%float in
  let v := if Ascii.eqb c "x" then r else Z.lor (Z.land r 3) 8 in
  ret (JS.hex_digit v).

Fixpoint replace_xy (template : string) : Js string :=
  match template with
  | EmptyString => ret EmptyString
  | String c rest =>
      d <- (if (Ascii.eqb c "x" || Ascii.eqb c "y")%bool
            then uuid_digit c else ret (String c EmptyString)) ;;
      ds <- replace_xy rest ;;
      ret (d ++ ds)
  end.

Definition generateUUID : Js string := replace_xy uuid_template.

(** [getFilePath]: characters outside [a-zA-Z0-9_-] become [_]. *)
Definition is_safe_char (c : ascii) : bool :=
  let n := nat_of_ascii c in
  ((Nat.leb 97 n && Nat.leb n 122) || (Nat.leb 65 n && Nat.leb n 90)
   || (Nat.leb 48 n && Nat.leb n 57) || Nat.eqb n 95 || Nat.eqb n 45)%bool.

Fixpoint sanitize (s : string) : string :=
  match s with
  | EmptyString => EmptyString
  | String c s' => String (if is_safe_char c then c else "_"%char) (sanitize s')
  end.

Definition dataPath : string :=
  "scripts/extensions/third-party/st-voyageai-memory" ++ "/data/memories".

Definition getFilePath (characterId : string) : string :=
  dataPath ++ "/" ++ sanitize characterId ++ ".json".

Definition cache_get (characterId : string) : Js (option StoreData) :=
  fun w => (Return (cache w !! characterId), w).

Definition cache_set (characterId : string) (data : StoreData) : Js unit :=
  update (set_cache (insert characterId data)).

(** An assignment to a field of the object [loadMemories characterId]
    returned. That object is the one the cache holds under
    [characterId], so the cache entry changes with it. *)
Definition mutate (characterId : string) (data : StoreData) : Js StoreData :=
  cache_set characterId data ;;; ret data.

Definition loadMemories (characterId characterName : string) : Js StoreData :=
  cached <- cache_get characterId ;;
  match cached with
  | Some data => ret data
  | None =>
      let filePath := getFilePath characterId in
      loaded <-
        try_catch
          (response <- fetch (EvFetchFile filePath)
                         (fun w => file_server (env w) (tick w) filePath) ;;
           if resp_ok response then
             data <- response_json response ;;
             cache_set characterId data ;;;
             ret (Some data)
           else ret None)
          (fun _ =>
             console_log ("[VoyageAI Memory] Creating new memory file for " ++ characterId) ;;;
             ret None) ;;
      match loaded with
      | Some data => ret data
      | None =>
          created <- Date_now ;;
          updated <- Date_now ;;
          let newData := {| character_id := characterId; character_name := characterName;
                            created_at := created; updated_at := updated; memories := [] |} in
          cache_set characterId newData ;;;
          ret newData
      end
  end.

Definition storageKey (characterId : string) : string := "voyageai_memory_" ++ characterId.

Definition saveMemories (characterId : string) (data : StoreData) : Js bool :=
  now <- Date_now ;;
  data <- mutate characterId (set_updated_at data now) ;;
  cache_set characterId data ;;;
  try_catch
    (localStorage_setItem (storageKey characterId) (JSON_stringify data) ;;;
     console_log ("[VoyageAI Memory] Saved " ++ pretty (length (memories data))
                  ++ " memories for " ++ characterId) ;;;
     ret true)
    (fun error =>
       console_error ("[VoyageAI Memory] Save error: " ++ err_message error) ;;;
       ret false).

(** [{ id: generateUUID(), timestamp: ..., ...memory }] *)
Definition finalize (id : string) (ts : Instant) (memory : PartialMemory) : MemoryRecord :=
  {| id := id; timestamp := ts;
     original_message := p_original_message memory;
     summary := p_summary memory;
     embedding := p_embedding memory;
     metadata := p_metadata memory |}.

Definition addMemory (characterId : string) (memory : PartialMemory) : Js MemoryRecord :=
  data <- loadMemories characterId "" ;;
  uuid <- generateUUID ;;
  now <- Date_now ;;
  let newMemory := finalize uuid now memory in
  data <- mutate characterId (set_memories data (memories data ++ [newMemory])) ;;
  _ <- saveMemories characterId data ;;
  ret newMemory.

Definition getMemories (characterId : string) : Js (list MemoryRecord) :=
  data <- loadMemories characterId "" ;;
  ret (memories data).

Definition deleteMemory (characterId memoryId : string) : Js bool :=
  data <- loadMemories characterId "" ;;
  let initialLength := length (memories data) in
  data <- mutate characterId
            (set_memories data
               (List.filter (fun m => negb (String.eqb (id m) memoryId)) (memories data))) ;;
  if Nat.ltb (length (memories data)) initialLength then
    _ <- saveMemories characterId data ;;
    ret true
  else ret false.

Definition clearMemories (characterId : string) : Js bool :=
  data <- loadMemories characterId "" ;;
  data <- mutate characterId (set_memories data []) ;;
  _ <- saveMemories characterId data ;;
  console_log ("[VoyageAI Memory] Cleared all memories for " ++ characterId) ;;;
  ret true.

Record Stats := {
  totalMemories : nat;
  characterName : string;
  createdAt : Instant;
  updatedAt : Instant;
  oldestMemory : option Instant;
  newestMemory : option Instant
}.

Definition getStats (characterId : string) : Js Stats :=
  data <- loadMemories characterId "" ;;
  ret {| totalMemories := length (memories data);
         characterName := character_name data;
         createdAt := created_at data;
         updatedAt := updated_at data;
         oldestMemory := option_map timestamp (head (memories data));
         newestMemory := option_map timestamp (last (memories data)) |}.

Definition exportMemories (characterId : string) : Js JsonText :=
  data <- loadMemories characterId "" ;;
  ret (JSON_stringify data).

(** [JSON.parse(jsonString)] followed by the read of [.memories]: a text
    that is not JSON throws a [SyntaxError], and reading a property of
    [null] a [TypeError]. *)
Definition JSON_parse (text : JsonText) : Js (option Document) :=
  match text with
  | NotJson _ => throw {| err_class := SyntaxError; err_message := "Unexpected token in JSON" |}
  | JsonNull => ret None
  | JsonValue d => ret (Some d)
  end.

Definition get_memories (importData : option Document) : Js MemoriesField :=
  match importData with
  | None => throw {| err_class := TypeError;
                     err_message := "Cannot read properties of null (reading 'memories')" |}
  | Some d => ret (doc_memories d)
  end.

Definition importMemories (characterId : string) (jsonString : JsonText) (merge : bool)
    : Js nat :=
  try_catch
    (importData <- JSON_parse jsonString ;;
     field <- get_memories importData ;;
     match field with
     | FieldFalsy | FieldNotArray => throw (mkError "Invalid memory file format")
     | FieldArray imported =>
         currentData <- loadMemories characterId "" ;;
         currentData <-
           (if merge then
              let existingIds : gset string := list_to_set (List.map id (memories currentData)) in
              let newMemories :=
                List.filter (fun m => negb (bool_decide (id m ∈ existingIds))) imported in
              mutate characterId
                (set_memories currentData (memories currentData ++ newMemories))
            else
              mutate characterId (set_memories currentData imported)) ;;
         _ <- saveMemories characterId currentData ;;
         ret (length imported)
     end)
    (fun error =>
       console_error ("[VoyageAI Memory] Import error: " ++ err_message error) ;;;
       throw error).

Definition clearCache : Js unit := update (set_cache (fun _ => ∅)).

Definition invalidateCache (characterId : string) : Js unit :=
  update (set_cache (delete characterId)).

(** [createMemory(originalMessage, summary, embedding, metadata)]. The
    caller's [metadata] is given by its own keys: [role] when it has one,
    and [chatId]. *)
Record MetadataArg := { arg_role : option string; arg_chatId : option string }.

Definition createMemory (originalMessage summary : string) (embedding : list JS.number)
    (metadata : MetadataArg) : PartialMemory :=
  {| p_original_message := originalMessage;
     p_summary := summary;
     p_embedding := Some (List.map JS.Num embedding);
     p_metadata :=
       {| role := match arg_role metadata with Some r => r | None => "unknown" end;
          chat_id := match arg_chatId metadata with
                     | Some c => if JS.truthy c then Some c else None
                     | None => None
                     end;
          importance := JS.Num 0.5%float;
          chatId := arg_chatId metadata |} |}.

End Storage.

(** ** The summarization client ([lib/summarizer.js]) *)

Module Summarizer.
Import Runtime.
Local Open Scope js_scope.
Local Open Scope string_scope.

(** [s.endsWith(suffix)] *)
Definition endsWith (s suffix : string) : bool :=
  let n := String.length s in
  let k := String.length suffix in
  (Nat.leb k n && String.eqb (String.substring (n - k) k s) suffix)%bool.

Definition getEndpointUrl (client : SummarizerClient) : string :=
  let url := JS.trim (sc_apiUrl client) in
  let url := if endsWith url "/" then String.substring 0 (String.length url - 1) url else url in
  if negb (endsWith url "/chat/completions") then
    let url := if negb (endsWith url "/v1") then url ++ "/v1" else url in
    url ++ "/chat/completions"
  else url.

(** [!message || message.trim().length === 0] *)
Definition blank (message : string) : bool :=
  (negb (JS.truthy message) || Nat.eqb (String.length (JS.trim message)) 0)%bool.

(** [summarize]. The body of the request (the model and the two prompts
    that [processSystemPrompt] and [formatUserContent] build) is
    represented by the message and the context it is built from. *)
Definition summarize (message : string) (context : SummarizeContext) : Js string :=
  w <- get_world ;;
  let client := summarizerClient w in
  if (negb (JS.truthy (sc_apiUrl client)) || negb (JS.truthy (sc_apiKey client)))%bool then
    throw (mkError "Summarization API URL and key are required")
  else if blank message then ret ""
  else
    try_catch
      (response <- fetch (EvSummarizeRequest (getEndpointUrl client) message context)
                     (fun w => summarizer_api (env w) (tick w)) ;;
       if negb (resp_ok response) then
         throw (mkError ("Summarization API error: " ++ pretty (resp_status response) ++ " - "
                         ++ JS.or_else (default "" (resp_error_message response))
                              (resp_statusText response)))
       else
         data <- response_json response ;;
         match option_map JS.trim data with
         | Some summary =>
             if JS.truthy summary then ret summary
             else throw (mkError "No summary generated")
         | None => throw (mkError "No summary generated")
         end)
      (fun error =>
         console_error ("[VoyageAI Memory] Summarization error: " ++ err_message error) ;;;
         throw error).


(** The context [{}]: every property is missing. *)
Definition empty_context : SummarizeContext :=
  {| ctx_role := ""; ctx_characterName := ""; ctx_userName := ""; ctx_wordLimit := 0;
     ctx_summaryHistory := []; ctx_rawHistory := [] |}.

(** [summarizeBatch]: an item is [{ message, context }], the context
    being optional. The pause after each item is not represented. *)
Record BatchItem := { item_message : string; item_context : option SummarizeContext }.

Fixpoint summarizeBatch_from (items : list BatchItem) (summaries : list string)
    : Js (list string) :=
  match items with
  | [] => ret summaries
  | item :: rest =>
      summaries <-
        try_catch
          (summary <- summarize (item_message item)
                        (default empty_context (item_context item)) ;;
           ret (summaries ++ [summary])%list)
          (fun error =>
             console_error ("[VoyageAI Memory] Batch summarization error: "
                            ++ err_message error) ;;;
             ret (summaries ++ [EmptyString])%list) ;;
      summarizeBatch_from rest summaries
  end.

Definition summarizeBatch (items : list BatchItem) : Js (list string) :=
  summarizeBatch_from items [].

Definition testConnection : Js bool :=
  try_catch
    (_ <- summarize "This is a test message." empty_context ;; ret true)
    (fun error =>
       console_error ("[VoyageAI Memory] Summarization connection test failed: "
                      ++ err_message error) ;;;
       ret false).

(** [fallbackSummarize(text, maxLength)]: [text] may be missing, and
    [maxLength] is a count. For integers [lastSentence > maxLength * 0.5]
    says that twice [lastSentence] is above [maxLength]. *)
Definition fallbackSummarize (text : option string) (maxLength : nat) : string :=
  match text with
  | None => ""
  | Some text =>
      if (negb (JS.truthy text) || Nat.leb (String.length text) maxLength)%bool then text
      else
        let truncated := JS.String_slice0 text maxLength in
        let lastPeriod := JS.lastIndexOf truncated "." in
        let lastQuestion := JS.lastIndexOf truncated "?" in
        let lastExclaim := JS.lastIndexOf truncated "!" in
        let lastSentence := Z.max (Z.max lastPeriod lastQuestion) lastExclaim in
        if Z.ltb (Z.of_nat maxLength) (2 * lastSentence) then
          JS.String_slice0 truncated (Z.to_nat (lastSentence + 1))
        else
          let lastSpace := JS.lastIndexOf truncated " " in
          if Z.ltb 0 lastSpace then JS.String_slice0 truncated (Z.to_nat lastSpace) ++ "..."
          else truncated ++ "..."
  end.

End Summarizer.

(** ** The embedding client ([lib/voyageai.js]) *)

Module VoyageAI.
Import Runtime.
Local Open Scope js_scope.
Local Open Scope string_scope.

(** [embed(input, inputType)], with [input] already as the array
    [texts]; the [usage] of the reply, which no caller reads, is left
    out. *)
Definition embed (texts : list string) (inputType : string) : Js (list (list JS.number)) :=
  w <- get_world ;;
  if negb (JS.truthy (vc_apiKey (voyageClient w))) then
    throw (mkError "VoyageAI API key is not configured")
  else if Nat.eqb (length texts) 0 then ret []
  else
    try_catch
      (response <- fetch (EvEmbedRequest texts inputType)
                     (fun w => embedding_api (env w) (tick w)) ;;
       if negb (resp_ok response) then
         throw (mkError ("VoyageAI API error: " ++ pretty (resp_status response) ++ " - "
                         ++ JS.or_else (default "" (resp_error_message response))
                              (resp_statusText response)))
       else
         data <- response_json response ;;
         match data with
         | Malformed message => throw {| err_class := TypeError; err_message := message |}
         | Items items =>
             ret (List.map snd
                    (JS.Array_sort (fun a b => Z.ltb 0 (fst a - fst b)) items))
         end)
      (fun error =>
         console_error ("[VoyageAI Memory] Embedding error: " ++ err_message error) ;;;
         throw error).

(** [result.embeddings[0] || []] *)
Definition embedDocument (text : string) : Js (list JS.number) :=
  embeddings <- embed [text] "document" ;;
  ret (match embeddings with e :: _ => e | [] => [] end).

Definition embedQuery (text : string) : Js (list JS.number) :=
  embeddings <- embed [text] "query" ;;
  ret (match embeddings with e :: _ => e | [] => [] end).


(** [embedDocuments]: the loop over [i = 0, 128, 256, ...] while
    [i < texts.length]. [fuel] bounds the number of turns; the length of
    [texts] is enough, as [i] grows at every turn. *)
Definition BATCH_SIZE : nat := 128.

Fixpoint embedDocuments_from (fuel i : nat) (texts : list string)
    (allEmbeddings : list (list JS.number)) : Js (list (list JS.number)) :=
  if Nat.ltb i (length texts) then
    match fuel with
    | O => ret allEmbeddings
    | S fuel' =>
        let batch := firstn BATCH_SIZE (skipn i texts) in
        embeddings <- embed batch "document" ;;
        embedDocuments_from fuel' (i + BATCH_SIZE) texts (allEmbeddings ++ embeddings)%list
    end
  else ret allEmbeddings.

Definition embedDocuments (texts : list string) : Js (list (list JS.number)) :=
  if Nat.eqb (length texts) 0 then ret []
  else embedDocuments_from (length texts) 0 texts [].

Definition testConnection : Js bool :=
  try_catch
    (_ <- embed ["test"] "document" ;; ret true)
    (fun error =>
       console_error ("[VoyageAI Memory] Connection test failed: " ++ err_message error) ;;;
       ret false).

End VoyageAI.

(** ** The write path ([index.js]) *)

Module Index.
Import Runtime.
Local Open Scope js_scope.
Local Open Scope string_scope.

(** [log]: printed in debug mode only. *)
Definition log (message : string) : Js unit :=
  w <- get_world ;;
  when (debug_mode (settings w)) (console_log ("[VoyageAI Memory] " ++ message)).

Definition getRecentSummaries (characterId : string) (count : nat) : Js (list string) :=
  try_catch
    (memories <- Storage.getMemories characterId ;;
     if Nat.eqb (length memories) 0 then ret []
     else
       ret (List.map summary
              (rev (JS.Array_slice0
                      (JS.Array_sort (fun a b => Z.ltb 0 (timestamp b - timestamp a)) memories)
                      count))))
    (fun error =>
       console_error ("[VoyageAI Memory] Error getting recent summaries: " ++ err_message error) ;;;
       ret []).

(** The loop of [getRecentRawMessages], over the messages paired with
    their indices, last message first; [count] is what is still to be
    collected. *)
Fixpoint collect_raw (context : Context) (includeBot includeUser : bool) (excludeIndex : Z)
    (messages : list (Z * ChatMessage)) (count : nat) : list RawMessage :=
  match messages with
  | [] => []
  | (i, msg) :: rest =>
      match count with
      | O => []
      | S count' =>
          let isUser := is_user msg in
          if is_system msg then collect_raw context includeBot includeUser excludeIndex rest count
          else if (Z.leb 0 excludeIndex && Z.eqb i excludeIndex)%bool
          then collect_raw context includeBot includeUser excludeIndex rest count
          else if (isUser && negb includeUser)%bool
          then collect_raw context includeBot includeUser excludeIndex rest count
          else if (negb isUser && negb includeBot)%bool
          then collect_raw context includeBot includeUser excludeIndex rest count
          else if (negb (JS.truthy (mes msg))
                   || Nat.ltb (String.length (JS.trim (mes msg))) 5)%bool
          then collect_raw context includeBot includeUser excludeIndex rest count
          else
            {| raw_role := if isUser then "user" else "assistant";
               raw_name := if isUser then JS.or_else (name1 context) "User"
                           else JS.or_else (name2 context) "Character";
               raw_content := mes msg |}
            :: collect_raw context includeBot includeUser excludeIndex rest count'
      end
  end.

Fixpoint indexed_from {A} (i : Z) (l : list A) : list (Z * A) :=
  match l with
  | [] => []
  | x :: l' => (i, x) :: indexed_from (i + 1)%Z l'
  end.

Definition getRecentRawMessages (context : Context) (count : nat)
    (includeBot includeUser : bool) (excludeIndex : Z) : list RawMessage :=
  match chat context with
  | None | Some [] => []
  | Some chat =>
      rev (collect_raw context includeBot includeUser excludeIndex
             (rev (indexed_from 0%Z chat)) count)
  end.

(** [context.characterId] as a string, when it is truthy. *)
Definition truthy_id (context : Context) : option string :=
  match characterId context with
  | Some c => if JS.truthy c then Some c else None
  | None => None
  end.

(** [updateMemoryStats]. What it writes to the page is not represented;
    [formatTimeAgo], which makes the text of the last update, reads the
    clock. *)
Definition updateMemoryStats : Js unit :=
  w <- get_world ;;
  match truthy_id (host w) with
  | None => ret tt
  | Some c =>
      try_catch
        (_ <- Storage.getStats c ;;
         _ <- Date_now ;;
         ret tt)
        (fun error => console_error ("[VoyageAI Memory] Stats error: " ++ err_message error))
  end.

(** [memoryStorage.addMemory(context.characterId, memory)]: with no
    character id, [getFilePath] fails on [undefined.replace]. *)
Definition addMemory_for (context : Context) (memory : PartialMemory) : Js MemoryRecord :=
  match characterId context with
  | Some c => Storage.addMemory c memory
  | None => throw {| err_class := TypeError;
                     err_message := "Cannot read properties of undefined (reading 'replace')" |}
  end.

(** *** [processAndStoreMessage] *)

(** The two guards. *)
Definition too_short (messageText : string) : bool :=
  (negb (JS.truthy messageText) || Nat.ltb (String.length (JS.trim messageText)) 20)%bool.

(** The context gathered for the summarizer (first half of the [try]
    block). *)
Definition gatherContext (messageText role : string) (context : Context)
    : Js SummarizeContext :=
  w <- get_world ;;
  let settings := settings w in
  summaryHistory <-
    match include_history settings, truthy_id context with
    | true, Some c => getRecentSummaries c (JS.or_default (history_count settings) 3)
    | _, _ => ret []
    end ;;
  rawHistory <-
    (if include_raw_history settings then
       match chat context with
       | None => throw {| err_class := TypeError;
                          err_message := "Cannot read properties of undefined (reading 'findIndex')" |}
       | Some chat =>
           let currentMsgIndex := JS.Array_findIndex (fun m => String.eqb (mes m) messageText) chat in
           ret (getRecentRawMessages context (JS.or_default (raw_history_count settings) 5)
                  (raw_include_bot settings) (raw_include_user settings) currentMsgIndex)
       end
     else ret []) ;;
  ret {| ctx_role := role;
         ctx_characterName := name2 context;
         ctx_userName := JS.or_else (name1 context) "User";
         ctx_wordLimit := JS.or_default (word_limit settings) 50;
         ctx_summaryHistory := summaryHistory;
         ctx_rawHistory := rawHistory |}.

(** The three stages (rest of the [try] block). *)
Definition pipeline (messageText role : string) (context : Context)
    (summarizeContext : SummarizeContext) : Js unit :=
  summary <- Summarizer.summarize messageText summarizeContext ;;
  (if negb (JS.truthy summary) then throw (mkError "Failed to generate summary") else ret tt) ;;;
  embedding <- VoyageAI.embedDocument summary ;;
  (if Nat.eqb (length embedding) 0 then throw (mkError "Failed to generate embedding")
   else ret tt) ;;;
  let memory := Storage.createMemory messageText summary embedding
                  {| Storage.arg_role := Some role;
                     Storage.arg_chatId := context_chatId context |} in
  _ <- addMemory_for context memory ;;
  log ("Stored memory for " ++ role ++ ": " ++ String.substring 0 50 summary ++ "...") ;;;
  updateMemoryStats ;;;
  toastr ToastSuccess "Memory stored successfully".

(** The synchronous start: the guards, then the flag. It tells whether
    the call goes on. *)
Definition processAndStoreMessage_start (messageText : string) : Js bool :=
  w <- get_world ;;
  if isProcessing w then
    log "Already processing, skipping message" ;;; ret false
  else if too_short messageText then
    log "Message too short, skipping" ;;; ret false
  else
    update (set_isProcessing true) ;;; ret true.

(** The [try] / [catch] / [finally] statement. *)
Definition processAndStoreMessage_rest (messageText role : string) (context : Context)
    : Js unit :=
  try_finally
    (try_catch
       (summarizeContext <- gatherContext messageText role context ;;
        pipeline messageText role context summarizeContext)
       (fun error =>
          console_error ("[VoyageAI Memory] Processing error: " ++ err_message error) ;;;
          toastr ToastError ("Failed to process message: " ++ err_message error)))
    (set_isProcessing false).

Definition processAndStoreMessage (messageText role : string) (context : Context) : Js unit :=
  go <- processAndStoreMessage_start messageText ;;
  if go then processAndStoreMessage_rest messageText role context else ret tt.

(** *** [storeCurrentChat] *)

(** The messages to process:
    [!m.is_system && m.mes && m.mes.length >= 20]. *)
Definition storable (m : ChatMessage) : bool :=
  (negb (is_system m) && JS.truthy (mes m) && Nat.leb 20 (String.length (mes m)))%bool.

(** The synchronous start: the checks and the question to the user. *)
Definition storeCurrentChat_start : Js (option (Context * list ChatMessage)) :=
  w <- get_world ;;
  let context := host w in
  match truthy_id context, chat context with
  | Some _, Some chat =>
      let messages := List.filter storable chat in
      if Nat.eqb (length messages) 0 then
        toastr ToastInfo "No messages to store" ;;; ret None
      else
        ok <- confirm ;;
        if ok then ret (Some (context, messages)) else ret None
  | _, _ => toastr ToastWarning "No active chat to process" ;;; ret None
  end.

(** One turn of the loop; [counts] are [processed] and [failed]. The
    pause between two messages is not represented. *)
Definition store_one (context : Context) (message : ChatMessage) (counts : nat * nat)
    : Js (nat * nat) :=
  try_catch
    (let role := if is_user message then "user" else "assistant" in
     summary <- Summarizer.summarize (mes message)
                  {| ctx_role := role; ctx_characterName := name2 context;
                     ctx_userName := ""; ctx_wordLimit := 0;
                     ctx_summaryHistory := []; ctx_rawHistory := [] |} ;;
     embedding <- VoyageAI.embedDocument summary ;;
     let memory := Storage.createMemory (mes message) summary embedding
                     {| Storage.arg_role := Some role;
                        Storage.arg_chatId := context_chatId context |} in
     _ <- addMemory_for context memory ;;
     ret (S (fst counts), snd counts))
    (fun error =>
       console_error ("[VoyageAI Memory] Error processing message: " ++ err_message error) ;;;
       ret (fst counts, S (snd counts))).

Fixpoint store_all (context : Context) (messages : list ChatMessage) (counts : nat * nat)
    : Js (nat * nat) :=
  match messages with
  | [] => ret counts
  | message :: rest =>
      counts' <- store_one context message counts ;;
      store_all context rest counts'
  end.

Definition storeCurrentChat_rest (context : Context) (messages : list ChatMessage) : Js unit :=
  counts <- store_all context messages (0, 0) ;;
  updateMemoryStats ;;;
  toastr ToastSuccess ("Processed " ++ pretty (fst counts) ++ " messages ("
                       ++ pretty (snd counts) ++ " failed)").

Definition storeCurrentChat : Js unit :=
  start <- storeCurrentChat_start ;;
  match start with
  | Some (context, messages) => storeCurrentChat_rest context messages
  | None => ret tt
  end.


(** *** Retrieval *)

Definition retrieveRelevantMemories (queryText : string) : Js (list Similarity.Scored) :=
  w <- get_world ;;
  let settings := settings w in
  let context := host w in
  match truthy_id context with
  | None => ret []
  | Some c =>
      try_catch
        (queryEmbedding <- VoyageAI.embedQuery queryText ;;
         if Nat.eqb (length queryEmbedding) 0 then ret []
         else
           memories <- Storage.getMemories c ;;
           if Nat.eqb (length memories) 0 then ret []
           else
             let results :=
               Similarity.findTopKSimilar (Some queryEmbedding) (Some memories)
                 (top_k settings) (similarity_threshold settings) in
             log ("Found " ++ pretty (length results) ++ " relevant memories") ;;;
             ret results)
        (fun error =>
           console_error ("[VoyageAI Memory] Retrieval error: " ++ err_message error) ;;;
           ret [])
  end.

(** *** The handlers of the page *)

(** [onChatChanged]. The global [currentCharacterId], which is written
    here and read nowhere else, is left out. *)
Definition onChatChanged : Js unit :=
  w <- get_world ;;
  let context := host w in
  match truthy_id context with
  | Some c =>
      Storage.invalidateCache c ;;;
      updateMemoryStats ;;;
      log ("Switched to character: " ++ name2 context)
  | None => ret tt
  end.

Definition clearCurrentMemories : Js unit :=
  w <- get_world ;;
  let context := host w in
  match truthy_id context with
  | None => toastr ToastWarning "No active character"
  | Some c =>
      ok <- confirm ;;
      if ok then
        _ <- Storage.clearMemories c ;;
        updateMemoryStats ;;;
        toastr ToastSuccess "Memories cleared"
      else ret tt
  end.

(** [importMemories(event)]: [file] is [event.target.files[0]], given by
    the text it holds. *)
Definition importMemories (file : option JsonText) : Js unit :=
  w <- get_world ;;
  let context := host w in
  match truthy_id context with
  | None => toastr ToastWarning "No active character"
  | Some c =>
      match file with
      | None => ret tt
      | Some text =>
          try_catch
            (merge <- confirm ;;
             count <- Storage.importMemories c text merge ;;
             updateMemoryStats ;;;
             toastr ToastSuccess ("Imported " ++ pretty count ++ " memories"))
            (fun error => toastr ToastError ("Import failed: " ++ err_message error))
      end
  end.

(** The switches of the settings that only the two message handlers
    read; the handlers take them as an argument. *)
Record Switches := {
  enabled : bool;
  auto_store : bool;
  summarize_bot : bool;
  summarize_user : bool
}.

(** [context.chat[messageId]], then the call of the write path. *)
Definition store_message (messageId : nat) (role : string) : Js unit :=
  w <- get_world ;;
  let context := host w in
  match chat context with
  | None => throw {| err_class := TypeError;
                     err_message := "Cannot read properties of undefined" |}
  | Some chat =>
      match nth_error chat messageId with
      | None => ret tt
      | Some message =>
          if is_system message then ret tt
          else processAndStoreMessage (mes message) role context
      end
  end.

Definition onMessageReceived (switches : Switches) (messageId : nat) : Js unit :=
  if (negb (enabled switches) || negb (auto_store switches))%bool then ret tt
  else if negb (summarize_bot switches) then
    log "Bot message summarization disabled, skipping"
  else store_message messageId "assistant".

Definition onMessageSent (switches : Switches) (messageId : nat) : Js unit :=
  if (negb (enabled switches) || negb (auto_store switches))%bool then ret tt
  else if negb (summarize_user switches) then
    log "User message summarization disabled, skipping"
  else store_message messageId "user".

End Index.

(** ** Overlapping invocations

    The page runs one piece of code at a time, and a call gives way to
    others only while it awaits. A call is in flight from its
    synchronous start to the end of its last continuation; here a call
    that goes on after its start is kept with what is left of it, and
    runs it in one piece when it is resumed. *)

Module SingleFlight.
Import Runtime.










End SingleFlight.

(* ===================================================================== *)
(** * Part II: properties *)
(* ===================================================================== *)

(** ** Order facts about binary64 numbers

    [Floats] specifies the primitive operations by functions on
    [spec_float]; the comparisons of the code are related here: the sign
    of a difference to the order of its operands, and the order to
    itself. *)

Section FloatFacts.
Local Open Scope Z_scope.

Lemma digits2_pos_size p : digits2_pos p = Pos.size p.
Proof. induction p; simpl; congruence. Qed.

Lemma digits2_pos_bounds p :
  2 ^ (Zpos (digits2_pos p) - 1) <= Zpos p < 2 ^ Zpos (digits2_pos p).
Proof.
  rewrite digits2_pos_size. split.
  - pose proof (Pos.size_le p) as H.
    assert (Hp : (Z.pos (2 ^ Pos.size p) <= Z.pos p~0)) by (apply Pos2Z.pos_le_pos; exact H).
    rewrite Pos2Z.inj_pow in Hp.
    replace (Z.pos (Pos.size p)) with (Z.succ (Z.pos (Pos.size p) - 1)) in Hp by lia.
    rewrite Z.pow_succ_r in Hp by lia. lia.
  - pose proof (Pos.size_gt p) as H.
    assert (Hp : (Z.pos p < Z.pos (2 ^ Pos.size p))) by (apply Pos2Z.pos_lt_pos; exact H).
    rewrite Pos2Z.inj_pow in Hp. exact Hp.
Qed.

Lemma iter_xO_value m d : Zpos (Pos.iter xO m d) = Zpos m * 2 ^ Zpos d.
Proof.
  revert m. induction d using Pos.peano_ind; intros m.
  - simpl. lia.
  - rewrite Pos.iter_succ. rewrite Pos2Z.inj_xO, IHd, Pos2Z.inj_succ, Z.pow_succ_r by lia. lia.
Qed.

Lemma shl_align_value m e e' :
  Zpos (fst (shl_align m e e')) = Zpos m * 2 ^ (e - Z.min e e')
  /\ snd (shl_align m e e') = Z.min e e'.
Proof.
  unfold shl_align. destruct (e' - e) eqn:E; simpl.
  - replace (Z.min e e') with e by lia. rewrite Z.sub_diag. simpl. lia.
  - replace (Z.min e e') with e by lia. rewrite Z.sub_diag. simpl. lia.
  - rewrite iter_xO_value. replace (Z.min e e') with e' by lia.
    replace (e - e') with (Z.pos p) by lia. split; reflexivity.
Qed.

Lemma shr_1_m mrs : 0 <= shr_m mrs -> shr_m (shr_1 mrs) = shr_m mrs / 2.
Proof.
  destruct mrs as [m r s]. simpl. intros Hm.
  destruct m as [|p|p]; simpl; try lia.
  - reflexivity.
  - destruct p; simpl.
    + apply Z.div_unique with (r := 1); lia.
    + apply Z.div_unique with (r := 0); lia.
    + reflexivity.
Qed.

Lemma pow2_xI p : 2 ^ Z.pos p~1 = 2 * 2 ^ Z.pos p * 2 ^ Z.pos p.
Proof.
  change (Z.pos p~1) with (2 * Z.pos p + 1). replace (2 * Z.pos p + 1) with (1 + Z.pos p + Z.pos p) by lia.
  do 2 rewrite Z.pow_add_r by lia. reflexivity.
Qed.

Lemma pow2_xO p : 2 ^ Z.pos p~0 = 2 ^ Z.pos p * 2 ^ Z.pos p.
Proof.
  change (Z.pos p~0) with (2 * Z.pos p). replace (2 * Z.pos p) with (Z.pos p + Z.pos p) by lia.
  rewrite Z.pow_add_r by lia. reflexivity.
Qed.

Lemma iter_pos_shr_1_m p : forall mrs, 0 <= shr_m mrs ->
  shr_m (SpecFloat.iter_pos shr_1 p mrs) = shr_m mrs / 2 ^ Zpos p.
Proof.
  assert (Hpow : forall q, 0 < 2 ^ Z.pos q) by (intros q; apply Z.pow_pos_nonneg; lia).
  induction p; intros mrs Hm; simpl SpecFloat.iter_pos.
  - assert (H1 : 0 <= shr_m (shr_1 mrs)) by (rewrite shr_1_m by assumption; apply Z.div_pos; lia).
    assert (H2 : 0 <= shr_m (SpecFloat.iter_pos shr_1 p (shr_1 mrs))).
    { rewrite IHp by assumption. apply Z.div_pos; [assumption | apply Hpow]. }
    rewrite IHp by assumption. rewrite IHp by assumption. rewrite shr_1_m by assumption.
    pose proof (Hpow p).
    rewrite !Z.div_div by lia. rewrite pow2_xI. f_equal. lia.
  - assert (H2 : 0 <= shr_m (SpecFloat.iter_pos shr_1 p mrs)).
    { rewrite IHp by assumption. apply Z.div_pos; [assumption | apply Hpow]. }
    rewrite IHp by assumption. rewrite IHp by assumption.
    pose proof (Hpow p).
    rewrite !Z.div_div by lia. rewrite pow2_xO. reflexivity.
  - rewrite shr_1_m by assumption. reflexivity.
Qed.

Definition sf_signed (s : bool) (f : spec_float) : Prop :=
  match f with
  | S754_finite s' _ _ | S754_infinity s' => s' = s
  | _ => False
  end.

Lemma shr_record_of_loc_m m l : shr_m (shr_record_of_loc m l) = m.
Proof. destruct l as [|[| |]]; reflexivity. Qed.

Lemma shr_fexp_positive m e l :
  0 < m -> -1074 <= e ->
  0 < shr_m (fst (shr_fexp prec emax m e l)) /\ -1074 <= snd (shr_fexp prec emax m e l).
Proof.
  intros Hm He. unfold shr_fexp, shr.
  destruct m as [|p|p]; try lia. simpl Zdigits2.
  pose proof (digits2_pos_bounds p) as [Hlo _].
  set (d := Z.pos (digits2_pos p)) in *.
  assert (Hd : 0 < d) by (unfold d; lia).
  unfold fexp, SpecFloat.emin, prec, emax.
  destruct (Z.max (d + e - 53) (3 - 1024 - 53) - e) as [|q|q] eqn:En; simpl fst; simpl snd.
  - rewrite shr_record_of_loc_m. lia.
  - rewrite iter_pos_shr_1_m by (rewrite shr_record_of_loc_m; lia).
    rewrite shr_record_of_loc_m. split; [|lia].
    assert (Hq : Z.pos q <= d - 1) by lia.
    assert (Hpw : 2 ^ Z.pos q <= 2 ^ (d - 1)) by (apply Z.pow_le_mono_r; lia).
    assert (Hpos : 0 < 2 ^ Z.pos q) by (apply Z.pow_pos_nonneg; lia).
    apply Z.lt_le_trans with 1; [lia|].
    apply Z.div_le_lower_bound; lia.
  - rewrite shr_record_of_loc_m. lia.
Qed.

Lemma round_nearest_even_ge m l : m <= round_nearest_even m l.
Proof. destruct l as [|[| |]]; simpl; try lia. destruct (Z.even m); lia. Qed.

Lemma binary_round_aux_signed s m e l :
  0 < m -> -1074 <= e -> sf_signed s (binary_round_aux prec emax s m e l).
Proof.
  intros Hm He. unfold binary_round_aux.
  pose proof (shr_fexp_positive m e l Hm He) as [H1 H2].
  destruct (shr_fexp prec emax m e l) as [mrs' e']. simpl fst in H1; simpl snd in H2.
  pose proof (round_nearest_even_ge (shr_m mrs') (loc_of_shr_record mrs')) as Hr.
  set (m1 := round_nearest_even (shr_m mrs') (loc_of_shr_record mrs')) in *.
  assert (Hm1 : 0 < m1) by lia.
  pose proof (shr_fexp_positive m1 e' loc_Exact Hm1 H2) as [H3 H4].
  destruct (shr_fexp prec emax m1 e' loc_Exact) as [mrs'' e'']. simpl fst in H3; simpl snd in H4.
  destruct (shr_m mrs'') as [|p|p]; try lia.
  destruct (e'' <=? emax - prec); reflexivity.
Qed.

Lemma binary_round_signed s m e :
  -1074 <= e -> sf_signed s (binary_round prec emax s m e).
Proof.
  intros He. unfold binary_round.
  pose proof (shl_align_value m e (fexp prec emax (Z.pos (digits2_pos m) + e))) as [_ Hs].
  destruct (shl_align m e (fexp prec emax (Z.pos (digits2_pos m) + e))) as [mz ez].
  simpl snd in Hs. apply binary_round_aux_signed; [lia|].
  subst ez. unfold fexp, SpecFloat.emin, prec, emax. lia.
Qed.

Lemma binary_normalize_sign d e :
  -1074 <= e ->
  match Z.compare d 0 with
  | Lt => sf_signed true (binary_normalize prec emax d e false)
  | Eq => binary_normalize prec emax d e false = S754_zero false
  | Gt => sf_signed false (binary_normalize prec emax d e false)
  end.
Proof.
  intros He. destruct d; simpl; [reflexivity| |]; apply binary_round_signed; assumption.
Qed.

Lemma bounded_facts m e :
  bounded prec emax m e = true ->
  -1074 <= e /\ Z.pos (digits2_pos m) <= 53 /\ (e = -1074 \/ Z.pos (digits2_pos m) = 53).
Proof.
  unfold bounded, canonical_mantissa, fexp, SpecFloat.emin, prec, emax.
  intros H. apply andb_true_iff in H as [H _]. apply Z.eqb_eq in H. lia.
Qed.

(** The integer a finite float denotes once scaled to the exponent [ez]. *)
Definition scaled (s : bool) (m : positive) (e ez : Z) : Z :=
  cond_Zopp s (Z.pos (fst (shl_align m e ez))).

Lemma scaled_lt_of_exp_lt m1 e1 m2 e2 :
  bounded prec emax m1 e1 = true -> bounded prec emax m2 e2 = true ->
  e1 < e2 ->
  Z.pos (fst (shl_align m1 e1 (Z.min e1 e2))) < Z.pos (fst (shl_align m2 e2 (Z.min e1 e2))).
Proof.
  intros B1 B2 Hlt.
  apply bounded_facts in B1 as (He1 & Hd1 & _).
  apply bounded_facts in B2 as (He2 & Hd2 & Hc2).
  destruct (shl_align_value m1 e1 (Z.min e1 e2)) as [V1 _].
  destruct (shl_align_value m2 e2 (Z.min e1 e2)) as [V2 _].
  rewrite V1, V2.
  replace (Z.min e1 (Z.min e1 e2)) with e1 by lia.
  replace (Z.min e2 (Z.min e1 e2)) with e1 by lia.
  rewrite Z.sub_diag, Z.pow_0_r, Z.mul_1_r.
  pose proof (digits2_pos_bounds m1) as [_ Hhi1].
  pose proof (digits2_pos_bounds m2) as [Hlo2 _].
  assert (Hd2' : Z.pos (digits2_pos m2) = 53) by lia.
  rewrite Hd2' in Hlo2.
  assert (H53 : 2 ^ Z.pos (digits2_pos m1) <= 2 ^ 53) by (apply Z.pow_le_mono_r; lia).
  assert (Hk : 2 ^ 1 <= 2 ^ (e2 - e1)) by (apply Z.pow_le_mono_r; lia).
  change (2 ^ 1) with 2 in Hk. change (2 ^ (53 - 1)) with 4503599627370496 in Hlo2.
  change (2 ^ 53) with 9007199254740992 in H53.
  nia.
Qed.

Lemma SFcompare_finite_scaled s1 m1 e1 s2 m2 e2 :
  bounded prec emax m1 e1 = true -> bounded prec emax m2 e2 = true ->
  SFcompare (S754_finite s1 m1 e1) (S754_finite s2 m2 e2)
  = Some (Z.compare (scaled s1 m1 e1 (Z.min e1 e2)) (scaled s2 m2 e2 (Z.min e1 e2))).
Proof.
  intros B1 B2. unfold scaled. simpl SFcompare. f_equal.
  assert (Heq : e1 = e2 ->
            Z.pos (fst (shl_align m1 e1 (Z.min e1 e2))) = Z.pos m1
            /\ Z.pos (fst (shl_align m2 e2 (Z.min e1 e2))) = Z.pos m2).
  { intros ->. rewrite Z.min_id.
    destruct (shl_align_value m1 e2 e2) as [V1 _]. destruct (shl_align_value m2 e2 e2) as [V2 _].
    rewrite V1, V2, Z.min_id, Z.sub_diag. simpl. lia. }
  assert (Hlt : e1 < e2 -> Z.pos (fst (shl_align m1 e1 (Z.min e1 e2))) < Z.pos (fst (shl_align m2 e2 (Z.min e1 e2))))
    by (apply scaled_lt_of_exp_lt; assumption).
  assert (Hgt : e2 < e1 -> Z.pos (fst (shl_align m2 e2 (Z.min e1 e2))) < Z.pos (fst (shl_align m1 e1 (Z.min e1 e2)))).
  { intros H. rewrite Z.min_comm. apply scaled_lt_of_exp_lt; assumption. }
  set (M1 := Z.pos (fst (shl_align m1 e1 (Z.min e1 e2)))) in *.
  set (M2 := Z.pos (fst (shl_align m2 e2 (Z.min e1 e2)))) in *.
  assert (P1 : 0 < M1) by (unfold M1; lia).
  assert (P2 : 0 < M2) by (unfold M2; lia).
  clearbody M1 M2.
  destruct s1, s2; simpl cond_Zopp.
  - destruct (Z.compare_spec e1 e2) as [E|E|E].
    + destruct (Heq E) as [E1 E2]. rewrite E1, E2. reflexivity.
    + symmetry. apply Z.compare_gt_iff. specialize (Hlt E). lia.
    + symmetry. apply Z.compare_lt_iff. specialize (Hgt E). lia.
  - symmetry. apply Z.compare_lt_iff. lia.
  - symmetry. apply Z.compare_gt_iff. lia.
  - destruct (Z.compare_spec e1 e2) as [E|E|E].
    + destruct (Heq E) as [E1 E2]. rewrite E1, E2. reflexivity.
    + symmetry. apply Z.compare_lt_iff. auto.
    + symmetry. apply Z.compare_gt_iff. auto.
Qed.

Lemma SF64sub_positive_iff x y :
  valid_binary x = true -> valid_binary y = true ->
  SFltb (S754_zero false) (SF64sub x y) = SFltb y x.
Proof.
  intros Vx Vy. unfold SF64sub.
  destruct x as [sx|sx| |sx mx ex], y as [sy|sy| |sy my ey];
    try reflexivity;
    try (destruct sx; reflexivity);
    try (destruct sy; reflexivity);
    try (destruct sx, sy; reflexivity).
  simpl in Vx, Vy. unfold SFltb at 2. rewrite (SFcompare_finite_scaled _ _ _ _ _ _ Vy Vx).
  unfold SFsub.
  apply bounded_facts in Vx as (Hex & _). apply bounded_facts in Vy as (Hey & _).
  fold (scaled sx mx ex (Z.min ex ey)). fold (scaled sy my ey (Z.min ex ey)).
  rewrite (Z.min_comm ey ex).
  set (vx := scaled sx mx ex (Z.min ex ey)). set (vy := scaled sy my ey (Z.min ex ey)).
  pose proof (binary_normalize_sign (vx - vy) (Z.min ex ey) ltac:(lia)) as Hn.
  destruct (Z.compare_spec (vx - vy) 0) as [E|E|E].
  - rewrite Hn. replace (vy ?= vx) with Eq by (symmetry; apply Z.compare_eq_iff; lia). reflexivity.
  - replace (vy ?= vx) with Gt by (symmetry; apply Z.compare_gt_iff; lia).
    destruct (binary_normalize prec emax (vx - vy) (Z.min ex ey) false) as [| | |s m e]; simpl in Hn; try contradiction; subst; reflexivity.
  - replace (vy ?= vx) with Lt by (symmetry; apply Z.compare_lt_iff; lia).
    destruct (binary_normalize prec emax (vx - vy) (Z.min ex ey) false) as [| | |s m e]; simpl in Hn; try contradiction; subst; reflexivity.
Qed.

Lemma sub_positive_iff (x y : float) : (0 <? x - y)%float = (y <? x)%float.
Proof.
  rewrite !FloatAxioms.ltb_spec, FloatAxioms.sub_spec. change (Prim2SF 0%float) with (S754_zero false).
  apply SF64sub_positive_iff; apply Prim2SF_valid.
Qed.

Lemma SFcompare_antisym x y : SFcompare y x = option_map CompOpp (SFcompare x y).
Proof.
  destruct x as [sx|sx| |sx mx ex], y as [sy|sy| |sy my ey]; simpl;
    try reflexivity; try (destruct sx; reflexivity); try (destruct sy; reflexivity);
    try (destruct sx, sy; reflexivity).
  f_equal. change (Pos.compare_cont Eq my mx) with (Pos.compare my mx).
  change (Pos.compare_cont Eq mx my) with (Pos.compare mx my).
  rewrite (Z.compare_antisym ex ey), (Pos.compare_antisym mx my).
  destruct sx, sy; try reflexivity; destruct (ex ?= ey); simpl; try reflexivity.
Qed.

Ltac order_cases :=
  repeat match goal with
  | H : context [Z.compare ?a ?b] |- _ => destruct (Z.compare_spec a b); simpl in H
  | |- context [Z.compare ?a ?b] => destruct (Z.compare_spec a b); simpl
  | H : context [Pos.compare_cont Eq ?a ?b] |- _ =>
      change (Pos.compare_cont Eq a b) with (Pos.compare a b) in H
  | |- context [Pos.compare_cont Eq ?a ?b] =>
      change (Pos.compare_cont Eq a b) with (Pos.compare a b)
  | H : context [Pos.compare ?a ?b] |- _ => destruct (Pos.compare_spec a b); simpl in H
  | |- context [Pos.compare ?a ?b] => destruct (Pos.compare_spec a b); simpl
  end.

Lemma SFleb_trans x y z : SFleb x y = true -> SFleb y z = true -> SFleb x z = true.
Proof.
  unfold SFleb.
  destruct x as [sx|sx| |sx mx ex], y as [sy|sy| |sy my ey], z as [sz|sz| |sz mz ez]; simpl;
    try discriminate; try reflexivity;
    try (destruct sx; simpl; (discriminate || reflexivity));
    try (destruct sy; simpl; (discriminate || reflexivity));
    try (destruct sz; simpl; (discriminate || reflexivity));
    try (destruct sx, sy; simpl; (discriminate || reflexivity));
    try (destruct sx, sz; simpl; (discriminate || reflexivity));
    try (destruct sy, sz; simpl; (discriminate || reflexivity));
    try (destruct sx, sy, sz; simpl; (discriminate || reflexivity)).
  all: destruct sx, sy, sz; simpl; try discriminate; try reflexivity; intros H1 H2;
    order_cases; try discriminate; try reflexivity; subst; try lia.
Qed.

Lemma SFcompare_Eq_trans x y v :
  SFcompare x v = Some Eq -> SFcompare y v = Some Eq -> SFcompare x y = Some Eq.
Proof.
  destruct x as [sx|sx| |sx mx ex], y as [sy|sy| |sy my ey], v as [sv|sv| |sv mv ev]; simpl;
    try discriminate; try reflexivity;
    try (destruct sx; simpl; (discriminate || reflexivity));
    try (destruct sy; simpl; (discriminate || reflexivity));
    try (destruct sv; simpl; (discriminate || reflexivity));
    try (destruct sx, sv; simpl; (discriminate || reflexivity));
    try (destruct sy, sv; simpl; (discriminate || reflexivity));
    try (destruct sx, sy, sv; simpl; (discriminate || reflexivity)).
  all: destruct sx, sy, sv; simpl; try discriminate; intros H1 H2;
    order_cases; try discriminate; try reflexivity; subst; try lia.
Qed.

Definition is_number (x : float) : Prop := Prim2SF x <> S754_nan.

Lemma leb_is_number_r x y : (x <=? y)%float = true -> is_number y.
Proof.
  rewrite FloatAxioms.leb_spec. unfold SFleb, is_number. intros H E. rewrite E in H.
  destruct (Prim2SF x); discriminate.
Qed.

Lemma ltb_false_leb x y :
  is_number x -> is_number y -> (x <? y)%float = false -> (y <=? x)%float = true.
Proof.
  unfold is_number. rewrite FloatAxioms.ltb_spec, FloatAxioms.leb_spec. unfold SFltb, SFleb.
  rewrite (SFcompare_antisym (Prim2SF x) (Prim2SF y)).
  intros Hx Hy.
  destruct (SFcompare (Prim2SF x) (Prim2SF y)) as [[| |]|] eqn:E; simpl; try congruence.
  destruct (Prim2SF x), (Prim2SF y); simpl in E; congruence.
Qed.

Lemma ltb_true_leb x y : (x <? y)%float = true -> (x <=? y)%float = true.
Proof.
  rewrite FloatAxioms.ltb_spec, FloatAxioms.leb_spec. unfold SFltb, SFleb.
  destruct (SFcompare (Prim2SF x) (Prim2SF y)) as [[| |]|]; congruence.
Qed.

Lemma leb_trans x y z :
  (x <=? y)%float = true -> (y <=? z)%float = true -> (x <=? z)%float = true.
Proof. rewrite !FloatAxioms.leb_spec. apply SFleb_trans. Qed.

Lemma eqb_eqb_not_ltb x y v :
  (x =? v)%float = true -> (y =? v)%float = true -> (x <? y)%float = false.
Proof.
  rewrite !FloatAxioms.eqb_spec, FloatAxioms.ltb_spec. unfold SFeqb, SFltb. intros H1 H2.
  rewrite (SFcompare_Eq_trans (Prim2SF x) (Prim2SF y) (Prim2SF v)); [reflexivity| |].
  - destruct (SFcompare (Prim2SF x) (Prim2SF v)) as [[| |]|]; congruence.
  - destruct (SFcompare (Prim2SF y) (Prim2SF v)) as [[| |]|]; congruence.
Qed.

End FloatFacts.

(** ** [Array.prototype.sort] *)

Section SortFacts.
Context {A : Type} (after : A -> A -> bool).

Lemma sort_insert_Permutation x l : Permutation (JS.sort_insert after x l) (x :: l).
Proof.
  induction l as [|y l IH]; simpl; [reflexivity|].
  destruct (after x y); [|reflexivity].
  rewrite IH. apply perm_swap.
Qed.

Lemma Array_sort_Permutation l : Permutation (JS.Array_sort after l) l.
Proof.
  induction l as [|x l IH]; simpl; [reflexivity|].
  rewrite sort_insert_Permutation. apply perm_skip, IH.
Qed.

Lemma Array_sort_length l : length (JS.Array_sort after l) = length l.
Proof. apply Permutation_length, Array_sort_Permutation. Qed.

(** A list none of whose elements belongs after another stays as it
    is. *)
Lemma Array_sort_fixed l :
  (forall x y, In x l -> In y l -> after x y = false) -> JS.Array_sort after l = l.
Proof.
  induction l as [|x l IH]; intros H; [reflexivity|].
  simpl JS.Array_sort. rewrite IH by (intros a b Ha Hb; apply H; right; assumption).
  destruct l as [|y l]; [reflexivity|].
  simpl. rewrite (H x y) by (simpl; auto). reflexivity.
Qed.

(** Stability: elements none of which belongs after another keep their
    order. *)
Section Stable.
Variable same : A -> bool.
Hypothesis ties : forall x y, same x = true -> same y = true -> after x y = false.

Lemma sort_insert_filter x l :
  List.filter same (JS.sort_insert after x l) = List.filter same (x :: l).
Proof.
  induction l as [|y l IH]; [reflexivity|].
  simpl JS.sort_insert. destruct (after x y) eqn:Hxy; [|reflexivity].
  simpl in *. rewrite IH.
  destruct (same x) eqn:Hx, (same y) eqn:Hy; try reflexivity.
  rewrite (ties x y Hx Hy) in Hxy. discriminate.
Qed.

Lemma Array_sort_filter l :
  List.filter same (JS.Array_sort after l) = List.filter same l.
Proof.
  induction l as [|x l IH]; [reflexivity|].
  simpl JS.Array_sort. rewrite sort_insert_filter. simpl. rewrite IH. reflexivity.
Qed.

End Stable.

(** Order: on a domain [P] where the comparator agrees with a relation
    [R], the result is sorted by [R]. *)
Section Ordered.
Variable P : A -> Prop.
Variable R : A -> A -> Prop.
Hypothesis stays : forall x y, P x -> P y -> after x y = false -> R x y.
Hypothesis passes : forall x y, P x -> P y -> after x y = true -> R y x.

Lemma sort_insert_HdRel x y l :
  P x -> P y -> Forall P l -> R y x -> HdRel R y l -> HdRel R y (JS.sort_insert after x l).
Proof.
  intros Px Py Pl Ryx Hd. destruct l as [|z l]; simpl; [constructor; assumption|].
  inversion Hd; subst. destruct (after x z); constructor; assumption.
Qed.

Lemma sort_insert_Sorted x l :
  P x -> Forall P l -> Sorted R l -> Sorted R (JS.sort_insert after x l).
Proof.
  intros Px Pl Hs. induction l as [|y l IH]; simpl.
  - repeat constructor.
  - inversion Pl; subst. inversion Hs; subst.
    destruct (after x y) eqn:Hxy.
    + constructor; [apply IH; assumption|].
      apply sort_insert_HdRel; auto.
    + constructor; [assumption|]. constructor. apply stays; assumption.
Qed.

Lemma Array_sort_Sorted l : Forall P l -> Sorted R (JS.Array_sort after l).
Proof.
  induction l as [|x l IH]; intros Pl; simpl; [constructor|].
  inversion Pl; subst. apply sort_insert_Sorted; auto.
  eapply Permutation_Forall; [symmetry; apply Array_sort_Permutation|assumption].
Qed.

End Ordered.
End SortFacts.

(** ** Vector similarity *)

Section SimilarityFacts.
Import Similarity.

(** The norm of a vector, as the loop of [cosineSimilarity] computes
    it. *)
Definition norm (v : vector) : JS.number :=
  PrimFloat.sqrt (fold_left (fun acc x => (acc + x * x)%float) v 0%float).

Lemma sums_norms (a b : vector) (acc : Sums) :
  length a = length b ->
  normA (fold_left sums_step (combine a b) acc)
    = fold_left (fun s x => (s + x * x)%float) a (normA acc)
  /\ normB (fold_left sums_step (combine a b) acc)
    = fold_left (fun s x => (s + x * x)%float) b (normB acc).
Proof.
  revert b acc. induction a as [|x a IH]; intros [|y b] acc Hlen; simpl in *;
    try discriminate; [split; reflexivity|].
  apply (IH b (sums_step acc (x, y))). congruence.
Qed.

Lemma cosine_exit_same_length (a b : vector) :
  length a = length b ->
  cosine_exit (Some a) (Some b)
  = if (JS.strict_eq (norm a) 0%float || JS.strict_eq (norm b) 0%float)%bool
    then ExitZeroNorm
    else ExitDivide (dotProduct (sums a b)) (norm a) (norm b).
Proof.
  intros Hlen. unfold cosine_exit, norm.
  rewrite Hlen, Nat.eqb_refl. simpl negb. cbv iota.
  destruct (sums_norms a b {| dotProduct := 0%float; normA := 0%float; normB := 0%float |} Hlen)
    as [HA HB].
  unfold sums. rewrite HA, HB. reflexivity.
Qed.

(** A number equal to zero is one of the two zeros. *)
Lemma strict_eq_zero (x : JS.number) :
  JS.strict_eq x 0%float = true -> x = 0%float \/ x = (-0)%float.
Proof.
  unfold JS.strict_eq. rewrite FloatAxioms.eqb_spec.
  change (Prim2SF 0%float) with (S754_zero false).
  destruct (Prim2SF x) as [s| | |s m e] eqn:E; simpl; try discriminate.
  - intros _. destruct s; [right|left]; apply Prim2SF_inj; rewrite E; reflexivity.
  - destruct s; discriminate.
  - destruct s; discriminate.
Qed.

(** A vector of zeros has norm zero. *)
Lemma norm_of_zeros (v : vector) :
  Forall (fun x => JS.strict_eq x 0%float = true) v -> norm v = 0%float.
Proof.
  unfold norm. intros Hv.
  assert (H : fold_left (fun acc x => (acc + x * x)%float) v 0%float = 0%float).
  { induction Hv as [|x v Hx _ IH]; [reflexivity|].
    simpl. destruct (strict_eq_zero x Hx) as [-> | ->]; exact IH. }
  rewrite H. reflexivity.
Qed.

(** C7. [cosineSimilarity] is a function from any two arguments to a
    number: nothing is thrown. When a vector is missing, when the
    lengths differ, or when a norm is zero, it leaves by one of its two
    guards with exactly 0, and the division is not reached; when the
    division is reached, both norms are different from zero. *)
Theorem cosineSimilarity_fails_soft (vecA vecB : option vector) :
  (vecA = None \/ vecB = None
   \/ (exists a b, vecA = Some a /\ vecB = Some b
         /\ (length a <> length b
             \/ JS.strict_eq (norm a) 0%float = true
             \/ JS.strict_eq (norm b) 0%float = true))
   -> cosineSimilarity vecA vecB = 0%float
      /\ (cosine_exit vecA vecB = ExitInvalid \/ cosine_exit vecA vecB = ExitZeroNorm))
  /\ (forall dot nA nB,
        cosine_exit vecA vecB = ExitDivide dot nA nB ->
        JS.strict_eq nA 0%float = false /\ JS.strict_eq nB 0%float = false
        /\ cosineSimilarity vecA vecB = (dot / (nA * nB))%float).
Proof.
  split.
  - intros H.
    assert (E : cosine_exit vecA vecB = ExitInvalid \/ cosine_exit vecA vecB = ExitZeroNorm).
    { destruct H as [-> | [-> | (a & b & -> & -> & H)]].
      - left. reflexivity.
      - left. destruct vecA; reflexivity.
      - destruct (Nat.eq_dec (length a) (length b)) as [Hlen|Hlen].
        + right. rewrite (cosine_exit_same_length a b Hlen).
          destruct H as [H | [H | H]]; [contradiction| |]; rewrite H;
            [|rewrite orb_true_r]; reflexivity.
        + left. unfold cosine_exit.
          apply Nat.eqb_neq in Hlen. rewrite Hlen. reflexivity. }
    split; [|exact E].
    unfold cosineSimilarity. destruct E as [-> | ->]; reflexivity.
  - intros dot nA nB E. unfold cosineSimilarity. rewrite E.
    unfold cosine_exit in E.
    destruct vecA as [a|], vecB as [b|]; try discriminate.
    destruct (negb (length a =? length b)); [discriminate|].
    destruct (JS.strict_eq (PrimFloat.sqrt (normA (sums a b))) 0%float
              || JS.strict_eq (PrimFloat.sqrt (normB (sums a b))) 0%float)%bool eqn:Hz;
      [discriminate|].
    injection E as <- <- <-. apply orb_false_iff in Hz. tauto.
Qed.

(** At vectors of different lengths the first guard answers. *)
Lemma cosineSimilarity_fails_soft_witness :
  cosineSimilarity (Some [1; 2]%float) (Some [1]%float) = 0%float
  /\ (cosine_exit (Some [1; 2]%float) (Some [1]%float) = ExitInvalid
      \/ cosine_exit (Some [1; 2]%float) (Some [1]%float) = ExitZeroNorm).
Proof.
  apply (proj1 (cosineSimilarity_fails_soft (Some [1; 2]%float) (Some [1]%float))).
  right. right. exists [1; 2]%float, [1]%float.
  split; [reflexivity|]. split; [reflexivity|]. left. simpl. lia.
Defined.

End SimilarityFacts.

(** ** Top-K retrieval *)

Section TopKFacts.
Import Similarity.

(** The candidates of a retrieval: the memories that have a non-empty
    embedding, scored against the query, those at or above the
    threshold, in the order of the store. *)
Definition candidates (queryEmbedding : option vector) (memories : option (list MemoryRecord))
    (threshold : JS.number) : list Scored :=
  match queryEmbedding, memories with
  | Some q, Some ms =>
      List.filter (fun item => JS.ge (similarity item) threshold)
        (List.map (score q) (List.filter has_embedding ms))
  | _, _ => []
  end.

(** Non-increasing similarity. *)
Definition at_least (a b : Scored) : Prop := JS.ge (similarity a) (similarity b) = true.

(** The items whose similarity equals [v]. *)
Definition tied_with (v : JS.number) (item : Scored) : bool := JS.strict_eq (similarity item) v.

(** A memory with the score 0. *)
Definition scored_zero (m : MemoryRecord) : Scored := {| memory := m; similarity := 0%float |}.

Lemma findTopKSimilar_candidates q ms k t :
  findTopKSimilar q ms k t
  = firstn k (JS.Array_sort by_similarity_desc (candidates q ms t)).
Proof.
  unfold findTopKSimilar, candidates, JS.Array_slice0.
  destruct q as [q|], ms as [[|m ms]|]; try reflexivity; destruct k; reflexivity.
Qed.

Lemma by_similarity_desc_ltb a b :
  by_similarity_desc a b = (similarity a <? similarity b)%float.
Proof. unfold by_similarity_desc, JS.gt. apply sub_positive_iff. Qed.

Lemma candidates_spec q ms t item :
  In item (candidates q ms t) ->
  exists qv l, q = Some qv /\ ms = Some l /\ In (memory item) l
    /\ has_embedding (memory item) = true
    /\ similarity item = cosineSimilarity (Some qv) (embedding_numbers (memory item))
    /\ JS.ge (similarity item) t = true.
Proof.
  unfold candidates. destruct q as [qv|], ms as [l|]; try contradiction.
  intros H. apply filter_In in H as [H Ht]. apply in_map_iff in H as (m & <- & Hm).
  apply filter_In in Hm as [Hm He].
  exists qv, l. repeat split; assumption.
Qed.

Lemma candidates_numbers q ms t :
  Forall (fun item => is_number (similarity item)) (candidates q ms t).
Proof.
  apply List.Forall_forall. intros item H.
  apply candidates_spec in H as (_ & _ & _ & _ & _ & _ & _ & Ht).
  unfold JS.ge in Ht. eapply leb_is_number_r, Ht.
Qed.

#[local] Instance at_least_Transitive : Transitive at_least.
Proof. intros a b c Hab Hbc. unfold at_least, JS.ge in *. eapply leb_trans; eassumption. Qed.

Lemma sorted_candidates q ms t :
  StronglySorted at_least (JS.Array_sort by_similarity_desc (candidates q ms t)).
Proof.
  apply Sorted_StronglySorted; [exact at_least_Transitive|].
  apply (Array_sort_Sorted by_similarity_desc (fun item => is_number (similarity item))).
  - intros x y Px Py H. rewrite by_similarity_desc_ltb in H.
    unfold at_least, JS.ge. apply ltb_false_leb; assumption.
  - intros x y _ _ H. rewrite by_similarity_desc_ltb in H.
    unfold at_least, JS.ge. apply ltb_true_leb; assumption.
  - apply candidates_numbers.
Qed.

(** Against an empty query every memory that has an embedding scores
    0: the lengths differ. *)
Lemma score_empty_query m : has_embedding m = true -> score [] m = scored_zero m.
Proof.
  unfold has_embedding, score, scored_zero, embedding_numbers. intros He.
  destruct (embedding m) as [[|x e]|]; try discriminate. reflexivity.
Qed.

Lemma scored_empty_query l :
  List.map (score []) (List.filter has_embedding l)
  = List.map scored_zero (List.filter has_embedding l).
Proof.
  apply map_ext_in. intros m Hm. apply filter_In in Hm as [_ Hm].
  apply score_empty_query. exact Hm.
Qed.

Lemma candidates_empty_query l t :
  candidates (Some []) (Some l) t
  = if JS.ge 0%float t then List.map scored_zero (List.filter has_embedding l) else [].
Proof.
  unfold candidates. rewrite scored_empty_query.
  induction (List.filter has_embedding l) as [|m l' IH]; [destruct (JS.ge 0%float t); reflexivity|].
  cbn [List.map List.filter scored_zero similarity]. rewrite IH.
  destruct (JS.ge 0%float t); reflexivity.
Qed.

(** C1, amended. [findTopKSimilar] returns candidates only: memories of
    the collection with a non-empty embedding, each with its cosine
    similarity to the query, which is at or above the threshold. The
    result is the beginning of the candidates arranged by non-increasing
    similarity, those of equal similarity in the order of the
    collection: followed by the candidates left out it is that
    arrangement, so that no candidate left out scores above one that is
    returned, and their number is the smaller of [topK] and the number
    of candidates. The result is empty when the query or the collection
    is missing or the collection is empty. For an empty query (an array
    of length 0) every memory that has an embedding scores 0: the result
    is empty when 0 is below the threshold, and otherwise it is the
    first [topK] of these memories, in the order of the collection. *)
Theorem findTopKSimilar_spec (queryEmbedding : option vector)
    (memories : option (list MemoryRecord)) (topK : nat) (threshold : JS.number) :
  let out := findTopKSimilar queryEmbedding memories topK threshold in
  Forall (fun item =>
            exists q ms, queryEmbedding = Some q /\ memories = Some ms
              /\ In (memory item) ms
              /\ has_embedding (memory item) = true
              /\ similarity item
                 = cosineSimilarity (Some q) (embedding_numbers (memory item))
              /\ JS.ge (similarity item) threshold = true) out
  /\ (exists dropped,
        Permutation (out ++ dropped) (candidates queryEmbedding memories threshold)
        /\ StronglySorted at_least (out ++ dropped)
        /\ (forall v,
              List.filter (tied_with v) (out ++ dropped)
              = List.filter (tied_with v) (candidates queryEmbedding memories threshold)))
  /\ StronglySorted at_least out
  /\ length out = Nat.min topK (length (candidates queryEmbedding memories threshold))
  /\ (queryEmbedding = None \/ memories = None \/ memories = Some [] -> out = [])
  /\ (forall ms, queryEmbedding = Some [] -> memories = Some ms ->
        out = if JS.ge 0%float threshold
              then firstn topK (List.map scored_zero (List.filter has_embedding ms))
              else []).
Proof.
  intros out. subst out. rewrite findTopKSimilar_candidates.
  set (c := candidates queryEmbedding memories threshold).
  set (sorted := JS.Array_sort by_similarity_desc c).
  assert (Hsplit : firstn topK sorted ++ skipn topK sorted = sorted) by apply firstn_skipn.
  split; [|split; [|split; [|split; [|split]]]].
  - apply List.Forall_forall. intros item Hin. apply (candidates_spec _ _ _ item). fold c.
    eapply Permutation_in; [apply (Array_sort_Permutation by_similarity_desc)|].
    fold sorted. rewrite <- Hsplit. apply in_or_app. left. exact Hin.
  - exists (skipn topK sorted). rewrite Hsplit. split; [|split].
    + apply Array_sort_Permutation.
    + apply sorted_candidates.
    + intros v. unfold sorted.
      apply Array_sort_filter. intros x y Hx Hy. rewrite by_similarity_desc_ltb.
      eapply eqb_eqb_not_ltb; [exact Hx | exact Hy].
  - apply (StronglySorted_app_1_l _ _ (skipn topK sorted)). rewrite Hsplit.
    apply sorted_candidates.
  - rewrite length_firstn. unfold sorted. rewrite Array_sort_length. reflexivity.
  - intros H. assert (Hc : c = []).
    { unfold c, candidates. destruct H as [-> | [-> | ->]];
        [reflexivity | destruct queryEmbedding; reflexivity | destruct queryEmbedding; reflexivity]. }
    unfold sorted. rewrite Hc. destruct topK; reflexivity.
  - intros ms -> ->. unfold sorted, c. rewrite candidates_empty_query.
    destruct (JS.ge 0%float threshold); [|destruct topK; reflexivity].
    f_equal. apply Array_sort_fixed. intros x y Hx Hy.
    apply in_map_iff in Hx as (mx & <- & _). apply in_map_iff in Hy as (my & <- & _).
    rewrite by_similarity_desc_ltb. reflexivity.
Qed.

Definition example_memory (name : string) (e : option vector) : MemoryRecord :=
  {| id := name; timestamp := 0%Z; original_message := name; summary := name;
     embedding := option_map (List.map JS.Num) e;
     metadata := {| role := "user"; chat_id := None; importance := JS.Num 0.5%float;
                    chatId := None |} |}.

(** Three memories scoring 0.6, 1 and 0.6 against the query, of which
    two are asked for: the one scoring 1 comes first, then the first of
    the two that score 0.6, and the other is left out. *)
Lemma findTopKSimilar_spec_witness :
  List.map (fun item => id (memory item))
    (findTopKSimilar (Some [1; 0]%float)
       (Some [example_memory "a" (Some [3; 4]%float);
              example_memory "b" (Some [2; 0]%float);
              example_memory "c" (Some [6; 8]%float)]) 2 0.5%float)
  = ["b"; "a"]
  /\ exists dropped,
       Permutation
         (findTopKSimilar (Some [1; 0]%float)
            (Some [example_memory "a" (Some [3; 4]%float);
                   example_memory "b" (Some [2; 0]%float);
                   example_memory "c" (Some [6; 8]%float)]) 2 0.5%float ++ dropped)
         (candidates (Some [1; 0]%float)
            (Some [example_memory "a" (Some [3; 4]%float);
                   example_memory "b" (Some [2; 0]%float);
                   example_memory "c" (Some [6; 8]%float)]) 0.5%float)
       /\ StronglySorted at_least
            (findTopKSimilar (Some [1; 0]%float)
               (Some [example_memory "a" (Some [3; 4]%float);
                      example_memory "b" (Some [2; 0]%float);
                      example_memory "c" (Some [6; 8]%float)]) 2 0.5%float ++ dropped).
Proof.
  split; [vm_compute; reflexivity|].
  destruct (findTopKSimilar_spec (Some [1; 0]%float)
              (Some [example_memory "a" (Some [3; 4]%float);
                     example_memory "b" (Some [2; 0]%float);
                     example_memory "c" (Some [6; 8]%float)]) 2 0.5%float)
    as (_ & (dropped & Hperm & Hsorted & _) & _).
  exists dropped. split; assumption.
Defined.

(** C1 as stated fails: with the threshold 0 an empty query retrieves
    every memory that has an embedding, each with similarity 0. *)
Lemma findTopKSimilar_empty_query_not_empty :
  findTopKSimilar (Some []) (Some [example_memory "a" (Some [1; 0]%float)]) 5 0%float
  = [ {| memory := example_memory "a" (Some [1; 0]%float); similarity := 0%float |} ].
Proof. reflexivity. Qed.

End TopKFacts.

(** ** The monad *)

Section MonadFacts.
Import Runtime.
Context {A B : Type}.

Lemma bind_Return (c : Js A) (k : A -> Js B) w a w' :
  c w = (Return a, w') -> bind c k w = k a w'.
Proof. intros E. unfold bind. rewrite E. reflexivity. Qed.

Lemma bind_Throw (c : Js A) (k : A -> Js B) w e w' :
  c w = (Throw e, w') -> bind c k w = (Throw e, w').
Proof. intros E. unfold bind. rewrite E. reflexivity. Qed.

Lemma try_catch_Return (c : Js A) (h : JsError -> Js A) w a w' :
  c w = (Return a, w') -> try_catch c h w = (Return a, w').
Proof. intros E. unfold try_catch. rewrite E. reflexivity. Qed.

Lemma try_catch_Throw (c : Js A) (h : JsError -> Js A) w e w' :
  c w = (Throw e, w') -> try_catch c h w = h e w'.
Proof. intros E. unfold try_catch. rewrite E. reflexivity. Qed.

End MonadFacts.

(** A relation between the world before and after that every step of a
    call respects is respected by the call. *)
Section Preserves.
Import Runtime.
Variable R : World -> World -> Prop.
Context `{!PreOrder R}.

Definition preserves {A} (c : Js A) : Prop := forall w, R w (snd (c w)).

Lemma preserves_ret {A} (a : A) : preserves (ret a).
Proof. intros w. reflexivity. Qed.

Lemma preserves_throw {A} e : preserves (@throw A e).
Proof. intros w. reflexivity. Qed.

Lemma preserves_bind {A B} (c : Js A) (k : A -> Js B) :
  preserves c -> (forall a, preserves (k a)) -> preserves (bind c k).
Proof.
  intros Hc Hk w. unfold bind. specialize (Hc w).
  destruct (c w) as [[a|e] w']; simpl in *; [|exact Hc].
  etransitivity; [exact Hc | apply Hk].
Qed.

Lemma preserves_try_catch {A} (c : Js A) (h : JsError -> Js A) :
  preserves c -> (forall e, preserves (h e)) -> preserves (try_catch c h).
Proof.
  intros Hc Hh w. unfold try_catch. specialize (Hc w).
  destruct (c w) as [[a|e] w']; simpl in *; [exact Hc|].
  etransitivity; [exact Hc | apply Hh].
Qed.

Lemma preserves_get_world : preserves get_world.
Proof. intros w. reflexivity. Qed.


Lemma preserves_when b (c : Js unit) : preserves c -> preserves (when b c).
Proof. intros H. destruct b; [exact H | apply preserves_ret]. Qed.

End Preserves.

(** ** The store *)

Section TraceVocabulary.
Import Runtime.

(** The stages of the write path, as they show in the trace: the
    request to the summarizer, the request to the embedding service and
    the write to [localStorage]. *)
Inductive Stage := StageSummarize | StageEmbed | StageStore.

Definition stage_of (e : Event) : option Stage :=
  match e with
  | EvSummarizeRequest _ _ _ => Some StageSummarize
  | EvEmbedRequest _ _ => Some StageEmbed
  | EvSetItem _ => Some StageStore
  | _ => None
  end.

Definition stages (events : list Event) : list Stage := omap stage_of events.

(** The notifications shown to the user. *)
Definition toast_of (e : Event) : option ToastLevel :=
  match e with
  | EvToast level _ => Some level
  | _ => None
  end.

Definition toasts (events : list Event) : list ToastLevel := omap toast_of events.

(** The trace grew by [events]. *)
Definition emitted (w w' : World) (events : list Event) : Prop :=
  trace w' = trace w ++ events.

(** The trace grew by events that are neither a stage nor a
    notification. *)
Definition quiet (w w' : World) : Prop :=
  exists events, emitted w w' events /\ stages events = [] /\ toasts events = [].

Lemma emitted_refl w : emitted w w [].
Proof. unfold emitted. symmetry. apply app_nil_r. Qed.

Lemma emitted_trans w1 w2 w3 evs evs' :
  emitted w1 w2 evs -> emitted w2 w3 evs' -> emitted w1 w3 (evs ++ evs').
Proof. unfold emitted. intros H1 H2. rewrite H2, H1, app_assoc. reflexivity. Qed.

Lemma stages_app evs evs' : stages (evs ++ evs') = stages evs ++ stages evs'.
Proof. apply omap_app. Qed.

Lemma toasts_app evs evs' : toasts (evs ++ evs') = toasts evs ++ toasts evs'.
Proof. apply omap_app. Qed.

End TraceVocabulary.

Ltac emitted_now :=
  unfold emitted; cbn;
  first [ reflexivity
        | symmetry; apply app_nil_r
        | rewrite <- ?app_assoc; reflexivity ].

Ltac quiet_now :=
  eexists; split; [emitted_now | split; reflexivity].

Section StorageFacts.
Import Runtime Storage.

(** The memories held in the cache for a character. *)
Definition stored (characterId : string) (w : World) : list MemoryRecord :=
  match cache w !! characterId with
  | Some data => memories data
  | None => []
  end.

(** What [loadMemories] puts in the cache on a miss: the data of the
    character's file, or a new store without memories. *)
Definition loaded_from (e : Env) (characterId : string) (data : StoreData) : Prop :=
  memories data = []
  \/ exists n r, file_server e n (getFilePath characterId) = Resolved r
                 /\ resp_json r = Some data.

(** The rest of the page: what no function of the storage, of the
    summarizer or of the embedding client assigns. *)
Definition same_page (w w' : World) : Prop :=
  isProcessing w' = isProcessing w /\ settings w' = settings w
  /\ summarizerClient w' = summarizerClient w /\ voyageClient w' = voyageClient w
  /\ host w' = host w /\ env w' = env w.

Lemma loadMemories_run characterId characterName w :
  exists data w',
    loadMemories characterId characterName w = (Return data, w')
    /\ cache w' = <[characterId := data]> (cache w)
    /\ localStorage w' = localStorage w
    /\ same_page w w'
    /\ quiet w w'
    /\ (forall d, cache w !! characterId = Some d -> data = d /\ w' = w)
    /\ (cache w !! characterId = None -> loaded_from (env w) characterId data).
Proof.
  unfold loadMemories, bind at 1, cache_get.
  destruct (cache w !! characterId) as [d|] eqn:Hc.
  - exists d, w. unfold same_page. repeat split; try reflexivity; try congruence.
    + symmetry. apply insert_id. exact Hc.
    + quiet_now.
  - unfold bind at 1, try_catch, bind at 1, fetch.
    destruct (file_server (env w) (tick w) (getFilePath characterId)) as [e|r] eqn:Hf.
    + eexists _, _. split; [reflexivity|]. unfold same_page. cbn.
      repeat split; try reflexivity; try discriminate; try quiet_now.
      intros _. left. reflexivity.
    + destruct (resp_ok r) eqn:Hok.
      * unfold bind at 1, response_json. destruct (resp_json r) as [d|] eqn:Hj.
        -- eexists _, _. split; [reflexivity|]. unfold same_page. cbn.
           repeat split; try reflexivity; try discriminate; try quiet_now.
           intros _. right. exists (tick w), r. split; assumption.
        -- eexists _, _. split; [reflexivity|]. unfold same_page. cbn.
           repeat split; try reflexivity; try discriminate; try quiet_now.
           intros _. left. reflexivity.
      * eexists _, _. split; [reflexivity|]. unfold same_page. cbn.
        repeat split; try reflexivity; try discriminate; try quiet_now.
        intros _. left. reflexivity.
Qed.


Lemma saveMemories_run characterId data w :
  let data' := set_updated_at data (clock (env w) (tick w)) in
  exists saved w',
    saveMemories characterId data w = (Return saved, w')
    /\ cache w' = <[characterId := data']> (cache w)
    /\ same_page w w'
    /\ (exists events, emitted w w' events /\ stages events = [StageStore]
                        /\ toasts events = [])
    /\ (if quota_exceeded (env w) (S (tick w))
        then saved = false /\ localStorage w' = localStorage w
        else saved = true
             /\ localStorage w'
                = <[storageKey characterId := JSON_stringify data']> (localStorage w)).
Proof.
  intros data'. unfold saveMemories, bind at 1, Date_now.
  unfold bind at 1, mutate, bind at 1, cache_set, update, ret.
  unfold bind at 1, update. unfold try_catch, bind at 1, localStorage_setItem. cbn.
  fold data'.
  destruct (quota_exceeded (env w) (S (tick w))) eqn:Hq.
  - eexists _, _. split; [reflexivity|]. unfold same_page. cbn.
    rewrite insert_insert_eq. repeat split; try reflexivity. quiet_now.
  - eexists _, _. split; [reflexivity|]. unfold same_page. cbn.
    rewrite insert_insert_eq. repeat split; try reflexivity. quiet_now.
Qed.

(** The payload's memories whose id the store does not have yet. *)
Definition fresh_of (old imported : list MemoryRecord) : list MemoryRecord :=
  List.filter (fun m => bool_decide (id m ∉ List.map id old)) imported.

Lemma fresh_of_code old imported :
  List.filter (fun m => negb (bool_decide (id m ∈ (list_to_set (List.map id old) : gset string))))
    imported
  = fresh_of old imported.
Proof.
  unfold fresh_of. apply List.filter_ext. intros m.
  destruct (bool_decide (id m ∈ (list_to_set (List.map id old) : gset string))) eqn:E.
  - apply bool_decide_eq_true in E. apply elem_of_list_to_set in E.
    symmetry. apply bool_decide_eq_false. intros H. apply H. exact E.
  - apply bool_decide_eq_false in E. symmetry. apply bool_decide_eq_true.
    intros H. apply E. apply elem_of_list_to_set. exact H.
Qed.

(** The memories an import leaves in the store. *)
Definition imported_into (merge : bool) (old imported : list MemoryRecord)
    : list MemoryRecord :=
  if merge then old ++ fresh_of old imported else imported.

Lemma importMemories_array characterId doc imported merge w :
  doc_memories doc = FieldArray imported ->
  exists data0 w0 data' w',
    loadMemories characterId "" w = (Return data0, w0)
    /\ importMemories characterId (JsonValue doc) merge w = (Return (length imported), w')
    /\ cache w' = <[characterId := data']> (cache w)
    /\ memories data' = imported_into merge (memories data0) imported
    /\ same_page w w'
    /\ (localStorage w' = localStorage w
        \/ localStorage w' = <[storageKey characterId := JSON_stringify data']> (localStorage w))
    /\ ((forall n, quota_exceeded (env w) n = false) ->
        localStorage w' = <[storageKey characterId := JSON_stringify data']> (localStorage w)).
Proof.
  intros Hdoc.
  destruct (loadMemories_run characterId "" w)
    as (data0 & w0 & Eload & Hcache0 & Hls0 & Hpage0 & _).
  set (data1 := set_memories data0 (imported_into merge (memories data0) imported)).
  assert (Emut : (if merge then
                    mutate characterId
                      (set_memories data0
                         (memories data0
                          ++ List.filter
                               (fun m => negb (bool_decide
                                  (id m ∈ (list_to_set (List.map id (memories data0)) : gset string))))
                               imported))
                  else mutate characterId (set_memories data0 imported)) w0
                 = (Return data1, set_cache (insert characterId data1) w0)).
  { unfold data1, imported_into. destruct merge; [rewrite fresh_of_code|]; reflexivity. }
  destruct (saveMemories_run characterId data1 (set_cache (insert characterId data1) w0))
    as (saved & w' & Esave & Hcache' & Hpage' & _ & Hls').
  cbn in Hcache', Hls'.
  set (data' := set_updated_at data1 (clock (env w0) (tick w0))) in *.
  exists data0, w0, data', w'.
  split; [exact Eload|]. split.
  { unfold importMemories. apply try_catch_Return.
    unfold bind at 1, JSON_parse, ret. unfold bind at 1, get_memories, ret. rewrite Hdoc.
    erewrite bind_Return by exact Eload.
    erewrite bind_Return by exact Emut.
    erewrite bind_Return by exact Esave.
    reflexivity. }
  destruct Hpage0 as (P1 & P2 & P3 & P4 & P5 & P6).
  destruct Hpage' as (Q1 & Q2 & Q3 & Q4 & Q5 & Q6). cbn in Q1, Q2, Q3, Q4, Q5, Q6.
  split. { rewrite Hcache', Hcache0, !insert_insert_eq. reflexivity. }
  split. { reflexivity. }
  split. { unfold same_page. repeat split; congruence. }
  split.
  - destruct (quota_exceeded (env w0) (S (tick w0))); destruct Hls' as [_ ->];
      rewrite Hls0; [left|right]; reflexivity.
  - intros Hq. rewrite P6, Hq in Hls'. destruct Hls' as [_ ->]. rewrite Hls0. reflexivity.
Qed.

Lemma importMemories_saved characterId doc imported merge w :
  doc_memories doc = FieldArray imported ->
  exists data0 w0 data' w',
    loadMemories characterId "" w = (Return data0, w0)
    /\ importMemories characterId (JsonValue doc) merge w = (Return (length imported), w')
    /\ cache w' = <[characterId := data']> (cache w)
    /\ memories data' = imported_into merge (memories data0) imported
    /\ (if quota_exceeded (env w) (S (tick w0))
        then localStorage w' = localStorage w
        else localStorage w'
             = <[storageKey characterId := JSON_stringify data']> (localStorage w)).
Proof.
  intros Hdoc.
  destruct (loadMemories_run characterId "" w)
    as (data0 & w0 & Eload & Hcache0 & Hls0 & Hpage0 & _).
  set (data1 := set_memories data0 (imported_into merge (memories data0) imported)).
  assert (Emut : (if merge then
                    mutate characterId
                      (set_memories data0
                         (memories data0
                          ++ List.filter
                               (fun m => negb (bool_decide
                                  (id m ∈ (list_to_set (List.map id (memories data0)) : gset string))))
                               imported))
                  else mutate characterId (set_memories data0 imported)) w0
                 = (Return data1, set_cache (insert characterId data1) w0)).
  { unfold data1, imported_into. destruct merge; [rewrite fresh_of_code|]; reflexivity. }
  destruct (saveMemories_run characterId data1 (set_cache (insert characterId data1) w0))
    as (saved & w' & Esave & Hcache' & Hpage' & _ & Hls').
  cbn in Hcache', Hls'.
  set (data' := set_updated_at data1 (clock (env w0) (tick w0))) in *.
  exists data0, w0, data', w'.
  split; [exact Eload|]. split.
  { unfold importMemories. apply try_catch_Return.
    unfold bind at 1, JSON_parse, ret. unfold bind at 1, get_memories, ret. rewrite Hdoc.
    erewrite bind_Return by exact Eload.
    erewrite bind_Return by exact Emut.
    erewrite bind_Return by exact Esave.
    reflexivity. }
  destruct Hpage0 as (P1 & P2 & P3 & P4 & P5 & P6).
  split. { rewrite Hcache', Hcache0, !insert_insert_eq. reflexivity. }
  split. { reflexivity. }
  rewrite <- P6.
  destruct (quota_exceeded (env w0) (S (tick w0))); destruct Hls' as [_ ->];
    rewrite Hls0; reflexivity.
Qed.

Lemma importMemories_invalid characterId text merge w :
  match text with
  | JsonValue doc => match doc_memories doc with FieldArray _ => False | _ => True end
  | _ => True
  end ->
  exists e,
    importMemories characterId text merge w
    = (Throw e, emit (EvConsoleError ("[VoyageAI Memory] Import error: " ++ err_message e)) w)
    /\ match text with
       | JsonValue _ => e = mkError "Invalid memory file format"
       | NotJson _ => err_class e = SyntaxError
       | JsonNull => err_class e = TypeError
       end.
Proof.
  intros H. unfold importMemories.
  destruct text as [raw| |doc].
  - eexists. split; reflexivity.
  - eexists. split; reflexivity.
  - destruct (doc_memories doc) eqn:Hf; try contradiction.
    + exists (mkError "Invalid memory file format"). split; [|reflexivity].
      unfold try_catch, bind at 1, JSON_parse, ret. unfold bind at 1, get_memories, ret.
      rewrite Hf. reflexivity.
    + exists (mkError "Invalid memory file format"). split; [|reflexivity].
      unfold try_catch, bind at 1, JSON_parse, ret. unfold bind at 1, get_memories, ret.
      rewrite Hf. reflexivity.
Qed.

End StorageFacts.

#[global] Instance same_page_PreOrder : PreOrder same_page.
Proof.
  split.
  - intros w. unfold same_page. repeat split; reflexivity.
  - intros w1 w2 w3 H12 H23. unfold same_page in *. intuition congruence.
Qed.

Section StorageClaims.
Import Runtime Storage.

Lemma stored_insert characterId data (w w' : World) :
  cache w' = <[characterId := data]> (cache w) -> stored characterId w' = memories data.
Proof. intros H. unfold stored. rewrite H, lookup_insert_eq. reflexivity. Qed.

Lemma generateUUID_run w :
  exists uuid w',
    generateUUID w = (Return uuid, w')
    /\ cache w' = cache w /\ localStorage w' = localStorage w
    /\ same_page w w' /\ trace w' = trace w.
Proof.
  unfold generateUUID. generalize uuid_template. intros template. revert w.
  induction template as [|c rest IH]; intros w.
  - exists EmptyString, w. unfold same_page. repeat split; reflexivity.
  - cbn [replace_xy].
    assert (Hd : exists d w1,
               (if (Ascii.eqb c "x" || Ascii.eqb c "y")%bool
                then uuid_digit c else ret (String c EmptyString)) w = (Return d, w1)
               /\ cache w1 = cache w /\ localStorage w1 = localStorage w
               /\ same_page w w1 /\ trace w1 = trace w).
    { destruct (Ascii.eqb c "x" || Ascii.eqb c "y")%bool.
      - eexists _, _. split; [reflexivity|]. unfold same_page. cbn. repeat split; reflexivity.
      - eexists _, _. split; [reflexivity|]. unfold same_page. repeat split; reflexivity. }
    destruct Hd as (d & w1 & E1 & C1 & L1 & P1 & T1).
    destruct (IH w1) as (ds & w2 & E2 & C2 & L2 & P2 & T2).
    exists (d ++ ds)%string, w2. split.
    { erewrite bind_Return by exact E1. erewrite bind_Return by exact E2. reflexivity. }
    unfold same_page in *. repeat split; try congruence; intuition congruence.
Qed.

Lemma filter_none {A} (f : A -> bool) (l : list A) :
  (forall x, In x l -> f x = false) -> List.filter f l = [].
Proof.
  induction l as [|x l IH]; intros H; [reflexivity|].
  simpl. rewrite (H x) by (left; reflexivity). apply IH. intros y Hy. apply H. right. exact Hy.
Qed.

(** Once a payload has been merged, every id of it is in the store. *)
Lemma fresh_of_absorbed old imported :
  fresh_of (old ++ fresh_of old imported) imported = [].
Proof.
  unfold fresh_of at 1. apply filter_none. intros m Hm.
  apply bool_decide_eq_false. intros Hnot. apply Hnot.
  rewrite List.map_app. apply elem_of_app.
  destruct (decide (id m ∈ List.map id old)) as [Hold|Hold]; [left; exact Hold|].
  right. apply list_elem_of_In, in_map. unfold fresh_of. apply filter_In.
  split; [exact Hm|]. apply bool_decide_eq_true. exact Hold.
Qed.


(** *** Worlds to compute with *)

(** The default settings of [index.js]. *)
Definition default_settings : Settings :=
  {| top_k := 5; similarity_threshold := 0x1.6666666666666p-1%float (* 0.7 *); word_limit := 50;
     include_history := true; history_count := 3;
     include_raw_history := true; raw_history_count := 5;
     raw_include_bot := true; raw_include_user := true; debug_mode := false |}.

Definition reply {B} (body : B) : FetchOutcome B :=
  Resolved {| resp_ok := true; resp_status := 200; resp_statusText := "OK";
              resp_error_message := None; resp_json := Some body |}.

Definition failed_to_fetch {B} : FetchOutcome B := Rejected "Failed to fetch".

(** An outside world that answers every question the same way: no
    memory file on the server, the given replies of the two services,
    [Math.random] always 0, [localStorage] full or not. *)
Definition constant_env (summarizer : FetchOutcome CompletionBody)
    (embedder : FetchOutcome EmbeddingsBody) (full : bool) : Env :=
  {| clock := fun n => Z.of_nat n;
     random := fun _ => 0%float;
     file_server := fun _ _ =>
       Resolved {| resp_ok := false; resp_status := 404; resp_statusText := "Not Found";
                   resp_error_message := None; resp_json := None |};
     summarizer_api := fun _ => summarizer;
     embedding_api := fun _ => embedder;
     quota_exceeded := fun _ => full;
     confirms := fun _ => true |}.

Definition alice_context (messages : list ChatMessage) : Context :=
  {| characterId := Some "alice"; chat := Some messages; name1 := "Bob"; name2 := "Alice";
     context_chatId := Some "chat-1" |}.

Definition page (e : Env) (stores : gmap string StoreData) : World :=
  {| cache := stores; localStorage := ∅; isProcessing := false;
     settings := default_settings;
     summarizerClient := {| sc_apiUrl := "https://api.openai.com/v1"; sc_apiKey := "sk";
                            sc_model := "gpt-4o-mini"; sc_wordLimit := 50 |};
     voyageClient := {| vc_apiKey := "pa"; vc_model := "voyage-4-large" |};
     host := alice_context [];
     env := e; tick := 0; trace := [] |}.

Definition store_of (ms : list MemoryRecord) : StoreData :=
  {| character_id := "alice"; character_name := "Alice"; created_at := 0%Z;
     updated_at := 0%Z; memories := ms |}.

(** The array-typed [memories] field of a payload, when it has one. *)
Definition payload_memories (text : JsonText) : option (list MemoryRecord) :=
  match text with
  | JsonValue doc => match doc_memories doc with FieldArray ms => Some ms | _ => None end
  | _ => None
  end.

(** C3, amended. [importMemories] checks the payload before it touches
    the store: a payload that is not JSON, is [null] or has no
    array-typed [memories] makes the call throw, with the cache and
    [localStorage] as they were. For a payload with an array of memory
    records the call returns normally, and the imported result (on a
    merge the memories of the store followed by those of the payload
    whose id is new, else the memories of the payload) is written to the
    cached store first and handed to [localStorage] after, once the
    store has been loaded. Whether that write succeeds does not change
    the outcome of the call: when [localStorage] is full at that moment
    the cached store keeps the imported result and [localStorage] keeps
    its content, and otherwise the result is persisted. *)
Theorem importMemories_outcome characterId text merge w :
  (forall imported, payload_memories text = Some imported ->
     exists data0 w0 n data' w',
       loadMemories characterId "" w = (Return data0, w0)
       /\ importMemories characterId text merge w = (Return n, w')
       /\ cache w' = <[characterId := data']> (cache w)
       /\ memories data' = imported_into merge (memories data0) imported
       /\ (if quota_exceeded (env w) (S (tick w0))
           then localStorage w' = localStorage w
           else localStorage w'
                = <[storageKey characterId := JSON_stringify data']> (localStorage w)))
  /\ (payload_memories text = None ->
      exists e w',
        importMemories characterId text merge w = (Throw e, w')
        /\ cache w' = cache w /\ localStorage w' = localStorage w).
Proof.
  split.
  - intros imported H. destruct text as [raw| |doc]; try discriminate.
    simpl in H. destruct (doc_memories doc) as [| |ms] eqn:Hdoc; try discriminate.
    injection H as ->.
    destruct (importMemories_saved characterId doc imported merge w Hdoc)
      as (data0 & w0 & data' & w' & H1 & H2 & H3 & H4 & H5).
    exists data0, w0, (length imported), data', w'. repeat split; assumption.
  - intros H.
    destruct (importMemories_invalid characterId text merge w) as (e & E & _).
    { destruct text as [raw| |doc]; try exact I. simpl in H.
      destruct (doc_memories doc); try exact I. discriminate. }
    eexists _, _. split; [exact E|]. split; reflexivity.
Qed.

Definition memory_a : MemoryRecord := example_memory "a" (Some [1; 0]%float).

(** A payload with one memory, merged into the store of a character
    that has none, with room in [localStorage]: the call returns, the
    cached store holds the memory and [localStorage] has the store. *)
Lemma importMemories_outcome_witness :
  exists n w',
    importMemories "alice" (JSON_stringify (store_of [memory_a])) true
      (page (constant_env failed_to_fetch failed_to_fetch false) ∅)
    = (Return n, w')
    /\ stored "alice" w' = [memory_a]
    /\ is_Some (localStorage w' !! storageKey "alice").
Proof.
  destruct (proj1 (importMemories_outcome "alice" (JSON_stringify (store_of [memory_a])) true
                     (page (constant_env failed_to_fetch failed_to_fetch false) ∅))
              [memory_a])
    as (data0 & w0 & n & data' & w' & Eload & Eimport & Hc & Hm & Hl).
  { vm_compute. reflexivity. }
  exists n, w'. split; [exact Eimport|].
  assert (H0 : memories data0 = [] /\ tick w0 = 3).
  { vm_compute in Eload. injection Eload as <- <-. split; reflexivity. }
  destruct H0 as [H0 Ht].
  split.
  - rewrite (stored_insert _ _ _ _ Hc), Hm, H0. vm_compute. reflexivity.
  - rewrite Ht in Hl. cbn in Hl. rewrite Hl, lookup_insert_eq. eexists. reflexivity.
Defined.

(** C3 as stated fails: with [localStorage] full, a merge reports
    success (it returns 1), the cached store holds the imported memory,
    and nothing is saved. *)
Lemma importMemories_cached_but_unsaved :
  fst (importMemories "alice" (JSON_stringify (store_of [memory_a])) true
         (page (constant_env failed_to_fetch failed_to_fetch true) ∅))
  = Return 1
  /\ stored "alice"
       (snd (importMemories "alice" (JSON_stringify (store_of [memory_a])) true
               (page (constant_env failed_to_fetch failed_to_fetch true) ∅)))
     = [memory_a]
  /\ localStorage
       (snd (importMemories "alice" (JSON_stringify (store_of [memory_a])) true
               (page (constant_env failed_to_fetch failed_to_fetch true) ∅)))
     !! storageKey "alice" = None.
Proof. vm_compute. repeat split; reflexivity. Qed.

(** C4 at the failing input: the store has a memory with id [a], the
    payload has another memory with the same id, and the import is a
    merge. The memory of the payload is skipped and the store is as it
    was, yet the call returns 1. *)
Lemma importMemories_counts_skipped :
  fst (importMemories "alice"
         (JSON_stringify (store_of [example_memory "a" (Some [0; 1]%float)])) true
         (page (constant_env failed_to_fetch failed_to_fetch false)
            {[ "alice" := store_of [memory_a] ]}))
  = Return 1
  /\ stored "alice"
       (snd (importMemories "alice"
               (JSON_stringify (store_of [example_memory "a" (Some [0; 1]%float)])) true
               (page (constant_env failed_to_fetch failed_to_fetch false)
                  {[ "alice" := store_of [memory_a] ]})))
     = [memory_a].
Proof. vm_compute. split; reflexivity. Qed.

(** The numbers that JSON gives back as they are: the finite numbers
    but the negative zero. *)
Definition survives_json (x : JS.number) : bool :=
  match PrimFloat.classify x with
  | FloatClass.NaN | FloatClass.PInf | FloatClass.NInf | FloatClass.NZero => false
  | _ => true
  end.

Definition number_survives (v : JS.json_number) : bool :=
  match v with
  | JS.Null => true
  | JS.Num x => survives_json x
  end.

(** A record whose numbers are such: the components of its embedding,
    when it has one, and its importance. *)
Definition record_survives (m : MemoryRecord) : bool :=
  (forallb number_survives (default [] (embedding m))
   && number_survives (importance (metadata m)))%bool.

Lemma JSON_number_survives v : number_survives v = true -> JS.JSON_number v = v.
Proof.
  destruct v as [|x]; [reflexivity|]. unfold number_survives, survives_json, JS.JSON_number.
  unfold PrimFloat.is_nan, PrimFloat.is_infinity, JS.strict_eq.
  rewrite FloatAxioms.classify_spec, !FloatAxioms.eqb_spec, FloatAxioms.abs_spec.
  change (Prim2SF 0%float) with (S754_zero false).
  change (Prim2SF infinity) with (S754_infinity false).
  destruct (Prim2SF x) as [s|s| |s m e] eqn:E.
  - destruct s; [discriminate|]. intros _. cbn.
    f_equal. symmetry. apply Prim2SF_inj. rewrite E. reflexivity.
  - destruct s; discriminate.
  - discriminate.
  - intros _. unfold SFeqb, SFcompare, SFabs.
    rewrite Z.compare_refl, Pos.compare_refl.
    destruct s; reflexivity.
Qed.

Lemma JSON_record_survives m : record_survives m = true -> JSON_record m = m.
Proof.
  unfold record_survives. intros H. apply andb_true_iff in H as [He Hi].
  destruct m as [i t o s e [r c imp c']]. unfold JSON_record, JSON_metadata. cbn in *.
  rewrite (JSON_number_survives imp Hi). f_equal.
  destruct e as [e|]; [|reflexivity]. cbn in *. f_equal.
  induction e as [|x e IH]; [reflexivity|].
  cbn in He. apply andb_true_iff in He as [Hx He].
  cbn. rewrite (JSON_number_survives x Hx), (IH He). reflexivity.
Qed.

Lemma JSON_records_survive ms :
  forallb record_survives ms = true -> List.map JSON_record ms = ms.
Proof.
  induction ms as [|m ms IH]; [reflexivity|]. cbn. intros H.
  apply andb_true_iff in H as [Hm Hms].
  rewrite (JSON_record_survives m Hm), (IH Hms). reflexivity.
Qed.

(** C5, amended. The text that [exportMemories] returns for a
    character, imported for that character without merging, replaces
    the memories of the store, whatever they are by then, by those that
    were exported, in the same order, each as JSON gives it back: the
    strings (the ids among them) as they were, and in the embeddings
    and the importance NaN and the infinities as [null] and the negative
    zero as 0. When every number of the exported memories is finite and
    not the negative zero, the memories are the exported ones, embeddings
    and all. *)
Theorem export_import_roundtrip characterId w w2 :
  exists text w1,
    exportMemories characterId w = (Return text, w1)
    /\ exists n w3,
         importMemories characterId text false w2 = (Return n, w3)
         /\ stored characterId w3 = List.map JSON_record (stored characterId w1)
         /\ (forallb record_survives (stored characterId w1) = true ->
             stored characterId w3 = stored characterId w1).
Proof.
  destruct (loadMemories_run characterId "" w) as (data1 & w1 & Eload & Hcache1 & _).
  destruct (importMemories_array characterId
              {| doc_character_id := character_id data1;
                 doc_character_name := character_name data1;
                 doc_created_at := created_at data1;
                 doc_updated_at := updated_at data1;
                 doc_memories := FieldArray (List.map JSON_record (memories data1)) |}
              (List.map JSON_record (memories data1)) false w2 eq_refl)
    as (data0 & w0 & data' & w3 & _ & Eimport & Hcache3 & Hmem & _).
  exists (JSON_stringify data1), w1. split.
  { unfold exportMemories. erewrite bind_Return by exact Eload. reflexivity. }
  exists (length (List.map JSON_record (memories data1))), w3.
  rewrite (stored_insert _ _ _ _ Hcache1), (stored_insert _ _ _ _ Hcache3), Hmem.
  split; [exact Eimport|]. split; [reflexivity|].
  intros H. apply JSON_records_survive. exact H.
Qed.

(** A store of one memory with the embedding (1, 0), exported, then
    imported when the store holds another memory: the store holds the
    exported memory again, and only it. *)
Lemma export_import_roundtrip_witness :
  exists text w1 n w3,
    exportMemories "alice"
      (page (constant_env failed_to_fetch failed_to_fetch false)
         {[ "alice" := store_of [memory_a] ]})
    = (Return text, w1)
    /\ importMemories "alice" text false
         (page (constant_env failed_to_fetch failed_to_fetch false)
            {[ "alice" := store_of [example_memory "b" (Some [0; 1]%float)] ]})
       = (Return n, w3)
    /\ stored "alice" w3 = [memory_a].
Proof.
  destruct (export_import_roundtrip "alice"
              (page (constant_env failed_to_fetch failed_to_fetch false)
                 {[ "alice" := store_of [memory_a] ]})
              (page (constant_env failed_to_fetch failed_to_fetch false)
                 {[ "alice" := store_of [example_memory "b" (Some [0; 1]%float)] ]}))
    as (text & w1 & Eexport & n & w3 & Eimport & _ & Hsame).
  exists text, w1, n, w3. split; [exact Eexport|]. split; [exact Eimport|].
  assert (Hw1 : stored "alice" w1 = [memory_a]).
  { vm_compute in Eexport. injection Eexport as _ <-. vm_compute. reflexivity. }
  rewrite Hsame; rewrite Hw1; [reflexivity|vm_compute; reflexivity].
Defined.

(** C5 as stated fails: a memory whose embedding holds the negative
    zero and an infinity (the embedding service may answer [-0] and
    [1e999]) comes back from the round trip with 0 and [null] in their
    places. *)
Lemma export_import_changes_numbers :
  exportMemories "alice"
    (page (constant_env failed_to_fetch failed_to_fetch false)
       {[ "alice" := store_of [example_memory "a" (Some [(-0)%float; infinity])] ]})
  = (Return (JSON_stringify (store_of [example_memory "a" (Some [(-0)%float; infinity])])),
     page (constant_env failed_to_fetch failed_to_fetch false)
       {[ "alice" := store_of [example_memory "a" (Some [(-0)%float; infinity])] ]})
  /\ List.map embedding
       (stored "alice"
          (page (constant_env failed_to_fetch failed_to_fetch false)
             {[ "alice" := store_of [example_memory "a" (Some [(-0)%float; infinity])] ]}))
     = [Some [JS.Num (-0)%float; JS.Num infinity]]
  /\ List.map embedding
       (stored "alice"
          (snd (importMemories "alice"
                  (JSON_stringify (store_of [example_memory "a" (Some [(-0)%float; infinity])]))
                  false
                  (page (constant_env failed_to_fetch failed_to_fetch false)
                     {[ "alice" := store_of [example_memory "a" (Some [(-0)%float; infinity])] ]}))))
     = [Some [JS.Num 0%float; JS.Null]].
Proof. vm_compute. repeat split; reflexivity. Qed.

(** C6. Whatever store a payload was exported from, and whatever store
    it is merged into, the second merge of the payload adds nothing:
    every id of the payload is in the store after the first, and the
    memories of the store, their number with them, stay as the first
    merge left them. *)
Theorem merge_import_idempotent exportedFrom w0 characterId w :
  exists text w0' n1 w1 n2 w2,
    exportMemories exportedFrom w0 = (Return text, w0')
    /\ importMemories characterId text true w = (Return n1, w1)
    /\ importMemories characterId text true w1 = (Return n2, w2)
    /\ stored characterId w2 = stored characterId w1
    /\ length (stored characterId w2) = length (stored characterId w1).
Proof.
  destruct (loadMemories_run exportedFrom "" w0) as (data & w0' & Eexp & _).
  set (doc := {| doc_character_id := character_id data;
                 doc_character_name := character_name data;
                 doc_created_at := created_at data;
                 doc_updated_at := updated_at data;
                 doc_memories := FieldArray (List.map JSON_record (memories data)) |}).
  destruct (importMemories_array characterId doc (List.map JSON_record (memories data)) true w
              eq_refl)
    as (d0 & wl & d1 & w1 & _ & E1 & Hc1 & Hm1 & _).
  destruct (importMemories_array characterId doc (List.map JSON_record (memories data)) true w1
              eq_refl)
    as (d1' & wl' & d2 & w2 & El2 & E2 & Hc2 & Hm2 & _).
  destruct (loadMemories_run characterId "" w1) as (x & y & El2' & _ & _ & _ & _ & Hhit & _).
  rewrite El2 in El2'. injection El2' as <- <-.
  destruct (Hhit d1) as [-> _]; [rewrite Hc1; apply lookup_insert_eq|].
  exists (JSON_stringify data), w0', (length (List.map JSON_record (memories data))), w1,
    (length (List.map JSON_record (memories data))), w2.
  assert (Hsame : stored characterId w2 = stored characterId w1).
  { rewrite (stored_insert _ _ _ _ Hc1), (stored_insert _ _ _ _ Hc2), Hm2, Hm1.
    unfold imported_into. rewrite fresh_of_absorbed. apply app_nil_r. }
  split. { unfold exportMemories. erewrite bind_Return by exact Eexp. reflexivity. }
  split; [exact E1|]. split; [exact E2|]. split; [exact Hsame|]. rewrite Hsame. reflexivity.
Qed.

Lemma addMemory_run characterId memory w :
  exists data0 w0 uuid w1 newMemory data' w',
    loadMemories characterId "" w = (Return data0, w0)
    /\ generateUUID w0 = (Return uuid, w1)
    /\ addMemory characterId memory w = (Return newMemory, w')
    /\ newMemory = finalize uuid (clock (env w) (tick w1)) memory
    /\ cache w' = <[characterId := data']> (cache w)
    /\ memories data' = memories data0 ++ [newMemory]
    /\ same_page w w'
    /\ (localStorage w' = localStorage w
        \/ localStorage w' = <[storageKey characterId := JSON_stringify data']> (localStorage w))
    /\ (exists events, emitted w w' events /\ stages events = [StageStore]
                       /\ toasts events = []).
Proof.
  destruct (loadMemories_run characterId "" w)
    as (data0 & w0 & Eload & Hc0 & Hl0 & Hp0 & (ev0 & He0 & Hs0 & Ht0) & _).
  destruct (generateUUID_run w0) as (uuid & w1 & Euuid & Hc1 & Hl1 & Hp1 & Ht1).
  set (newMemory := finalize uuid (clock (env w1) (tick w1)) memory).
  set (data1 := set_memories data0 (memories data0 ++ [newMemory])).
  destruct (saveMemories_run characterId data1 (set_cache (insert characterId data1) (next_tick w1)))
    as (saved & w' & Esave & Hc' & Hp' & (ev' & He' & Hs' & Ht') & Hl').
  cbn in Hc', Hl'. unfold emitted in He'. cbn in He'.
  set (data' := set_updated_at data1 (clock (env w1) (S (tick w1)))) in *.
  assert (Henv : env w1 = env w).
  { destruct Hp0 as (_ & _ & _ & _ & _ & H0). destruct Hp1 as (_ & _ & _ & _ & _ & H1).
    congruence. }
  exists data0, w0, uuid, w1, newMemory, data', w'.
  split; [exact Eload|]. split; [exact Euuid|]. split.
  { unfold addMemory. erewrite bind_Return by exact Eload.
    erewrite bind_Return by exact Euuid.
    unfold bind at 1, Date_now. unfold bind at 1, mutate, bind at 1, cache_set, update, ret.
    fold newMemory. fold data1. erewrite bind_Return by exact Esave. reflexivity. }
  split. { unfold newMemory. rewrite Henv. reflexivity. }
  split. { rewrite Hc', Hc1, Hc0, !insert_insert_eq. reflexivity. }
  split. { reflexivity. }
  split.
  { etransitivity; [exact Hp0|]. etransitivity; [exact Hp1|].
    destruct Hp' as (Q1 & Q2 & Q3 & Q4 & Q5 & Q6). cbn in Q1, Q2, Q3, Q4, Q5, Q6.
    unfold same_page. repeat split; assumption. }
  split.
  { destruct (quota_exceeded (env w1) (S (S (tick w1)))); destruct Hl' as [_ ->];
      rewrite Hl1, Hl0; [left|right]; reflexivity. }
  exists (ev0 ++ ev'). unfold emitted in *.
  rewrite He', Ht1, He0, stages_app, toasts_app, Hs0, Hs', Ht0, Ht', app_assoc.
  repeat split; reflexivity.
Qed.

(** C8, amended. [addMemory] appends one record to the store of the
    character, made of the partial memory, the clock and the id that
    [generateUUID] draws with [Math.random]; the other stores are not
    touched. Nothing compares the id with those of the store: the ids of
    the store stay distinct when the one drawn is not among them. *)
Theorem addMemory_appends characterId memory w :
  exists data0 w0 uuid w1 newMemory data' w',
    loadMemories characterId "" w = (Return data0, w0)
    /\ generateUUID w0 = (Return uuid, w1)
    /\ addMemory characterId memory w = (Return newMemory, w')
    /\ newMemory = finalize uuid (clock (env w) (tick w1)) memory
    /\ cache w' = <[characterId := data']> (cache w)
    /\ memories data' = memories data0 ++ [newMemory]
    /\ (uuid ∉ List.map id (memories data0) ->
        NoDup (List.map id (memories data0)) -> NoDup (List.map id (memories data'))).
Proof.
  destruct (addMemory_run characterId memory w)
    as (data0 & w0 & uuid & w1 & newMemory & data' & w' & H1 & H2 & H3 & H4 & H5 & H6 & _).
  exists data0, w0, uuid, w1, newMemory, data', w'.
  repeat (split; [assumption|]).
  intros Hfresh Hnodup. rewrite H6, List.map_app. simpl List.map.
  apply NoDup_app. split; [exact Hnodup|]. split; [|apply NoDup_singleton].
  intros x Hx Hx'. apply list_elem_of_singleton in Hx'. subst x.
  rewrite H4 in Hx. cbn [id finalize] in Hx. apply Hfresh. exact Hx.
Qed.

Definition partial_memory : PartialMemory :=
  createMemory "I told her the truth about the letter."
    "User revealed the truth about the letter to her." [0.5; 0.25]%float
    {| arg_role := Some "user"; arg_chatId := Some "chat-1" |}.

(** A store that holds a memory with the id [a]: the id drawn is not
    [a], and the two ids of the store are distinct after the call. *)
Lemma addMemory_appends_witness :
  NoDup (List.map id
           (stored "alice"
              (snd (addMemory "alice" partial_memory
                      (page (constant_env failed_to_fetch failed_to_fetch false)
                         {[ "alice" := store_of [memory_a] ]}))))).
Proof.
  destruct (addMemory_appends "alice" partial_memory
              (page (constant_env failed_to_fetch failed_to_fetch false)
                 {[ "alice" := store_of [memory_a] ]}))
    as (data0 & w0 & uuid & w1 & newMemory & data' & w' & Eload & Euuid & Eadd & _ & Hc & Hm
        & Hfresh).
  rewrite Eadd. cbn [snd]. rewrite (stored_insert _ _ _ _ Hc).
  assert (H0 : List.map id (memories data0) = ["a"]
               /\ uuid = "00000000-0000-4000-8000-000000000000").
  { vm_compute in Eload. injection Eload as <- <-.
    vm_compute in Euuid. injection Euuid as <- _. split; reflexivity. }
  destruct H0 as [H0 Hu].
  apply Hfresh; rewrite H0.
  - rewrite Hu. intros H. apply list_elem_of_singleton in H. discriminate.
  - apply NoDup_singleton.
Defined.

(** C8 as stated fails: [Math.random] may answer the same twice. With
    the answer 0 every time, two calls of [addMemory] leave two records
    with one id. *)
Lemma addMemory_twice_same_id :
  List.map id
    (stored "alice"
       (snd (addMemory "alice" partial_memory
               (snd (addMemory "alice" partial_memory
                       (page (constant_env failed_to_fetch failed_to_fetch false) ∅))))))
  = ["00000000-0000-4000-8000-000000000000"; "00000000-0000-4000-8000-000000000000"].
Proof. vm_compute. reflexivity. Qed.

End StorageClaims.

(** ** The two services *)

Ltac run_case :=
  eexists _, _, _; split; [reflexivity|]; split; [emitted_now|];
  unfold same_page; cbn; repeat split; try reflexivity;
  first [ left; reflexivity | right; reflexivity | discriminate
        | intros ? [= <-]; discriminate | intros; reflexivity ].

Section ServiceFacts.
Import Runtime.

Lemma summarize_run message context w :
  exists r w' events,
    Summarizer.summarize message context w = (r, w')
    /\ emitted w w' events /\ toasts events = []
    /\ cache w' = cache w /\ localStorage w' = localStorage w /\ same_page w w'
    /\ (stages events = [] \/ stages events = [StageSummarize])
    /\ (forall s, r = Return s -> JS.truthy s = true -> stages events = [StageSummarize]).
Proof.
  unfold Summarizer.summarize, bind at 1, get_world.
  destruct (negb (JS.truthy (sc_apiUrl (summarizerClient w)))
            || negb (JS.truthy (sc_apiKey (summarizerClient w))))%bool.
  { run_case. }
  destruct (Summarizer.blank message).
  { run_case. }
  unfold try_catch, bind at 1, fetch.
  destruct (summarizer_api (env w) (tick w)) as [reason|r].
  { run_case. }
  destruct (resp_ok r); cbn [negb].
  2:{ run_case. }
  unfold bind at 1, response_json.
  destruct (resp_json r) as [[content|]|]; cbv beta iota delta [bind ret option_map].
  - destruct (JS.truthy (JS.trim content)).
    + run_case.
    + run_case.
  - run_case.
  - run_case.
Qed.

Lemma embedDocument_run text w :
  exists r w' events,
    VoyageAI.embedDocument text w = (r, w')
    /\ emitted w w' events /\ toasts events = []
    /\ cache w' = cache w /\ localStorage w' = localStorage w /\ same_page w w'
    /\ (stages events = [] \/ stages events = [StageEmbed])
    /\ (forall e, r = Return e -> length e <> 0 -> stages events = [StageEmbed]).
Proof.
  unfold VoyageAI.embedDocument, bind at 1, VoyageAI.embed, bind at 1, get_world.
  destruct (negb (JS.truthy (vc_apiKey (voyageClient w)))).
  { run_case. }
  cbn [length Nat.eqb].
  unfold try_catch, bind at 1, fetch.
  destruct (embedding_api (env w) (tick w)) as [reason|r].
  { run_case. }
  destruct (resp_ok r); cbn [negb].
  2:{ run_case. }
  unfold bind at 1, response_json.
  destruct (resp_json r) as [[message|items]|]; cbv beta iota delta [bind ret].
  - run_case.
  - run_case.
  - run_case.
Qed.

(** *** Blank messages *)

(** A message that is empty or made of white space only. *)
Definition only_whitespace (s : string) : bool :=
  forallb JS.isWhiteSpace (list_ascii_of_string s).

Lemma trimStart_empty s : JS.trimStart s = EmptyString <-> only_whitespace s = true.
Proof.
  unfold only_whitespace. induction s as [|c s IH]; simpl; [tauto|].
  destruct (JS.isWhiteSpace c); simpl; [exact IH|]. split; discriminate.
Qed.

Lemma trimEnd_empty s : JS.trimEnd s = EmptyString <-> only_whitespace s = true.
Proof.
  unfold only_whitespace. induction s as [|c s IH]; simpl; [tauto|].
  destruct (JS.trimEnd s) eqn:E.
  - destruct (JS.isWhiteSpace c); simpl.
    + split; [intros _; apply IH; reflexivity|reflexivity].
    + split; discriminate.
  - split; [discriminate|]. intros H. apply andb_true_iff in H as [_ H].
    apply IH in H. discriminate.
Qed.

Lemma trimStart_head s : only_whitespace (JS.trimStart s) = true -> JS.trimStart s = EmptyString.
Proof.
  unfold only_whitespace. induction s as [|c s IH]; simpl; [reflexivity|].
  destruct (JS.isWhiteSpace c) eqn:E; [exact IH|].
  simpl. rewrite E. discriminate.
Qed.

Lemma blank_only_whitespace s : Summarizer.blank s = only_whitespace s.
Proof.
  unfold Summarizer.blank, JS.trim.
  destruct (only_whitespace s) eqn:E.
  - apply trimStart_empty in E. rewrite E. simpl. apply orb_true_r.
  - destruct s as [|c s]; [discriminate|]. cbn [JS.truthy negb orb].
    destruct (JS.trimEnd (JS.trimStart (String c s))) eqn:Et; [|reflexivity].
    apply trimEnd_empty, trimStart_head, trimStart_empty in Et. congruence.
Qed.

(** C10. With the URL and the key configured, [summarize] answers the
    empty string for a message that is empty or made of white space
    only, and leaves the world as it found it: no request is sent. It
    throws the error [No summary generated] only for a message that is
    not blank, after a reply with an OK status whose content is missing
    or trims to the empty string. *)
Theorem summarize_blank_message message context w :
  (JS.truthy (sc_apiUrl (summarizerClient w)) = true ->
   JS.truthy (sc_apiKey (summarizerClient w)) = true ->
   only_whitespace message = true ->
   Summarizer.summarize message context w = (Return EmptyString, w))
  /\ (forall w',
        Summarizer.summarize message context w
        = (Throw (mkError "No summary generated"), w') ->
        only_whitespace message = false
        /\ exists r content,
             summarizer_api (env w) (tick w) = Resolved r
             /\ resp_ok r = true /\ resp_json r = Some content
             /\ (content = None \/ exists s, content = Some s /\ JS.trim s = EmptyString)).
Proof.
  rewrite <- blank_only_whitespace. split.
  - intros Hurl Hkey Hblank. unfold Summarizer.summarize, bind at 1, get_world.
    rewrite Hurl, Hkey, Hblank. reflexivity.
  - intros w'. unfold Summarizer.summarize, bind at 1, get_world.
    destruct (negb (JS.truthy (sc_apiUrl (summarizerClient w)))
              || negb (JS.truthy (sc_apiKey (summarizerClient w))))%bool.
    { unfold throw, mkError. intros [= H]. }
    destruct (Summarizer.blank message); [discriminate|].
    unfold try_catch, bind at 1, fetch.
    destruct (summarizer_api (env w) (tick w)) as [reason|r]; [discriminate|].
    destruct (resp_ok r) eqn:Hok; cbn [negb].
    2:{ unfold bind, throw, console_error, update, mkError. intros [= H]. }
    unfold bind at 1, response_json.
    destruct (resp_json r) as [content|] eqn:Hj; [|discriminate].
    intros H. split; [reflexivity|]. exists r, content.
    split; [reflexivity|]. split; [exact Hok|]. split; [exact Hj|].
    destruct content as [s|]; [|left; reflexivity]. right. exists s. split; [reflexivity|].
    cbv beta iota delta [bind ret option_map] in H.
    destruct (JS.trim s); [reflexivity|discriminate].
Qed.

(** A message of three spaces is answered at once. *)
Lemma summarize_blank_message_witness :
  Summarizer.summarize "   " 
    {| ctx_role := "user"; ctx_characterName := "Alice"; ctx_userName := "Bob";
       ctx_wordLimit := 50; ctx_summaryHistory := []; ctx_rawHistory := [] |}
    (page (constant_env failed_to_fetch failed_to_fetch false) ∅)
  = (Return EmptyString, page (constant_env failed_to_fetch failed_to_fetch false) ∅).
Proof.
  apply (proj1 (summarize_blank_message "   " _
                  (page (constant_env failed_to_fetch failed_to_fetch false) ∅)));
    reflexivity.
Defined.

End ServiceFacts.

(** ** The write path *)

Section ReadingFacts.
Import Runtime.

(** What reading the store may do: put in the cache the stores it
    loads. The stores that were in the cache stay as they were, a store
    that appears is what [loadMemories] made of the character's file,
    [localStorage] and the rest of the page are untouched, and neither a
    stage nor a notification shows in the trace. *)
Definition reads_only (w w' : World) : Prop :=
  same_page w w'
  /\ localStorage w' = localStorage w
  /\ (forall c d, cache w !! c = Some d -> cache w' !! c = Some d)
  /\ (forall c d, cache w' !! c = Some d ->
        cache w !! c = Some d \/ loaded_from (env w) c d)
  /\ quiet w w'.

Lemma quiet_refl w : quiet w w.
Proof. exists []. split; [apply emitted_refl|split; reflexivity]. Qed.

Lemma quiet_trans w1 w2 w3 : quiet w1 w2 -> quiet w2 w3 -> quiet w1 w3.
Proof.
  intros (e1 & H1 & S1 & T1) (e2 & H2 & S2 & T2). exists (e1 ++ e2).
  split; [eapply emitted_trans; eassumption|].
  rewrite stages_app, toasts_app, S1, S2, T1, T2. split; reflexivity.
Qed.

#[global] Instance reads_only_PreOrder : PreOrder reads_only.
Proof.
  split.
  - intros w. unfold reads_only. split; [reflexivity|].
    split; [reflexivity|]. split; [auto|]. split; [auto|]. apply quiet_refl.
  - intros w1 w2 w3 (P12 & L12 & K12 & N12 & Q12) (P23 & L23 & K23 & N23 & Q23).
    unfold reads_only. split; [etransitivity; eassumption|].
    split; [congruence|]. split; [auto|]. split; [|eapply quiet_trans; eassumption].
    intros c d H. destruct (N23 c d H) as [H2|H2].
    + apply N12. exact H2.
    + right. destruct P12 as (_ & _ & _ & _ & _ & He). rewrite <- He. exact H2.
Qed.

Lemma loadMemories_reads_only c n : preserves reads_only (Storage.loadMemories c n).
Proof.
  intros w.
  destruct (loadMemories_run c n w) as (data & w' & E & Hc & Hl & Hp & Hq & Hhit & Hmiss).
  rewrite E. cbn [snd]. unfold reads_only.
  split; [exact Hp|]. split; [exact Hl|]. split; [|split; [|exact Hq]].
  - intros c' d H. destruct (decide (c' = c)) as [->|Hne].
    + destruct (Hhit d H) as [_ ->]. exact H.
    + rewrite Hc, lookup_insert_ne by congruence. exact H.
  - intros c' d H. rewrite Hc in H. destruct (decide (c' = c)) as [->|Hne].
    + rewrite lookup_insert_eq in H. injection H as <-.
      destruct (cache w !! c) as [d0|] eqn:Hc0.
      * left. destruct (Hhit d0 eq_refl) as [-> _]. reflexivity.
      * right. apply Hmiss. reflexivity.
    + rewrite lookup_insert_ne in H by congruence. left. exact H.
Qed.

Lemma console_log_reads_only text : preserves reads_only (console_log text).
Proof.
  intros w. unfold reads_only, same_page. cbn.
  repeat split; try reflexivity; auto. quiet_now.
Qed.

Lemma console_error_reads_only text : preserves reads_only (console_error text).
Proof.
  intros w. unfold reads_only, same_page. cbn.
  repeat split; try reflexivity; auto. quiet_now.
Qed.

Ltac reads_only_go :=
  repeat first
    [ apply (preserves_ret reads_only)
    | apply (preserves_throw reads_only)
    | apply (preserves_get_world reads_only)
    | apply loadMemories_reads_only
    | apply console_log_reads_only
    | apply console_error_reads_only
    | apply (preserves_when reads_only)
    | apply (preserves_bind reads_only); [|intros ?]
    | apply (preserves_try_catch reads_only); [|intros ?]
    | match goal with
      | |- preserves _ (match ?x with _ => _ end) => destruct x
      end ].

Lemma log_reads_only message : preserves reads_only (Index.log message).
Proof. unfold Index.log. reads_only_go. Qed.

Lemma getMemories_reads_only c : preserves reads_only (Storage.getMemories c).
Proof. unfold Storage.getMemories. reads_only_go. Qed.

Lemma getRecentSummaries_reads_only c n : preserves reads_only (Index.getRecentSummaries c n).
Proof.
  unfold Index.getRecentSummaries.
  apply (preserves_try_catch reads_only); [|intros e; reads_only_go].
  apply (preserves_bind reads_only); [apply getMemories_reads_only|].
  intros ms. reads_only_go.
Qed.

Lemma gatherContext_reads_only m r c : preserves reads_only (Index.gatherContext m r c).
Proof.
  unfold Index.gatherContext.
  apply (preserves_bind reads_only); [apply preserves_get_world; typeclasses eauto|].
  intros w0. apply (preserves_bind reads_only).
  - destruct (include_history (settings w0)), (Index.truthy_id c);
      first [apply getRecentSummaries_reads_only | reads_only_go].
  - intros sh. reads_only_go.
Qed.

Lemma updateMemoryStats_run w :
  exists w', Index.updateMemoryStats w = (Return tt, w') /\ reads_only w w'.
Proof.
  unfold Index.updateMemoryStats, bind at 1, get_world.
  destruct (Index.truthy_id (host w)) as [c|].
  - unfold try_catch, bind at 1, Storage.getStats.
    pose proof (loadMemories_reads_only c "" w) as Hr.
    destruct (loadMemories_run c "" w) as (data & w' & E & _).
    rewrite E in Hr. cbn [snd] in Hr.
    erewrite bind_Return by exact E. exists (next_tick w'). split; [reflexivity|].
    etransitivity; [exact Hr|]. unfold reads_only, same_page. cbn.
    repeat split; try reflexivity; auto. quiet_now.
  - exists w. split; [reflexivity|reflexivity].
Qed.

End ReadingFacts.

Section WritePathFacts.
Import Runtime.

(** The record the pipeline hands to [addMemory]. *)
Definition record_of (messageText role : string) (context : Context) (summary : string)
    (embedding : list JS.number) : PartialMemory :=
  Storage.createMemory messageText summary embedding
    {| Storage.arg_role := Some role; Storage.arg_chatId := context_chatId context |}.

Lemma log_run message w :
  exists w', Index.log message w = (Return tt, w') /\ reads_only w w'.
Proof.
  unfold Index.log, bind, get_world, when.
  destruct (debug_mode (settings w)).
  - eexists. split; [reflexivity|]. apply (console_log_reads_only _ w).
  - exists w. split; reflexivity.
Qed.

Lemma pipeline_summarize_fails m role ctx sc w rs w1 :
  Summarizer.summarize m sc w = (rs, w1) ->
  (rs = Return EmptyString \/ exists e, rs = Throw e) ->
  exists e, Index.pipeline m role ctx sc w = (Throw e, w1).
Proof.
  intros E [-> | [e ->]]; unfold Index.pipeline.
  - erewrite bind_Return by exact E. eexists. reflexivity.
  - erewrite bind_Throw by exact E. eexists. reflexivity.
Qed.

Lemma pipeline_embed_fails m role ctx sc w s w1 re w2 :
  Summarizer.summarize m sc w = (Return s, w1) -> JS.truthy s = true ->
  VoyageAI.embedDocument s w1 = (re, w2) ->
  (re = Return [] \/ exists e, re = Throw e) ->
  exists e, Index.pipeline m role ctx sc w = (Throw e, w2).
Proof.
  intros E Hs E2 [-> | [e ->]]; unfold Index.pipeline;
    erewrite bind_Return by exact E; rewrite Hs; cbn [negb];
    unfold bind at 1, ret.
  - erewrite bind_Return by exact E2. eexists. reflexivity.
  - erewrite bind_Throw by exact E2. eexists. reflexivity.
Qed.

Lemma pipeline_no_character m role ctx sc w s w1 emb w2 :
  Summarizer.summarize m sc w = (Return s, w1) -> JS.truthy s = true ->
  VoyageAI.embedDocument s w1 = (Return emb, w2) -> emb <> [] ->
  characterId ctx = None ->
  exists e, Index.pipeline m role ctx sc w = (Throw e, w2).
Proof.
  intros E Hs E2 Hemb Hc. unfold Index.pipeline.
  erewrite bind_Return by exact E. rewrite Hs. cbn [negb]. unfold bind at 1, ret.
  erewrite bind_Return by exact E2.
  destruct emb as [|x emb]; [contradiction|]. cbn [length Nat.eqb]. unfold bind at 1, ret.
  unfold bind at 1, Index.addMemory_for. rewrite Hc. eexists. reflexivity.
Qed.

Lemma pipeline_stores m role ctx sc w s w1 emb w2 c nm w3 :
  Summarizer.summarize m sc w = (Return s, w1) -> JS.truthy s = true ->
  VoyageAI.embedDocument s w1 = (Return emb, w2) -> emb <> [] ->
  characterId ctx = Some c ->
  Storage.addMemory c (record_of m role ctx s emb) w2 = (Return nm, w3) ->
  exists wq text,
    reads_only w3 wq
    /\ Index.pipeline m role ctx sc w = (Return tt, emit (EvToast ToastSuccess text) wq).
Proof.
  intros E Hs E2 Hemb Hc E3. unfold Index.pipeline.
  erewrite bind_Return by exact E. rewrite Hs. cbn [negb]. unfold bind at 1, ret.
  erewrite bind_Return by exact E2.
  destruct emb as [|x emb]; [contradiction|]. cbn [length Nat.eqb]. unfold bind at 1, ret.
  unfold Index.addMemory_for. rewrite Hc. fold (record_of m role ctx s (x :: emb)).
  erewrite bind_Return by exact E3.
  destruct (log_run ("Stored memory for " ++ role ++ ": " ++ String.substring 0 50 s ++ "...") w3)
    as (wl & El & Hl).
  erewrite bind_Return by exact El.
  destruct (updateMemoryStats_run wl) as (wq & Eq & Hq).
  erewrite bind_Return by exact Eq.
  exists wq, "Memory stored successfully". split; [|reflexivity].
  etransitivity; eassumption.
Qed.


(** What a run of the write path leaves when it stored a record: the
    store of the character ends with a record made of the message, the
    summary and the embedding. *)
Definition stored_record (messageText speaker : string) (context : Context)
    (s : string) (emb : list JS.number) (w' : World) : Prop :=
  exists c data newMemory,
    characterId context = Some c
    /\ cache w' !! c = Some data
    /\ last (memories data) = Some newMemory
    /\ original_message newMemory = messageText
    /\ summary newMemory = s
    /\ embedding newMemory = Some (List.map JS.Num emb)
    /\ role (metadata newMemory) = speaker.

Definition summarizer_failed (r : Completion string) : Prop :=
  r = Return EmptyString \/ exists e, r = Throw e.

Definition embedder_failed (r : Completion (list JS.number)) : Prop :=
  r = Return [] \/ exists e, r = Throw e.

Lemma truthy_false s : JS.truthy s = false -> s = EmptyString.
Proof. destruct s; [reflexivity|discriminate]. Qed.

Lemma pipeline_run m role ctx sc w :
  exists r w' events,
    Index.pipeline m role ctx sc w = (r, w')
    /\ emitted w w' events /\ same_page w w'
    /\ match r with
       | Return _ =>
           stages events = [StageSummarize; StageEmbed; StageStore]
           /\ toasts events = [ToastSuccess]
           /\ (forall c d, cache w !! c = Some d -> characterId ctx <> Some c ->
                 cache w' !! c = Some d)
           /\ exists s emb, JS.truthy s = true /\ emb <> []
                            /\ stored_record m role ctx s emb w'
       | Throw _ =>
           (stages events = [] \/ stages events = [StageSummarize]
            \/ stages events = [StageSummarize; StageEmbed])
           /\ toasts events = []
           /\ cache w' = cache w /\ localStorage w' = localStorage w
       end
    /\ (forall rs w1, Summarizer.summarize m sc w = (rs, w1) -> summarizer_failed rs ->
          (exists e, r = Throw e)
          /\ (stages events = [] \/ stages events = [StageSummarize]))
    /\ (forall s w1 re w2,
          Summarizer.summarize m sc w = (Return s, w1) -> JS.truthy s = true ->
          VoyageAI.embedDocument s w1 = (re, w2) -> embedder_failed re ->
          (exists e, r = Throw e)
          /\ (stages events = [StageSummarize] \/ stages events = [StageSummarize; StageEmbed]))
    /\ (forall s w1 emb w2 c,
          Summarizer.summarize m sc w = (Return s, w1) -> JS.truthy s = true ->
          VoyageAI.embedDocument s w1 = (Return emb, w2) -> emb <> [] ->
          characterId ctx = Some c ->
          r = Return tt /\ stored_record m role ctx s emb w').
Proof.
  destruct (summarize_run m sc w)
    as (rs & w1 & ev1 & E1 & Hem1 & Ht1 & Hc1 & Hl1 & Hp1 & Hst1 & Hok1).
  assert (Hfail1 : summarizer_failed rs \/ exists s, rs = Return s /\ JS.truthy s = true).
  { destruct rs as [s|e]; [|left; right; eauto].
    destruct (JS.truthy s) eqn:Hs; [right; eauto|].
    left. left. apply truthy_false in Hs. congruence. }
  destruct Hfail1 as [Hf1 | (s & -> & Hs)].
  { destruct (pipeline_summarize_fails m role ctx sc w rs w1 E1 Hf1) as (e & Ep).
    exists (Throw e), w1, ev1. split; [exact Ep|]. split; [exact Hem1|]. split; [exact Hp1|].
    split; [|split; [|split]].
    - repeat split; try assumption. destruct Hst1; auto.
    - intros rs' w1' E' _. split; [eauto|exact Hst1].
    - intros s' w1' re w2 E' Hs' _ _. rewrite E1 in E'. injection E' as -> _.
      destruct Hf1 as [[= ->] | [e' [=]]]. discriminate.
    - intros s' w1' emb w2 c E' Hs' _ _ _. rewrite E1 in E'. injection E' as -> _.
      destruct Hf1 as [[= ->] | [e' [=]]]. discriminate. }
  specialize (Hok1 s eq_refl Hs).
  destruct (embedDocument_run s w1)
    as (re & w2 & ev2 & E2 & Hem2 & Ht2 & Hc2 & Hl2 & Hp2 & Hst2 & Hok2).
  assert (Hem12 : emitted w w2 (ev1 ++ ev2)) by (eapply emitted_trans; eassumption).
  assert (Hp12 : same_page w w2) by (etransitivity; eassumption).
  assert (Hst12 : stages (ev1 ++ ev2) = [StageSummarize]
                  \/ stages (ev1 ++ ev2) = [StageSummarize; StageEmbed]).
  { rewrite stages_app, Hok1. destruct Hst2 as [-> | ->]; auto. }
  assert (Ht12 : toasts (ev1 ++ ev2) = []) by (rewrite toasts_app, Ht1, Ht2; reflexivity).
  assert (Hnot1 : forall rs' w1', Summarizer.summarize m sc w = (rs', w1') ->
                    summarizer_failed rs' -> False).
  { intros rs' w1' E' Hf. rewrite E1 in E'. injection E' as <- _.
    destruct Hf as [[= ->] | [e' [=]]]. discriminate. }
  assert (Hfail2 : embedder_failed re \/ exists emb, re = Return emb /\ emb <> []).
  { destruct re as [[|x emb]|e]; [left; left; reflexivity|right|left; right; eauto].
    exists (x :: emb). split; [reflexivity|discriminate]. }
  destruct Hfail2 as [Hf2 | (emb & -> & Hemb)].
  { destruct (pipeline_embed_fails m role ctx sc w s w1 re w2 E1 Hs E2 Hf2) as (e & Ep).
    exists (Throw e), w2, (ev1 ++ ev2).
    split; [exact Ep|]. split; [exact Hem12|]. split; [exact Hp12|]. split; [|split; [|split]].
    - repeat split; try assumption; try congruence. destruct Hst12; auto.
    - intros rs' w1' E' Hf. destruct (Hnot1 rs' w1' E' Hf).
    - intros s' w1' re' w2' E' _ _ _. split; [eauto|exact Hst12].
    - intros s' w1' emb w2' c E' _ E2' Hemb _. rewrite E1 in E'. injection E' as <- <-.
      rewrite E2 in E2'. injection E2' as -> _.
      destruct Hf2 as [[= ->] | [e' [=]]]. contradiction. }
  assert (Hlen : length emb <> 0) by (destruct emb; [contradiction|discriminate]).
  specialize (Hok2 emb eq_refl Hlen).
  assert (Hnot2 : forall s' w1' re' w2',
             Summarizer.summarize m sc w = (Return s', w1') ->
             VoyageAI.embedDocument s' w1' = (re', w2') -> embedder_failed re' -> False).
  { intros s' w1' re' w2' E' E2' Hf. rewrite E1 in E'. injection E' as <- <-.
    rewrite E2 in E2'. injection E2' as <- _.
    destruct Hf as [[= ->] | [e' [=]]]. contradiction. }
  destruct (characterId ctx) as [c|] eqn:Hcid.
  2:{ destruct (pipeline_no_character m role ctx sc w s w1 emb w2 E1 Hs E2 Hemb Hcid) as (e & Ep).
      exists (Throw e), w2, (ev1 ++ ev2).
      split; [exact Ep|]. split; [exact Hem12|]. split; [exact Hp12|].
      split; [|split; [|split]].
      - rewrite stages_app, Hok1, Hok2. repeat split; try assumption; try congruence. auto.
      - intros rs' w1' E' Hf. destruct (Hnot1 rs' w1' E' Hf).
      - intros s' w1' re' w2' E' _ E2' Hf. destruct (Hnot2 s' w1' re' w2' E' E2' Hf).
      - intros s' w1' emb' w2' c' _ _ _ _ [=]. }
  destruct (addMemory_run c (record_of m role ctx s emb) w2)
    as (data0 & w0 & uuid & wu & nm & data' & w3 & _ & _ & E3 & Hnm & Hc3 & Hm3 & Hp3 & _
        & (ev3 & Hem3 & Hst3 & Ht3)).
  destruct (pipeline_stores m role ctx sc w s w1 emb w2 c nm w3 E1 Hs E2 Hemb Hcid E3)
    as (wq & text & (Hpq & _ & Hkeep & _ & (evq & Hemq & Hstq & Htq)) & Ep).
  assert (Hrec : stored_record m role ctx s emb (emit (EvToast ToastSuccess text) wq)).
  { exists c, data', nm. cbn.
    split; [exact Hcid|]. split; [apply Hkeep; rewrite Hc3; apply lookup_insert_eq|].
    split; [rewrite Hm3; apply last_snoc|].
    rewrite Hnm. cbn. repeat split; reflexivity. }
  exists (Return tt), (emit (EvToast ToastSuccess text) wq),
    (ev1 ++ ev2 ++ ev3 ++ evq ++ [EvToast ToastSuccess text]).
  split; [exact Ep|]. split; [|split; [|split; [|split; [|split]]]].
  - unfold emitted in *. cbn. rewrite Hemq, Hem3, Hem2, Hem1, <- !app_assoc. reflexivity.
  - etransitivity; [exact Hp12|]. etransitivity; [exact Hp3|].
    destruct Hpq as (Q1 & Q2 & Q3 & Q4 & Q5 & Q6). unfold same_page. cbn.
    repeat split; assumption.
  - rewrite !stages_app, !toasts_app, Hok1, Hok2, Hst3, Hstq, Ht1, Ht2, Ht3, Htq.
    split; [reflexivity|]. split; [reflexivity|]. split.
    + intros c' d Hd Hne. cbn. apply Hkeep. rewrite Hc3, lookup_insert_ne by congruence.
      rewrite Hc2, Hc1. exact Hd.
    + exists s, emb. split; [exact Hs|]. split; [exact Hemb|exact Hrec].
  - intros rs' w1' E' Hf. destruct (Hnot1 rs' w1' E' Hf).
  - intros s' w1' re' w2' E' _ E2' Hf. destruct (Hnot2 s' w1' re' w2' E' E2' Hf).
  - intros s' w1' emb' w2' c' E' _ E2' _ _. rewrite E1 in E'. injection E' as <- <-.
    rewrite E2 in E2'. injection E2' as <- _. split; [reflexivity|exact Hrec].
Qed.


(** What a run of the write path leaves when it failed: [localStorage]
    and the stores of the cache are as they were, and a store that
    appeared in the cache is what [loadMemories] made of the character's
    file. *)
Definition no_record_added (w w' : World) : Prop :=
  localStorage w' = localStorage w
  /\ (forall c d, cache w !! c = Some d -> cache w' !! c = Some d)
  /\ (forall c d, cache w' !! c = Some d ->
        cache w !! c = Some d \/ loaded_from (env w) c d).

(** What the [catch] block does with the error it caught: the error
    goes to the console and its message to one notification. These are
    the last two events of the call. *)
Definition error_reported (events : list Event) : Prop :=
  exists before message,
    events = before ++ [EvConsoleError ("[VoyageAI Memory] Processing error: " ++ message);
                        EvToast ToastError ("Failed to process message: " ++ message)].

(** The two ways a run of the write path ends. *)
Definition stored_outcome (messageText speaker : string) (context : Context)
    (w w' : World) (events : list Event) : Prop :=
  stages events = [StageSummarize; StageEmbed; StageStore]
  /\ toasts events = [ToastSuccess]
  /\ exists s emb, JS.truthy s = true /\ emb <> []
                   /\ stored_record messageText speaker context s emb w'.

Definition failed_outcome (w w' : World) (events : list Event) : Prop :=
  (stages events = [] \/ stages events = [StageSummarize]
   \/ stages events = [StageSummarize; StageEmbed])
  /\ toasts events = [ToastError]
  /\ error_reported events
  /\ no_record_added w w'.

Lemma rest_run m speaker ctx w :
  exists w' events,
    Index.processAndStoreMessage_rest m speaker ctx w = (Return tt, w')
    /\ emitted w w' events /\ isProcessing w' = false
    /\ (stored_outcome m speaker ctx w w' events \/ failed_outcome w w' events)
    /\ (forall sc wg rs w1,
          Index.gatherContext m speaker ctx w = (Return sc, wg) ->
          Summarizer.summarize m sc wg = (rs, w1) -> summarizer_failed rs ->
          failed_outcome w w' events
          /\ (stages events = [] \/ stages events = [StageSummarize]))
    /\ (forall sc wg s w1 re w2,
          Index.gatherContext m speaker ctx w = (Return sc, wg) ->
          Summarizer.summarize m sc wg = (Return s, w1) -> JS.truthy s = true ->
          VoyageAI.embedDocument s w1 = (re, w2) -> embedder_failed re ->
          failed_outcome w w' events
          /\ (stages events = [StageSummarize]
              \/ stages events = [StageSummarize; StageEmbed]))
    /\ (forall sc wg s w1 emb w2 c,
          Index.gatherContext m speaker ctx w = (Return sc, wg) ->
          Summarizer.summarize m sc wg = (Return s, w1) -> JS.truthy s = true ->
          VoyageAI.embedDocument s w1 = (Return emb, w2) -> emb <> [] ->
          characterId ctx = Some c ->
          stages events = [StageSummarize; StageEmbed; StageStore]
          /\ toasts events = [ToastSuccess]
          /\ stored_record m speaker ctx s emb w').
Proof.
  pose proof (gatherContext_reads_only m speaker ctx w) as Hg.
  unfold Index.processAndStoreMessage_rest, try_finally.
  destruct (Index.gatherContext m speaker ctx w) as [rg wg] eqn:Eg. cbn [snd] in Hg.
  destruct Hg as (Hpg & Hlg & Hkg & Hng & (evg & Hemg & Hstg & Htg)).
  destruct rg as [sc|e].
  - destruct (pipeline_run m speaker ctx sc wg)
      as (r & wp & evp & Ep & Hemp & Hpp & Hr & Hsf & Hef & Hgood).
    destruct r as [[]|e].
    + destruct Hr as (Hst & Hto & _ & Hrec).
      unfold try_catch. erewrite bind_Return by exact Eg. rewrite Ep.
      eexists _, (evg ++ evp). split; [reflexivity|].
      split; [unfold emitted in *; cbn; rewrite Hemp, Hemg, app_assoc; reflexivity|].
      split; [reflexivity|].
      assert (Hstages : stages (evg ++ evp) = [StageSummarize; StageEmbed; StageStore]).
      { rewrite stages_app, Hstg, Hst. reflexivity. }
      assert (Htoasts : toasts (evg ++ evp) = [ToastSuccess]).
      { rewrite toasts_app, Htg, Hto. reflexivity. }
      assert (Hout : stored_outcome m speaker ctx w (set_isProcessing false wp) (evg ++ evp)).
      { unfold stored_outcome. split; [exact Hstages|]. split; [exact Htoasts|]. exact Hrec. }
      split; [left; exact Hout|]. split; [|split].
      * intros sc' wg' rs w1 [= <- <-] E1 Hf. destruct (Hsf rs w1 E1 Hf) as [[e [=]] _].
      * intros sc' wg' s w1 re w2 [= <- <-] E1 Hs E2 Hf.
        destruct (Hef s w1 re w2 E1 Hs E2 Hf) as [[e [=]] _].
      * intros sc' wg' s w1 emb w2 c [= <- <-] E1 Hs E2 Hemb Hc.
        destruct (Hgood s w1 emb w2 c E1 Hs E2 Hemb Hc) as [_ Hrec'].
        split; [exact Hstages|]. split; [exact Htoasts|]. exact Hrec'.
    + destruct Hr as (Hst & Hto & Hcp & Hlp).
      unfold try_catch. erewrite bind_Return by exact Eg. rewrite Ep.
      eexists _, (evg ++ evp ++ [_; _]). split; [reflexivity|].
      split; [unfold emitted in *; cbn; rewrite Hemp, Hemg, <- !app_assoc; reflexivity|].
      split; [reflexivity|].
      assert (Hstages : stages (evg ++ evp ++
                [EvConsoleError ("[VoyageAI Memory] Processing error: " ++ err_message e);
                 EvToast ToastError ("Failed to process message: " ++ err_message e)])
              = stages evp).
      { rewrite !stages_app, Hstg. cbn. apply app_nil_r. }
      assert (Hout : failed_outcome w
                (set_isProcessing false
                   (emit (EvToast ToastError ("Failed to process message: " ++ err_message e))
                      (emit (EvConsoleError
                               ("[VoyageAI Memory] Processing error: " ++ err_message e)) wp)))
                (evg ++ evp ++
                   [EvConsoleError ("[VoyageAI Memory] Processing error: " ++ err_message e);
                    EvToast ToastError ("Failed to process message: " ++ err_message e)])).
      { unfold failed_outcome. rewrite Hstages. split; [exact Hst|]. split; [|split].
        - rewrite !toasts_app, Htg, Hto. reflexivity.
        - exists (evg ++ evp), (err_message e). rewrite <- app_assoc. reflexivity.
        - unfold no_record_added. cbn. rewrite Hcp, Hlp.
          split; [exact Hlg|]. split; assumption. }
      split; [right; exact Hout|]. split; [|split].
      * intros sc' wg' rs w1 [= <- <-] E1 Hf. split; [exact Hout|].
        rewrite Hstages. apply (Hsf rs w1 E1 Hf).
      * intros sc' wg' s w1 re w2 [= <- <-] E1 Hs E2 Hf. split; [exact Hout|].
        rewrite Hstages. apply (Hef s w1 re w2 E1 Hs E2 Hf).
      * intros sc' wg' s w1 emb w2 c [= <- <-] E1 Hs E2 Hemb Hc.
        destruct (Hgood s w1 emb w2 c E1 Hs E2 Hemb Hc) as [[=] _].
  - unfold try_catch. erewrite bind_Throw by exact Eg.
    eexists _, (evg ++ [_; _]). split; [reflexivity|].
    split; [unfold emitted in *; cbn; rewrite Hemg, <- !app_assoc; reflexivity|].
    split; [reflexivity|]. split; [|split; [|split]].
    + right. unfold failed_outcome. rewrite stages_app, toasts_app, Hstg, Htg.
      split; [left; reflexivity|]. split; [reflexivity|]. split.
      * exists evg, (err_message e). reflexivity.
      * unfold no_record_added. cbn. split; [exact Hlg|]. split; assumption.
    + intros sc' wg' rs w1 [=].
    + intros sc' wg' s w1 re w2 [=].
    + intros sc' wg' s w1 emb w2 c [=].
Qed.






End WritePathFacts.

(** ** The single-flight guard *)

Section SingleFlightFacts.
Import Runtime SingleFlight.




(** What a dropped call leaves: nothing but, in debug mode, a line on
    the console. *)
Definition dropped (w w' : World) : Prop :=
  quiet w w' /\ cache w' = cache w /\ localStorage w' = localStorage w
  /\ isProcessing w' = isProcessing w /\ tick w' = tick w.

Lemma log_dropped message w :
  exists w', Index.log message w = (Return tt, w') /\ dropped w w'.
Proof.
  unfold Index.log, bind, get_world, when, dropped.
  destruct (debug_mode (settings w)).
  - eexists. split; [reflexivity|]. cbn. repeat split; try reflexivity. quiet_now.
  - exists w. split; [reflexivity|]. repeat split; try reflexivity. apply quiet_refl.
Qed.

Lemma start_run messageText w :
  (isProcessing w = true \/ Index.too_short messageText = true ->
   exists w', Index.processAndStoreMessage_start messageText w = (Return false, w')
              /\ dropped w w')
  /\ (isProcessing w = false -> Index.too_short messageText = false ->
      Index.processAndStoreMessage_start messageText w
      = (Return true, set_isProcessing true w)).
Proof.
  split.
  - intros H. unfold Index.processAndStoreMessage_start, bind at 1, get_world.
    cbv beta. destruct (isProcessing w) eqn:Hf.
    + destruct (log_dropped "Already processing, skipping message" w) as (w' & E & Hd).
      exists w'. erewrite bind_Return by exact E. split; [reflexivity|exact Hd].
    + destruct H as [H|H]; [discriminate|]. rewrite H.
      destruct (log_dropped "Message too short, skipping" w) as (w' & E & Hd).
      exists w'. erewrite bind_Return by exact E. split; [reflexivity|exact Hd].
  - intros Hf Hs. unfold Index.processAndStoreMessage_start, bind at 1, get_world.
    cbv beta. rewrite Hf, Hs. reflexivity.
Qed.



















End SingleFlightFacts.

(* ===================================================================== *)
(** * Part III: the rest of the code *)
(* ===================================================================== *)

(** ** More of the store *)

Section StoreFacts.
Import Runtime Storage.

Lemma sanitize_length s : String.length (sanitize s) = String.length s.
Proof. induction s as [|c s IH]; simpl; congruence. Qed.

Lemma sanitize_safe s :
  forallb is_safe_char (list_ascii_of_string (sanitize s)) = true.
Proof.
  induction s as [|c s IH]; [reflexivity|].
  simpl. rewrite IH, andb_true_r.
  destruct (is_safe_char c) eqn:E; [exact E|reflexivity].
Qed.

Lemma sanitize_fixes_safe s :
  forallb is_safe_char (list_ascii_of_string s) = true -> sanitize s = s.
Proof.
  induction s as [|c s IH]; [reflexivity|].
  simpl. intros H. apply andb_true_iff in H as [Hc Hs].
  rewrite Hc, (IH Hs). reflexivity.
Qed.

(** X1. The file of a character is [<dataPath>/<name>.json], where
    [name] has as many characters as the id, all of them letters,
    digits, [_] or [-]: no slash and no dot of an id reaches the path.
    An id made of such characters only is its own name. *)
Theorem getFilePath_safe characterId :
  exists name,
    getFilePath characterId = (dataPath ++ "/" ++ name ++ ".json")%string
    /\ String.length name = String.length characterId
    /\ forallb is_safe_char (list_ascii_of_string name) = true
    /\ (forallb is_safe_char (list_ascii_of_string characterId) = true ->
        name = characterId).
Proof.
  exists (sanitize characterId). split; [reflexivity|].
  split; [apply sanitize_length|]. split; [apply sanitize_safe|apply sanitize_fixes_safe].
Qed.

(** X2. Once a character's store has been loaded, every further load
    (and [getMemories]) of that character is answered from the cache:
    the same store comes back, whatever name is given, and the world
    stays as it is, so no second request for the file is made. *)
Theorem loadMemories_cached characterId characterName otherName w :
  exists data w',
    loadMemories characterId characterName w = (Return data, w')
    /\ loadMemories characterId otherName w' = (Return data, w')
    /\ getMemories characterId w' = (Return (memories data), w').
Proof.
  destruct (loadMemories_run characterId characterName w)
    as (data & w' & E & Hc & _).
  assert (Hhit : cache w' !! characterId = Some data).
  { rewrite Hc. apply lookup_insert_eq. }
  assert (Hagain : forall n, loadMemories characterId n w' = (Return data, w')).
  { intros n. unfold loadMemories, bind at 1, cache_get. rewrite Hhit. reflexivity. }
  exists data, w'. split; [exact E|]. split; [apply Hagain|].
  unfold getMemories. erewrite bind_Return by apply Hagain. reflexivity.
Qed.

(** The reply of the file server is of no use: the request failed, the
    status is not OK, or the body is not JSON. *)
Definition unusable (o : FetchOutcome StoreData) : bool :=
  match o with
  | Rejected _ => true
  | Resolved r => negb (resp_ok r) || negb (bool_decide (is_Some (resp_json r)))
  end.

(** The requests for a file in a list of events. *)
Definition file_of (e : Event) : option string :=
  match e with EvFetchFile path => Some path | _ => None end.

Lemma loadMemories_miss_run characterId characterName w :
  cache w !! characterId = None ->
  exists data w' events,
    loadMemories characterId characterName w = (Return data, w')
    /\ emitted w w' events
    /\ omap file_of events = [getFilePath characterId]
    /\ cache w' = <[characterId := data]> (cache w)
    /\ (if unusable (file_server (env w) (tick w) (getFilePath characterId))
        then character_id data = characterId /\ character_name data = characterName
             /\ memories data = []
        else exists r, file_server (env w) (tick w) (getFilePath characterId) = Resolved r
                       /\ resp_json r = Some data).
Proof.
  intros Hmiss. unfold loadMemories, bind at 1, cache_get. rewrite Hmiss.
  unfold bind at 1, try_catch, bind at 1, fetch, unusable.
  destruct (file_server (env w) (tick w) (getFilePath characterId)) as [reason|r].
  { eexists _, _, _. split; [reflexivity|]. split; [emitted_now|].
    cbn. repeat split; reflexivity. }
  destruct (resp_ok r) eqn:Hok; cbn [negb orb].
  - unfold bind at 1, response_json. destruct (resp_json r) as [d|] eqn:Hj.
    + eexists _, _, _. split; [reflexivity|]. split; [emitted_now|].
      cbn. split; [reflexivity|]. split; [reflexivity|].
      exists r. split; [reflexivity|exact Hj].
    + eexists _, _, _. split; [reflexivity|]. split; [emitted_now|].
      cbn. repeat split; reflexivity.
  - eexists _, _, _. split; [reflexivity|]. split; [emitted_now|].
    cbn. repeat split; reflexivity.
Qed.

(** X3. On a cache miss [loadMemories] asks once for the character's
    file and never fails. When the file cannot be used (the request
    fails, the status is not OK, or the body is not JSON) the result is
    a new store without memories that carries the id and the name
    given; otherwise it is the store of the file. Either way the result
    is cached under the id. *)
Theorem loadMemories_miss characterId characterName w :
  cache w !! characterId = None ->
  exists data w' events,
    loadMemories characterId characterName w = (Return data, w')
    /\ emitted w w' events
    /\ omap file_of events = [getFilePath characterId]
    /\ cache w' = <[characterId := data]> (cache w)
    /\ (if unusable (file_server (env w) (tick w) (getFilePath characterId))
        then character_id data = characterId /\ character_name data = characterName
             /\ memories data = []
        else exists r, file_server (env w) (tick w) (getFilePath characterId) = Resolved r
                       /\ resp_json r = Some data).
Proof. apply loadMemories_miss_run. Qed.

(** A world without a cached store, whose file server answers 404. *)
Lemma loadMemories_miss_witness :
  exists data w' events,
    loadMemories "alice" "Alice" (page (constant_env failed_to_fetch failed_to_fetch false) ∅)
    = (Return data, w')
    /\ emitted (page (constant_env failed_to_fetch failed_to_fetch false) ∅) w' events
    /\ omap file_of events = [getFilePath "alice"]
    /\ character_id data = "alice" /\ character_name data = "Alice"
    /\ memories data = [].
Proof.
  assert (Hmiss : cache (page (constant_env failed_to_fetch failed_to_fetch false) ∅)
                  !! "alice" = None) by (vm_compute; reflexivity).
  destruct (loadMemories_miss "alice" "Alice"
              (page (constant_env failed_to_fetch failed_to_fetch false) ∅) Hmiss)
    as (data & w' & events & E & He & Hf & _ & H).
  exists data, w', events. cbn in H. destruct H as (H1 & H2 & H3).
  repeat split; assumption.
Defined.

(** X4. Nothing reads [localStorage]: what [loadMemories] returns and
    what it leaves in the cache are the same whatever [localStorage]
    holds. What [saveMemories] wrote there is not what a later load
    finds. *)
Theorem localStorage_never_read characterId characterName contents w :
  fst (loadMemories characterId characterName (set_localStorage (fun _ => contents) w))
  = fst (loadMemories characterId characterName w)
  /\ cache (snd (loadMemories characterId characterName
                   (set_localStorage (fun _ => contents) w)))
     = cache (snd (loadMemories characterId characterName w)).
Proof.
  unfold loadMemories, console_log, bind, cache_get, try_catch, fetch, response_json,
    cache_set, update, ret, throw, Date_now.
  cbv beta zeta.
  change (cache (set_localStorage (fun _ => contents) w)) with (cache w).
  destruct (cache w !! characterId) as [d|]; [split; reflexivity|].
  cbv beta iota zeta.
  change (env (set_localStorage (fun _ => contents) w)) with (env w).
  change (tick (set_localStorage (fun _ => contents) w)) with (tick w).
  destruct (file_server (env w) (tick w) (getFilePath characterId)) as [reason|r];
    [split; reflexivity|].
  cbv beta iota zeta.
  destruct (resp_ok r); [|split; reflexivity].
  cbv beta iota zeta.
  destruct (resp_json r) as [d|]; split; reflexivity.
Qed.


(** What [deleteMemory] keeps. *)
Definition other_than (memoryId : string) (m : MemoryRecord) : bool :=
  negb (String.eqb (id m) memoryId).

Lemma filter_shorter {A} (f : A -> bool) (l : list A) :
  length (List.filter f l) <= length l
  /\ (Nat.ltb (length (List.filter f l)) (length l) = existsb (fun x => negb (f x)) l).
Proof.
  induction l as [|x l [IH1 IH2]]; [split; reflexivity|].
  simpl. destruct (f x); simpl.
  - split; [lia|]. rewrite <- IH2. reflexivity.
  - split; [lia|]. apply Nat.ltb_lt. lia.
Qed.

Lemma filter_all {A} (f : A -> bool) (l : list A) :
  (forall x, In x l -> f x = true) -> List.filter f l = l.
Proof.
  induction l as [|x l IH]; intros H; [reflexivity|].
  simpl. rewrite (H x) by (left; reflexivity). f_equal. apply IH.
  intros y Hy. apply H. right. exact Hy.
Qed.

Lemma has_id_iff memoryId (l : list MemoryRecord) :
  existsb (fun m => negb (other_than memoryId m)) l = true
  <-> memoryId ∈ List.map id l.
Proof.
  rewrite existsb_exists. split.
  - intros (m & Hm & H). unfold other_than in H. rewrite negb_involutive in H.
    apply String.eqb_eq in H. subst memoryId. apply list_elem_of_In, in_map, Hm.
  - intros H. apply list_elem_of_In, in_map_iff in H as (m & <- & Hm).
    exists m. split; [exact Hm|]. unfold other_than.
    rewrite negb_involutive. apply String.eqb_refl.
Qed.

Lemma other_than_absent memoryId (l : list MemoryRecord) :
  memoryId ∉ List.map id (List.filter (other_than memoryId) l).
Proof.
  intros H. apply list_elem_of_In, in_map_iff in H as (m & <- & Hm).
  apply filter_In in Hm as [_ Hm]. unfold other_than in Hm.
  rewrite String.eqb_refl in Hm. discriminate.
Qed.

Lemma deleteMemory_run characterId memoryId w :
  exists data0 w0 data' deleted w',
    loadMemories characterId "" w = (Return data0, w0)
    /\ deleteMemory characterId memoryId w = (Return deleted, w')
    /\ cache w' = <[characterId := data']> (cache w)
    /\ memories data' = List.filter (other_than memoryId) (memories data0)
    /\ same_page w w'
    /\ deleted = existsb (fun m => negb (other_than memoryId m)) (memories data0)
    /\ (deleted = false -> localStorage w' = localStorage w /\ quiet w w')
    /\ (localStorage w' = localStorage w
        \/ localStorage w' = <[storageKey characterId := JSON_stringify data']> (localStorage w)).
Proof.
  destruct (loadMemories_run characterId "" w)
    as (data0 & w0 & Eload & Hc0 & Hl0 & Hp0 & Hq0 & _).
  set (data1 := set_memories data0 (List.filter (other_than memoryId) (memories data0))).
  set (w1 := set_cache (insert characterId data1) w0).
  destruct (filter_shorter (other_than memoryId) (memories data0)) as [_ Hlt].
  assert (Estart :
             deleteMemory characterId memoryId w
             = (if Nat.ltb (length (memories data1)) (length (memories data0))
                then bind (saveMemories characterId data1) (fun _ => ret true)
                else ret false) w1).
  { unfold deleteMemory. erewrite bind_Return by exact Eload. reflexivity. }
  cbn [memories data1 set_memories] in Estart.
  destruct (existsb (fun m => negb (other_than memoryId m)) (memories data0)) eqn:Hex;
    rewrite Hlt in Estart.
  - destruct (saveMemories_run characterId data1 w1)
      as (saved & w' & Esave & Hc' & Hp' & _ & Hl').
    cbn zeta in Hc', Hl'.
    set (data' := set_updated_at data1 (clock (env w1) (tick w1))) in *.
    exists data0, w0, data', true, w'.
    split; [exact Eload|]. split.
    { rewrite Estart. erewrite bind_Return by exact Esave. reflexivity. }
    split. { rewrite Hc'. unfold w1. cbn [cache set_cache]. rewrite Hc0, !insert_insert_eq. reflexivity. }
    split; [reflexivity|]. split.
    { etransitivity; [exact Hp0|]. destruct Hp' as (Q1 & Q2 & Q3 & Q4 & Q5 & Q6).
      unfold same_page. repeat split; assumption. }
    split; [symmetry; exact Hex|]. split; [discriminate|].
    destruct (quota_exceeded (env w1) (S (tick w1))); destruct Hl' as [_ ->];
      unfold w1; cbn [localStorage set_cache]; rewrite Hl0; [left|right]; reflexivity.
  - exists data0, w0, data1, false, w1.
    split; [exact Eload|]. split; [exact Estart|].
    split. { unfold w1. cbn [cache set_cache]. rewrite Hc0, insert_insert_eq. reflexivity. }
    split; [reflexivity|]. split.
    { destruct Hp0 as (Q1 & Q2 & Q3 & Q4 & Q5 & Q6). unfold same_page. repeat split; assumption. }
    split; [symmetry; exact Hex|]. split; [|left; exact Hl0].
    intros _. split; [exact Hl0|].
    destruct Hq0 as (ev & He & Hs & Ht). exists ev. split; [exact He|split; assumption].
Qed.

(** X5. [deleteMemory] removes every record that has the id given and
    keeps the others in their order; it answers [true] exactly when the
    store had such a record. When it answers [false] the memories are
    as they were and nothing is written to [localStorage]. The stores
    of the other characters are not touched. *)
Theorem deleteMemory_removes characterId memoryId w :
  exists data0 w0 deleted w',
    loadMemories characterId "" w = (Return data0, w0)
    /\ deleteMemory characterId memoryId w = (Return deleted, w')
    /\ stored characterId w' = List.filter (other_than memoryId) (memories data0)
    /\ (memoryId ∉ List.map id (stored characterId w'))
    /\ (deleted = true <-> memoryId ∈ List.map id (memories data0))
    /\ (deleted = false ->
        stored characterId w' = memories data0
        /\ localStorage w' = localStorage w /\ quiet w w')
    /\ (forall other, other <> characterId -> cache w' !! other = cache w !! other).
Proof.
  destruct (deleteMemory_run characterId memoryId w)
    as (data0 & w0 & data' & deleted & w' & Eload & Edel & Hc & Hm & _ & Hd & Hno & _).
  exists data0, w0, deleted, w'.
  assert (Hs : stored characterId w' = List.filter (other_than memoryId) (memories data0)).
  { rewrite (stored_insert _ _ _ _ Hc). exact Hm. }
  split; [exact Eload|]. split; [exact Edel|]. split; [exact Hs|].
  split; [rewrite Hs; apply other_than_absent|].
  split; [rewrite Hd; apply has_id_iff|]. split.
  - intros Hf. destruct (Hno Hf) as [Hl Hq]. split; [|split; assumption].
    rewrite Hs. apply filter_all. intros m Hm'.
    destruct (other_than memoryId m) eqn:E; [reflexivity|].
    assert (Hex : existsb (fun m => negb (other_than memoryId m)) (memories data0) = true).
    { apply existsb_exists. exists m. rewrite E. split; [exact Hm'|reflexivity]. }
    congruence.
  - intros other Hne. rewrite Hc. apply lookup_insert_ne. congruence.
Qed.

Lemma clearMemories_run characterId w :
  exists w',
    clearMemories characterId w = (Return true, w')
    /\ stored characterId w' = []
    /\ (localStorage w' = localStorage w
        \/ exists data', memories data' = []
             /\ localStorage w'
                = <[storageKey characterId := JSON_stringify data']> (localStorage w))
    /\ (forall other, other <> characterId -> cache w' !! other = cache w !! other)
    /\ same_page w w'
    /\ (exists events, emitted w w' events /\ toasts events = [])
    /\ is_Some (cache w' !! characterId).
Proof.
  destruct (loadMemories_run characterId "" w)
    as (data0 & w0 & Eload & Hc0 & Hl0 & Hp0 & (ev0 & He0 & _ & Ht0) & _).
  set (data1 := set_memories data0 []).
  set (w1 := set_cache (insert characterId data1) w0).
  destruct (saveMemories_run characterId data1 w1)
    as (saved & w2 & Esave & Hc2 & Hp2 & (ev2 & He2 & _ & Ht2) & Hl2).
  cbn zeta in Hc2, Hl2.
  set (data' := set_updated_at data1 (clock (env w1) (tick w1))) in *.
  eexists. split.
  { unfold clearMemories. erewrite bind_Return by exact Eload.
    unfold bind at 1, mutate, bind at 1, cache_set, update, ret. fold data1. fold w1.
    erewrite bind_Return by exact Esave. reflexivity. }
  cbn [console_log update emit].
  assert (Hc : cache w2 = <[characterId := data']> (cache w)).
  { rewrite Hc2. unfold w1. cbn [cache set_cache]. rewrite Hc0, !insert_insert_eq. reflexivity. }
  split. { unfold stored. cbn [cache emit]. rewrite Hc, lookup_insert_eq. reflexivity. }
  split.
  { cbn [localStorage emit].
    destruct (quota_exceeded (env w1) (S (tick w1))); destruct Hl2 as [_ ->];
      unfold w1; cbn [localStorage set_cache]; rewrite Hl0.
    + left. reflexivity.
    + right. exists data'. split; reflexivity. }
  split. { intros other Hne. cbn [cache emit]. rewrite Hc. apply lookup_insert_ne. congruence. }
  split.
  { destruct Hp0 as (P1 & P2 & P3 & P4 & P5 & P6).
    destruct Hp2 as (Q1 & Q2 & Q3 & Q4 & Q5 & Q6). unfold w1 in *. cbn in Q1, Q2, Q3, Q4, Q5, Q6.
    unfold same_page. cbn. repeat split; congruence. }
  split.
  { exists (ev0 ++ ev2 ++ [EvConsoleLog ("[VoyageAI Memory] Cleared all memories for "
                                         ++ characterId)%string]).
    unfold emitted in *. cbn. unfold w1 in He2. cbn in He2.
    rewrite He2, He0, !toasts_app, Ht0, Ht2, <- !app_assoc. split; reflexivity. }
  cbn [cache emit]. rewrite Hc, lookup_insert_eq. eexists. reflexivity.
Qed.

(** X6. [clearMemories] always answers [true] and leaves the
    character's store in the cache without memories, whether or not
    the write to [localStorage] succeeded: [localStorage] is either as
    before or holds the emptied store under the character's key. The
    stores of the other characters are not touched. *)
Theorem clearMemories_empties characterId w :
  exists w',
    clearMemories characterId w = (Return true, w')
    /\ stored characterId w' = []
    /\ (localStorage w' = localStorage w
        \/ exists data', memories data' = []
             /\ localStorage w'
                = <[storageKey characterId := JSON_stringify data']> (localStorage w))
    /\ (forall other, other <> characterId -> cache w' !! other = cache w !! other).
Proof.
  destruct (clearMemories_run characterId w) as (w' & E & Hs & Hl & Ho & _).
  exists w'. split; [exact E|]. split; [exact Hs|]. split; [exact Hl|exact Ho].
Qed.

(** X7. Adding a memory and then deleting the id it was given is
    answered [true]; when the id drawn was not in the store already,
    the memories are back to what they were before the addition. *)
Theorem addMemory_then_deleteMemory characterId memory w :
  exists data0 w0 newMemory w1 w2,
    loadMemories characterId "" w = (Return data0, w0)
    /\ addMemory characterId memory w = (Return newMemory, w1)
    /\ deleteMemory characterId (id newMemory) w1 = (Return true, w2)
    /\ stored characterId w2 = List.filter (other_than (id newMemory)) (memories data0)
    /\ (id newMemory ∉ List.map id (memories data0) ->
        stored characterId w2 = memories data0).
Proof.
  destruct (addMemory_run characterId memory w)
    as (data0 & w0 & uuid & wu & newMemory & data1 & w1 & Eload & _ & Eadd & _ & Hc1 & Hm1 & _).
  destruct (deleteMemory_run characterId (id newMemory) w1)
    as (d & wl & data2 & deleted & w2 & Eload2 & Edel & Hc2 & Hm2 & _ & -> & _).
  destruct (loadMemories_run characterId "" w1) as (x & y & El & _ & _ & _ & _ & Hhit & _).
  rewrite Eload2 in El. injection El as <- <-.
  destruct (Hhit data1) as [-> _]; [rewrite Hc1; apply lookup_insert_eq|].
  assert (Hs : stored characterId w2
               = List.filter (other_than (id newMemory)) (memories data0)).
  { rewrite (stored_insert _ _ _ _ Hc2), Hm2, Hm1, List.filter_app. cbn [List.filter].
    unfold other_than at 2. rewrite String.eqb_refl. apply app_nil_r. }
  assert (Htrue : existsb (fun m => negb (other_than (id newMemory) m)) (memories data1)
                  = true).
  { rewrite Hm1. apply has_id_iff. rewrite List.map_app. apply elem_of_app.
    right. apply list_elem_of_singleton. reflexivity. }
  rewrite Htrue in Edel.
  exists data0, w0, newMemory, w1, w2.
  split; [exact Eload|]. split; [exact Eadd|]. split; [exact Edel|]. split; [exact Hs|].
  intros Hfresh. rewrite Hs. apply filter_all. intros m Hm.
  unfold other_than. apply negb_true_iff, String.eqb_neq. intros Heq.
  apply Hfresh. rewrite <- Heq. apply list_elem_of_In, in_map, Hm.
Qed.

(** X8. After [addMemory], [getStats] is answered from the cache and
    counts one memory more than the store had; the newest memory it
    reports is the one just added, and the oldest is the first of the
    store, or the one just added when the store had none. *)
Theorem addMemory_then_getStats characterId memory w :
  exists data0 w0 newMemory w1 stats,
    loadMemories characterId "" w = (Return data0, w0)
    /\ addMemory characterId memory w = (Return newMemory, w1)
    /\ getStats characterId w1 = (Return stats, w1)
    /\ totalMemories stats = S (length (memories data0))
    /\ newestMemory stats = Some (timestamp newMemory)
    /\ oldestMemory stats
       = Some (match memories data0 with m :: _ => timestamp m | [] => timestamp newMemory end).
Proof.
  destruct (addMemory_run characterId memory w)
    as (data0 & w0 & uuid & wu & newMemory & data1 & w1 & Eload & _ & Eadd & _ & Hc1 & Hm1 & _).
  assert (Hhit : cache w1 !! characterId = Some data1).
  { rewrite Hc1. apply lookup_insert_eq. }
  eexists data0, w0, newMemory, w1, _.
  split; [exact Eload|]. split; [exact Eadd|]. split.
  { unfold getStats, bind at 1, loadMemories, bind at 1, cache_get. rewrite Hhit. reflexivity. }
  cbn [totalMemories newestMemory oldestMemory]. rewrite Hm1.
  split; [rewrite length_app; cbn; lia|]. split.
  - rewrite last_snoc. reflexivity.
  - destruct (memories data0); reflexivity.
Qed.

(** X9. A merge keeps the store and appends: the memories the store
    had stay first and in their order, every id of the payload is in
    the store afterwards, every memory of the store comes from the store
    or from the payload, as JSON gives it back, and if the ids of the
    store were distinct and those of the payload too, the ids of the
    store are distinct still. *)
Theorem importMemories_merge_keeps characterId payload w :
  exists data0 w0 w',
    loadMemories characterId "" w = (Return data0, w0)
    /\ importMemories characterId (JSON_stringify payload) true w
       = (Return (length (memories payload)), w')
    /\ memories data0 `prefix_of` stored characterId w'
    /\ (forall m, m ∈ memories payload -> id m ∈ List.map id (stored characterId w'))
    /\ (forall m, m ∈ stored characterId w' ->
          m ∈ memories data0 \/ m ∈ List.map JSON_record (memories payload))
    /\ (NoDup (List.map id (memories data0)) -> NoDup (List.map id (memories payload)) ->
        NoDup (List.map id (stored characterId w'))).
Proof.
  set (imported := List.map JSON_record (memories payload)).
  assert (Hids : List.map id imported = List.map id (memories payload)).
  { unfold imported. rewrite List.map_map. reflexivity. }
  destruct (importMemories_array characterId
              {| doc_character_id := character_id payload;
                 doc_character_name := character_name payload;
                 doc_created_at := created_at payload;
                 doc_updated_at := updated_at payload;
                 doc_memories := FieldArray imported |}
              imported true w eq_refl)
    as (data0 & w0 & data' & w' & Eload & Eimp & Hc & Hm & _).
  exists data0, w0, w'. rewrite (stored_insert _ _ _ _ Hc), Hm. unfold imported_into.
  split; [exact Eload|]. split.
  { unfold imported in Eimp at 2. rewrite length_map in Eimp. exact Eimp. }
  split; [apply prefix_app_r; reflexivity|]. split; [|split].
  - intros m Hin. rewrite List.map_app. apply elem_of_app.
    destruct (decide (id m ∈ List.map id (memories data0))) as [Hold|Hold]; [left; exact Hold|].
    right. change (id m) with (id (JSON_record m)).
    apply list_elem_of_In, in_map. unfold fresh_of. apply filter_In.
    split; [apply in_map, list_elem_of_In; exact Hin|]. apply bool_decide_eq_true. exact Hold.
  - intros m Hin. apply elem_of_app in Hin as [Hin|Hin]; [left; exact Hin|].
    right. apply list_elem_of_In in Hin. unfold fresh_of in Hin.
    apply filter_In in Hin as [Hin _]. apply list_elem_of_In. exact Hin.
  - intros Hold Hnew. rewrite <- Hids in Hnew. rewrite List.map_app. apply NoDup_app.
    split; [exact Hold|]. split.
    + intros x Hx Hx'. apply list_elem_of_In, in_map_iff in Hx' as (m & <- & Hm').
      unfold fresh_of in Hm'. apply filter_In in Hm' as [_ Hm'].
      apply bool_decide_eq_true in Hm'. contradiction.
    + unfold fresh_of. clear -Hnew. induction imported as [|m l IH]; [constructor|].
      cbn [List.map] in Hnew. apply NoDup_cons in Hnew as [Hm Hl].
      cbn [List.filter]. destruct (bool_decide _).
      * cbn [List.map]. apply NoDup_cons. split; [|apply IH, Hl].
        intros Hin. apply Hm. apply list_elem_of_In, in_map_iff in Hin as (m' & E & Hm').
        apply filter_In in Hm' as [Hm' _]. rewrite <- E. apply list_elem_of_In, in_map, Hm'.
      * apply IH, Hl.
Qed.

End StoreFacts.

(** ** More of the vectors *)

Section VectorFacts.
Import Similarity.

(** NaN is the number that is not equal to itself. *)
Lemma is_nan_of_spec (x : float) : Prim2SF x = S754_nan -> PrimFloat.is_nan x = true.
Proof.
  intros H. unfold PrimFloat.is_nan. rewrite FloatAxioms.eqb_spec, H. reflexivity.
Qed.

Lemma add_nan_r (x y : float) : Prim2SF y = S754_nan -> Prim2SF (x + y) = S754_nan.
Proof.
  intros H. rewrite FloatAxioms.add_spec, H. destruct (Prim2SF x); reflexivity.
Qed.

Lemma add_nan_l (x y : float) : Prim2SF x = S754_nan -> Prim2SF (x + y) = S754_nan.
Proof. intros H. rewrite FloatAxioms.add_spec, H. reflexivity. Qed.

Lemma div_nan_l (x y : float) : Prim2SF x = S754_nan -> Prim2SF (x / y) = S754_nan.
Proof. intros H. rewrite FloatAxioms.div_spec, H. reflexivity. Qed.

Lemma add_into_length result e : length (add_into result e) = length result.
Proof.
  revert e. induction result as [|r result IH]; intros e; [reflexivity|].
  simpl. rewrite IH. reflexivity.
Qed.

Lemma fold_add_into_length es result :
  length (fold_left add_into es result) = length result.
Proof.
  revert result. induction es as [|e es IH]; intros result; [reflexivity|].
  simpl. rewrite IH. apply add_into_length.
Qed.

(** A position holds NaN. *)
Definition nan_at (v : vector) (i : nat) : Prop :=
  exists x, v !! i = Some x /\ Prim2SF x = S754_nan.

Lemma add_into_short result e i :
  length e <= i < length result -> nan_at (add_into result e) i.
Proof.
  revert e i. induction result as [|r result IH]; intros e i [Hle Hlt]; simpl in Hlt; [lia|].
  destruct i as [|i].
  - destruct e as [|x e]; [|simpl in Hle; lia].
    eexists. split; [reflexivity|]. apply add_nan_r. reflexivity.
  - destruct e as [|x e].
    + destruct (IH [] i) as (y & Hy & Hn); [simpl; lia|]. exists y. split; assumption.
    + destruct (IH e i) as (y & Hy & Hn); [simpl in Hle; lia|]. exists y. split; assumption.
Qed.

Lemma add_into_keeps_nan result e i : nan_at result i -> nan_at (add_into result e) i.
Proof.
  revert e i. induction result as [|r result IH]; intros e i (x & Hx & Hn); [discriminate|].
  destruct i as [|i].
  - injection Hx as ->. eexists. split; [reflexivity|]. apply add_nan_l, Hn.
  - destruct (IH (tl e) i) as (y & Hy & Hn'); [exists x; split; assumption|].
    exists y. split; assumption.
Qed.

Lemma fold_add_into_keeps_nan es result i :
  nan_at result i -> nan_at (fold_left add_into es result) i.
Proof.
  revert result. induction es as [|e es IH]; intros result H; [exact H|].
  simpl. apply IH, add_into_keeps_nan, H.
Qed.

Lemma fold_add_into_short es result e i :
  e ∈ es -> length e <= i < length result -> nan_at (fold_left add_into es result) i.
Proof.
  revert result. induction es as [|e' es IH]; intros result Hin Hi.
  - apply elem_of_nil in Hin. contradiction.
  - simpl. apply elem_of_cons in Hin as [->|Hin].
    + apply fold_add_into_keeps_nan, add_into_short, Hi.
    + apply (IH _ Hin). rewrite add_into_length. exact Hi.
Qed.

Lemma add_into_firstn result e :
  add_into result (firstn (length result) e) = add_into result e.
Proof.
  revert e. induction result as [|r result IH]; intros e; [reflexivity|].
  destruct e as [|x e]; [reflexivity|]. simpl. rewrite IH. reflexivity.
Qed.

Lemma fold_add_into_firstn es result :
  fold_left add_into (List.map (firstn (length result)) es) result
  = fold_left add_into es result.
Proof.
  revert result. induction es as [|e es IH]; intros result; [reflexivity|].
  simpl. rewrite add_into_firstn. rewrite <- (IH (add_into result e)).
  rewrite add_into_length. reflexivity.
Qed.

Lemma map_lookup {A B} (f : A -> B) (l : list A) (i : nat) :
  List.map f l !! i = f <$> (l !! i).
Proof.
  revert i. induction l as [|x l IH]; intros [|i]; try reflexivity. apply IH.
Qed.

(** X10. [averageEmbeddings] answers the empty vector when the
    embeddings are missing or there is none. Otherwise the result has
    the dimension of the first embedding, whatever the lengths of the
    others: the components of a longer embedding past that dimension
    are not read, and where an embedding is shorter, the result holds
    NaN at every position the embedding lacks. Nothing is thrown. *)
Theorem averageEmbeddings_dimension :
  averageEmbeddings None = []
  /\ averageEmbeddings (Some []) = []
  /\ (forall first rest, length (averageEmbeddings (Some (first :: rest))) = length first)
  /\ (forall first rest,
        averageEmbeddings (Some (first :: List.map (firstn (length first)) rest))
        = averageEmbeddings (Some (first :: rest)))
  /\ (forall first rest e i,
        e ∈ rest -> length e <= i < length first ->
        exists x, averageEmbeddings (Some (first :: rest)) !! i = Some x
                  /\ PrimFloat.is_nan x = true).
Proof.
  split; [reflexivity|]. split; [reflexivity|]. split; [|split].
  - intros first rest. unfold averageEmbeddings.
    rewrite length_map, fold_add_into_length, repeat_length. reflexivity.
  - intros first rest. unfold averageEmbeddings.
    cbn [fold_left length]. rewrite length_map.
    rewrite <- (fold_add_into_firstn rest).
    rewrite add_into_length, repeat_length. reflexivity.
  - intros first rest e i Hin Hi. unfold averageEmbeddings.
    destruct (fold_add_into_short (first :: rest) (repeat 0%float (length first)) e i)
      as (y & Hy & Hn).
    { apply elem_of_cons. right. exact Hin. }
    { rewrite repeat_length. exact Hi. }
    eexists. split.
    + cbv zeta. unfold vector in *. rewrite map_lookup.
      exact (f_equal (fmap _) Hy).
    + apply is_nan_of_spec, div_nan_l, Hn.
Qed.

(** X11. [normalizeVector] never divides by zero and throws nothing:
    it answers the empty vector for a missing or empty one, and gives
    back the vector as it is when its norm is zero, as for a vector of
    zeros. The result has the length of the vector. *)
Theorem normalizeVector_fails_soft :
  normalizeVector None = []
  /\ normalizeVector (Some []) = []
  /\ (forall v, length (normalizeVector (Some v)) = length v)
  /\ (forall v, JS.strict_eq (PrimFloat.sqrt (sum_squares v)) 0%float = true ->
                normalizeVector (Some v) = v)
  /\ (forall v, Forall (fun x => JS.strict_eq x 0%float = true) v ->
                normalizeVector (Some v) = v).
Proof.
  split; [reflexivity|]. split; [reflexivity|].
  assert (Hzero : forall v, JS.strict_eq (PrimFloat.sqrt (sum_squares v)) 0%float = true ->
                            normalizeVector (Some v) = v).
  { intros [|x v] H; [reflexivity|]. unfold normalizeVector. rewrite H. reflexivity. }
  split; [|split; [exact Hzero|]].
  - intros [|x v]; [reflexivity|]. unfold normalizeVector.
    destruct (JS.strict_eq _ _); [reflexivity|apply length_map].
  - intros v Hv. apply Hzero.
    change (PrimFloat.sqrt (sum_squares v)) with (norm v).
    rewrite (norm_of_zeros v Hv). reflexivity.
Qed.

End VectorFacts.

(** ** More of the summarization client *)

Section StringFacts.
Local Open Scope string_scope.

Lemma string_length_app s t : String.length (s ++ t) = String.length s + String.length t.
Proof. induction s as [|c s IH]; simpl; [reflexivity|]. rewrite IH. reflexivity. Qed.

Lemma substring_0_all s : String.substring 0 (String.length s) s = s.
Proof. induction s as [|c s IH]; simpl; [reflexivity|]. rewrite IH. reflexivity. Qed.

Lemma substring_skip_app s t n :
  String.substring (String.length s) n (s ++ t) = String.substring 0 n t.
Proof. induction s as [|c s IH]; simpl; [reflexivity|exact IH]. Qed.

Lemma substring_0_length s n :
  String.length (String.substring 0 n s) = Nat.min n (String.length s).
Proof.
  revert n. induction s as [|c s IH]; intros [|n]; simpl; try reflexivity.
  rewrite IH. reflexivity.
Qed.

Lemma substring_0_twice s n k :
  String.substring 0 k (String.substring 0 n s) = String.substring 0 (Nat.min k n) s.
Proof.
  revert n k. induction s as [|c s IH]; intros [|n] [|k]; simpl; try reflexivity.
  rewrite IH. reflexivity.
Qed.

(** A string is its first [n] characters followed by the rest. *)
Lemma substring_split s n :
  n <= String.length s ->
  s = String.substring 0 n s ++ String.substring n (String.length s - n) s.
Proof.
  revert n. induction s as [|c s IH]; intros [|n] H; simpl in *; try lia.
  - reflexivity.
  - rewrite substring_0_all. reflexivity.
  - rewrite (IH n) at 1 by lia. reflexivity.
Qed.

Lemma endsWith_app s t : Summarizer.endsWith (s ++ t) t = true.
Proof.
  unfold Summarizer.endsWith. rewrite string_length_app.
  replace (String.length s + String.length t - String.length t) with (String.length s) by lia.
  rewrite substring_skip_app, substring_0_all, String.eqb_refl.
  apply andb_true_iff. split; [apply Nat.leb_le; lia|reflexivity].
Qed.

Lemma endsWith_split s t :
  Summarizer.endsWith s t = true ->
  s = String.substring 0 (String.length s - String.length t) s ++ t.
Proof.
  unfold Summarizer.endsWith. intros H. apply andb_true_iff in H as [Hle Heq].
  apply Nat.leb_le in Hle. apply String.eqb_eq in Heq.
  rewrite (substring_split s (String.length s - String.length t)) at 1 by lia.
  replace (String.length s - (String.length s - String.length t)) with (String.length t) by lia.
  rewrite Heq. reflexivity.
Qed.

Lemma string_app_assoc s t u : (s ++ t) ++ u = s ++ (t ++ u).
Proof.
  induction s as [|c s IH]; [reflexivity|].
  change (String c ((s ++ t) ++ u) = String c (s ++ (t ++ u))). rewrite IH. reflexivity.
Qed.

(** [trim] leaves a trimmed string as it is. *)
Lemma trimEnd_idempotent s : JS.trimEnd (JS.trimEnd s) = JS.trimEnd s.
Proof.
  induction s as [|c s IH]; [reflexivity|].
  simpl. destruct (JS.trimEnd s) as [|d t] eqn:E.
  - destruct (JS.isWhiteSpace c) eqn:Ec; [reflexivity|]. simpl. rewrite Ec. reflexivity.
  - change (JS.trimEnd (String c (String d t)))
      with (match JS.trimEnd (String d t) with
            | EmptyString => if JS.isWhiteSpace c then EmptyString else String c EmptyString
            | String e u => String c (String e u)
            end).
    rewrite IH. reflexivity.
Qed.

Lemma trimEnd_head c s :
  JS.isWhiteSpace c = false -> exists t, JS.trimEnd (String c s) = String c t.
Proof.
  intros Hc. simpl. destruct (JS.trimEnd s) as [|d t].
  - rewrite Hc. eexists. reflexivity.
  - eexists. reflexivity.
Qed.

Lemma trimStart_cases s :
  JS.trimStart s = EmptyString
  \/ exists c t, JS.trimStart s = String c t /\ JS.isWhiteSpace c = false.
Proof.
  induction s as [|c s IH]; [left; reflexivity|].
  simpl. destruct (JS.isWhiteSpace c) eqn:E; [exact IH|].
  right. exists c, s. split; [reflexivity|exact E].
Qed.

Lemma trim_idempotent s : JS.trim (JS.trim s) = JS.trim s.
Proof.
  unfold JS.trim. destruct (trimStart_cases s) as [-> | (c & t & -> & Hc)]; [reflexivity|].
  destruct (trimEnd_head c t Hc) as (u & Hu). rewrite Hu.
  cbn [JS.trimStart]. rewrite Hc, <- Hu. apply trimEnd_idempotent.
Qed.

End StringFacts.

Section SummarizerFacts.
Import Runtime Summarizer.
Local Open Scope string_scope.

(** X12. The endpoint always ends with [/chat/completions]. It is
    made of the configured URL, trimmed and without its last slash if
    it has one: that base as it is when it ends with
    [/chat/completions] already, the base followed by
    [/chat/completions] when it ends with [/v1], and the base followed
    by [/v1/chat/completions] otherwise. *)
Theorem getEndpointUrl_ends client :
  endsWith (getEndpointUrl client) "/chat/completions" = true
  /\ exists base,
       (JS.trim (sc_apiUrl client) = base /\ endsWith base "/" = false
        \/ JS.trim (sc_apiUrl client) = base ++ "/")
       /\ (getEndpointUrl client = base /\ endsWith base "/chat/completions" = true
           \/ getEndpointUrl client = base ++ "/chat/completions"
              /\ endsWith base "/v1" = true
           \/ getEndpointUrl client = base ++ "/v1/chat/completions"
              /\ endsWith base "/v1" = false
              /\ endsWith base "/chat/completions" = false).
Proof.
  unfold getEndpointUrl. set (url := JS.trim (sc_apiUrl client)).
  set (base := if endsWith url "/"
               then String.substring 0 (String.length url - 1) url else url).
  assert (Hbase : url = base /\ endsWith base "/" = false \/ url = base ++ "/").
  { unfold base. destruct (endsWith url "/") eqn:E.
    - right. apply (endsWith_split url "/" E).
    - left. split; [reflexivity|exact E]. }
  cbv zeta. destruct (endsWith base "/chat/completions") eqn:Ecc; cbn [negb].
  - split; [exact Ecc|]. exists base. split; [exact Hbase|]. left. split; [reflexivity|exact Ecc].
  - destruct (endsWith base "/v1") eqn:Ev1; cbn [negb].
    + split; [apply endsWith_app|]. exists base. split; [exact Hbase|].
      right. left. split; [reflexivity|exact Ev1].
    + rewrite string_app_assoc. split.
      * rewrite <- string_app_assoc. apply endsWith_app.
      * exists base. split; [exact Hbase|]. right. right.
        split; [reflexivity|]. split; [exact Ev1|exact Ecc].
Qed.

(** The client has a URL and a key. *)
Definition configured (w : World) : bool :=
  (JS.truthy (sc_apiUrl (summarizerClient w)) && JS.truthy (sc_apiKey (summarizerClient w)))%bool.

(** The reply of the summarization service carries a summary: the
    status is OK and the content, trimmed, is not empty. *)
Definition summary_of (o : FetchOutcome CompletionBody) : option string :=
  match o with
  | Resolved r =>
      if resp_ok r then
        match resp_json r with
        | Some (Some content) =>
            if JS.truthy (JS.trim content) then Some (JS.trim content) else None
        | _ => None
        end
      else None
  | Rejected _ => None
  end.

(** How [summarize] ends, case by case. *)
Lemma summarize_outcome message context w :
  exists r w',
    summarize message context w = (r, w')
    /\ (if negb (configured w) then
          r = Throw (mkError "Summarization API URL and key are required") /\ w' = w
        else if blank message then r = Return "" /\ w' = w
        else
          match summary_of (summarizer_api (env w) (tick w)) with
          | Some s => r = Return s
          | None => exists e, r = Throw e
          end).
Proof.
  unfold summarize, bind at 1, get_world, configured.
  rewrite negb_andb.
  destruct (negb (JS.truthy (sc_apiUrl (summarizerClient w)))
            || negb (JS.truthy (sc_apiKey (summarizerClient w))))%bool.
  { eexists _, _. split; [reflexivity|]. split; reflexivity. }
  destruct (blank message).
  { eexists _, _. split; [reflexivity|]. split; reflexivity. }
  unfold try_catch, bind at 1, fetch, summary_of.
  destruct (summarizer_api (env w) (tick w)) as [reason|r].
  { eexists _, _. split; [reflexivity|]. eexists. reflexivity. }
  destruct (resp_ok r); cbn [negb].
  2:{ eexists _, _. split; [reflexivity|]. eexists. reflexivity. }
  unfold bind at 1, response_json.
  destruct (resp_json r) as [[content|]|]; cbv beta iota delta [bind ret option_map].
  - destruct (JS.truthy (JS.trim content)).
    + eexists _, _. split; [reflexivity|]. reflexivity.
    + eexists _, _. split; [reflexivity|]. eexists. reflexivity.
  - eexists _, _. split; [reflexivity|]. eexists. reflexivity.
  - eexists _, _. split; [reflexivity|]. eexists. reflexivity.
Qed.

Lemma summary_of_trimmed o s :
  summary_of o = Some s -> JS.truthy s = true /\ JS.trim s = s.
Proof.
  unfold summary_of. destruct o as [reason|r]; [discriminate|].
  destruct (resp_ok r); [|discriminate].
  destruct (resp_json r) as [[content|]|]; try discriminate.
  destruct (JS.truthy (JS.trim content)) eqn:E; [|discriminate].
  intros [= <-]. split; [exact E|apply trim_idempotent].
Qed.

(** X13. What [summarize] returns is either the empty string, for a
    blank message and with the world untouched, or the content of an
    OK reply, trimmed and not empty: a summary never starts or ends
    with white space. Conversely, with the URL and the key configured
    and a message that is not blank, such a reply is returned and any
    other reply makes the call throw. *)
Theorem summarize_returns_trimmed message context w :
  (forall s w',
     summarize message context w = (Return s, w') ->
     (s = "" /\ blank message = true /\ w' = w)
     \/ (JS.truthy s = true /\ JS.trim s = s /\ blank message = false
         /\ summary_of (summarizer_api (env w) (tick w)) = Some s))
  /\ (configured w = true -> blank message = false ->
      match summary_of (summarizer_api (env w) (tick w)) with
      | Some s => exists w', summarize message context w = (Return s, w')
      | None => exists e w', summarize message context w = (Throw e, w')
      end).
Proof.
  destruct (summarize_outcome message context w) as (r & w1 & E & H).
  split.
  - intros s w' E'. rewrite E in E'. injection E' as -> ->.
    destruct (negb (configured w)); [destruct H as [H _]; discriminate|].
    destruct (blank message).
    + destruct H as [[= <-] ->]. left. repeat split; reflexivity.
    + right. destruct (summary_of _) as [s'|] eqn:Es.
      * injection H as <-. destruct (summary_of_trimmed _ _ Es) as [H1 H2].
        repeat split; assumption.
      * destruct H as (e & H). discriminate.
  - intros Hc Hb. rewrite Hc, Hb in H. cbn [negb] in H.
    destruct (summary_of _) as [s|].
    + exists w1. rewrite E, H. reflexivity.
    + destruct H as (e & ->). exists e, w1. exact E.
Qed.


Lemma summarize_result message context w s w' :
  summarize message context w = (Return s, w') ->
  s = "" \/ (JS.truthy s = true /\ JS.trim s = s).
Proof.
  intros E. destruct (summarize_outcome message context w) as (r & w1 & E1 & H).
  rewrite E in E1. injection E1 as <- <-.
  destruct (negb (configured w)); [destruct H as [H _]; discriminate|].
  destruct (blank message); [destruct H as [[= <-] _]; left; reflexivity|].
  destruct (summary_of _) as [s'|] eqn:Es; [|destruct H as (e & H); discriminate].
  injection H as <-. right. apply (summary_of_trimmed _ _ Es).
Qed.

(** A summary as [summarize] returns it. *)
Definition summary_or_empty (s : string) : Prop :=
  s = "" \/ (JS.truthy s = true /\ JS.trim s = s).

(** The summaries of a batch, item by item, from the world [w] to the
    world [w']: an item is summarized in the world that the item before
    it left; its summary is what [summarize] returned for its message
    and its context, or the empty string, with the error on the console,
    when [summarize] threw. *)
Inductive batch_summaries : list BatchItem -> World -> list string -> World -> Prop :=
| batch_done w : batch_summaries [] w [] w
| batch_summarized item items w s w1 out w' :
    summarize (item_message item) (default empty_context (item_context item)) w
    = (Return s, w1) ->
    batch_summaries items w1 out w' ->
    batch_summaries (item :: items) w (s :: out) w'
| batch_failed item items w e w1 out w' :
    summarize (item_message item) (default empty_context (item_context item)) w
    = (Throw e, w1) ->
    batch_summaries items
      (emit (EvConsoleError ("[VoyageAI Memory] Batch summarization error: "
                             ++ err_message e)) w1)
      out w' ->
    batch_summaries (item :: items) w ("" :: out) w'.

Lemma summarizeBatch_from_run items summaries w :
  exists out w' events,
    summarizeBatch_from items summaries w = (Return (summaries ++ out)%list, w')
    /\ length out = length items
    /\ Forall summary_or_empty out
    /\ batch_summaries items w out w'
    /\ emitted w w' events /\ toasts events = []
    /\ length (stages events) <= length items
    /\ cache w' = cache w /\ localStorage w' = localStorage w /\ same_page w w'.
Proof.
  revert summaries w. induction items as [|item items IH]; intros summaries w.
  - exists [], w, []. cbn. rewrite app_nil_r.
    repeat split; try reflexivity; [constructor|constructor|apply emitted_refl].
  - cbn [summarizeBatch_from].
    destruct (summarize_run (item_message item)
                (default empty_context (item_context item)) w)
      as (r & w1 & ev1 & E1 & He1 & Ht1 & Hc1 & Hl1 & Hp1 & Hs1 & _).
    assert (Hone : exists s w2 ev2,
               try_catch
                 (bind (summarize (item_message item)
                          (default empty_context (item_context item)))
                    (fun summary => ret (summaries ++ [summary])%list))
                 (fun error =>
                    bind (console_error ("[VoyageAI Memory] Batch summarization error: "
                                         ++ err_message error))
                      (fun _ => ret (summaries ++ [EmptyString])%list)) w
               = (Return (summaries ++ [s])%list, w2)
               /\ summary_or_empty s
               /\ (forall items' out w',
                     batch_summaries items' w2 out w' ->
                     batch_summaries (item :: items') w (s :: out) w')
               /\ emitted w w2 ev2 /\ toasts ev2 = [] /\ length (stages ev2) <= 1
               /\ cache w2 = cache w /\ localStorage w2 = localStorage w /\ same_page w w2).
    { destruct r as [s|e].
      - exists s, w1, ev1. split.
        { unfold try_catch. erewrite bind_Return by exact E1. reflexivity. }
        split; [apply (summarize_result _ _ _ _ _ E1)|].
        split; [intros items' out w' H; eapply batch_summarized; eassumption|].
        split; [exact He1|]. split; [exact Ht1|].
        split; [destruct Hs1 as [-> | ->]; cbn; lia|].
        split; [exact Hc1|]. split; [exact Hl1|exact Hp1].
      - eexists EmptyString, _, (ev1 ++ [_])%list. split.
        { unfold try_catch. erewrite bind_Throw by exact E1. reflexivity. }
        split; [left; reflexivity|].
        split; [intros items' out w' H; eapply batch_failed; eassumption|].
        split; [unfold emitted in *; cbn; rewrite He1, app_assoc; reflexivity|].
        rewrite toasts_app, stages_app, Ht1, length_app. cbn.
        split; [reflexivity|]. split; [destruct Hs1 as [-> | ->]; cbn; lia|].
        split; [exact Hc1|]. split; [exact Hl1|].
        destruct Hp1 as (Q1 & Q2 & Q3 & Q4 & Q5 & Q6). unfold same_page.
        repeat split; assumption. }
    destruct Hone as (s & w2 & ev2 & E2 & Hs & Hstep & He2 & Ht2 & Hn2 & Hc2 & Hl2 & Hp2).
    destruct (IH (summaries ++ [s])%list w2)
      as (out & w' & ev & E & Hlen & Hall & Hbatch & He & Ht & Hn & Hc & Hl & Hp).
    exists (s :: out), w', (ev2 ++ ev)%list. split.
    { erewrite bind_Return by exact E2. rewrite E, <- app_assoc. reflexivity. }
    split; [cbn; rewrite Hlen; reflexivity|]. split; [constructor; assumption|].
    split; [apply Hstep, Hbatch|].
    split; [eapply emitted_trans; eassumption|].
    rewrite toasts_app, stages_app, Ht2, Ht, length_app.
    split; [reflexivity|]. split; [cbn; lia|].
    split; [congruence|]. split; [congruence|]. etransitivity; eassumption.
Qed.

(** X14. [summarizeBatch] never throws and answers one summary per
    item, in the order of the items, each item being summarized after
    the one before it: the summary of an item is what [summarize]
    returned for its message and its context, and the empty string
    where [summarize] threw, the error going to the console and the
    batch going on. So every summary is empty or trimmed and not empty.
    At most one request is sent per item, no notification is shown, and
    the stores are not touched. *)
Theorem summarizeBatch_one_per_item items w :
  exists summaries w' events,
    summarizeBatch items w = (Return summaries, w')
    /\ batch_summaries items w summaries w'
    /\ length summaries = length items
    /\ Forall summary_or_empty summaries
    /\ emitted w w' events /\ toasts events = []
    /\ length (stages events) <= length items
    /\ cache w' = cache w /\ localStorage w' = localStorage w.
Proof.
  destruct (summarizeBatch_from_run items [] w)
    as (out & w' & ev & E & Hlen & Hall & Hbatch & He & Ht & Hn & Hc & Hl & _).
  exists out, w', ev. repeat split; assumption.
Qed.

(** X15. [testConnection] of the summarizer never throws. It answers
    [true] exactly when the URL and the key are configured and the
    service answers the test message with an OK reply whose content,
    trimmed, is not empty. The stores are not touched. *)
Theorem summarizer_testConnection_iff w :
  exists ok w',
    testConnection w = (Return ok, w')
    /\ (ok = true <->
        configured w = true
        /\ exists s, summary_of (summarizer_api (env w) (tick w)) = Some s)
    /\ cache w' = cache w /\ localStorage w' = localStorage w.
Proof.
  destruct (summarize_outcome "This is a test message." empty_context w)
    as (r & w1 & E & H).
  destruct (summarize_run "This is a test message." empty_context w)
    as (r' & w1' & ev1 & E1 & _ & _ & Hc1 & Hl1 & _).
  rewrite E in E1. injection E1 as <- <-.
  change (blank "This is a test message.") with false in H. cbv iota in H.
  unfold testConnection, try_catch.
  destruct r as [s|e].
  - erewrite bind_Return by exact E. exists true, w1.
    split; [reflexivity|]. split; [|split; assumption].
    split; [|reflexivity]. intros _.
    destruct (configured w); cbn [negb] in H; [|destruct H as [H _]; discriminate].
    split; [reflexivity|].
    destruct (summary_of _) as [s'|]; [exists s'; reflexivity|].
    destruct H as (e & H). discriminate.
  - erewrite bind_Throw by exact E. eexists false, _.
    split; [reflexivity|]. split; [|split; assumption].
    split; [discriminate|]. intros [Hconf (s & Hs)].
    rewrite Hconf, Hs in H. discriminate.
Qed.

(** [lastIndexOf]: either nothing was found, or the index found is in
    the string and holds the character. *)
Lemma lastIndexOf_from_spec s c i found :
  JS.lastIndexOf_from s c i found = found
  \/ exists k, JS.lastIndexOf_from s c i found = (i + Z.of_nat k)%Z
               /\ k < String.length s /\ String.get k s = Some c.
Proof.
  revert i found. induction s as [|d s IH]; intros i found; [left; reflexivity|].
  cbn [JS.lastIndexOf_from].
  destruct (IH (i + 1)%Z (if Ascii.eqb d c then i else found)) as [H | (k & H & Hk & Hg)].
  - rewrite H. destruct (Ascii.eqb d c) eqn:E; [|left; reflexivity].
    right. exists 0. apply Ascii.eqb_eq in E. subst d.
    split; [lia|]. split; [simpl; lia|reflexivity].
  - right. exists (S k). rewrite H. split; [lia|]. split; [simpl; lia|exact Hg].
Qed.

Lemma lastIndexOf_spec s c :
  JS.lastIndexOf s c = (-1)%Z
  \/ exists k, JS.lastIndexOf s c = Z.of_nat k
               /\ k < String.length s /\ String.get k s = Some c.
Proof.
  unfold JS.lastIndexOf.
  destruct (lastIndexOf_from_spec s c 0%Z (-1)%Z) as [H | (k & H & Hk)];
    [left; exact H|right; exists k; split; [rewrite H; lia|exact Hk]].
Qed.

Lemma get_substring_0 s n k :
  k < n -> String.get k (String.substring 0 n s) = String.get k s.
Proof.
  revert n k. induction s as [|c s IH]; intros [|n] [|k] H; simpl; try reflexivity; try lia.
  apply IH. lia.
Qed.

(** X16. [fallbackSummarize] answers the empty string for a missing
    text and gives back a text that is not longer than [maxLength].
    A longer text is cut: the result is either the text up to and
    with a full stop, a question mark or an exclamation mark that
    stands in its first [maxLength] characters and past the middle of
    them, or at most [maxLength] first characters of the text followed
    by three dots. It is never longer than [maxLength] plus three. *)
Theorem fallbackSummarize_shape text maxLength :
  fallbackSummarize None maxLength = ""
  /\ (String.length text <= maxLength -> fallbackSummarize (Some text) maxLength = text)
  /\ (maxLength < String.length text ->
      (exists k c,
          fallbackSummarize (Some text) maxLength = String.substring 0 (S k) text
          /\ S k <= maxLength /\ maxLength < 2 * k
          /\ String.get k text = Some c
          /\ (c = "."%char \/ c = "?"%char \/ c = "!"%char))
      \/ (exists k,
             k <= maxLength
             /\ fallbackSummarize (Some text) maxLength = String.substring 0 k text ++ "..."))
  /\ String.length (fallbackSummarize (Some text) maxLength) <= maxLength + 3.
Proof.
  split; [reflexivity|].
  assert (Hshort : String.length text <= maxLength ->
                   fallbackSummarize (Some text) maxLength = text).
  { intros H. unfold fallbackSummarize. apply Nat.leb_le in H. rewrite H, orb_true_r.
    reflexivity. }
  assert (Hlong : maxLength < String.length text ->
      (exists k c,
          fallbackSummarize (Some text) maxLength = String.substring 0 (S k) text
          /\ S k <= maxLength /\ maxLength < 2 * k
          /\ String.get k text = Some c
          /\ (c = "."%char \/ c = "?"%char \/ c = "!"%char))
      \/ (exists k,
             k <= maxLength
             /\ fallbackSummarize (Some text) maxLength = String.substring 0 k text ++ "...")).
  { intros H. unfold fallbackSummarize.
    assert (Ht : JS.truthy text = true) by (destruct text; [simpl in H; lia|reflexivity]).
    rewrite Ht. cbn [negb orb].
    destruct (Nat.leb (String.length text) maxLength) eqn:Hle;
      [apply Nat.leb_le in Hle; lia|].
    cbv zeta. unfold JS.String_slice0.
    set (truncated := String.substring 0 maxLength text).
    assert (Hlen : String.length truncated = maxLength).
    { unfold truncated. rewrite substring_0_length. lia. }
    set (lastSentence := Z.max (Z.max (JS.lastIndexOf truncated ".")
                                  (JS.lastIndexOf truncated "?"))
                           (JS.lastIndexOf truncated "!")).
    assert (Hmark : lastSentence = (-1)%Z
                    \/ exists k c, lastSentence = Z.of_nat k /\ k < maxLength
                                   /\ String.get k truncated = Some c
                                   /\ (c = "."%char \/ c = "?"%char \/ c = "!"%char)).
    { unfold lastSentence.
      destruct (lastIndexOf_spec truncated ".") as [Hp | (kp & Hp & Hkp & Hgp)];
        destruct (lastIndexOf_spec truncated "?") as [Hq | (kq & Hq & Hkq & Hgq)];
        destruct (lastIndexOf_spec truncated "!") as [He | (ke & He & Hke & Hge)];
        rewrite Hp, Hq, He; rewrite ?Hlen in *.
      - left. reflexivity.
      - right. exists ke, "!"%char. split; [lia|]. split; [lia|]. split; [exact Hge|tauto].
      - right. exists kq, "?"%char. split; [lia|]. split; [lia|]. split; [exact Hgq|tauto].
      - right. destruct (Z.max_spec (Z.max (-1) (Z.of_nat kq)) (Z.of_nat ke)) as [[_ ->] | [_ ->]].
        + exists ke, "!"%char. split; [reflexivity|]. split; [lia|]. split; [exact Hge|tauto].
        + exists kq, "?"%char. split; [lia|]. split; [lia|]. split; [exact Hgq|tauto].
      - right. exists kp, "."%char. split; [lia|]. split; [lia|]. split; [exact Hgp|tauto].
      - right. destruct (Z.max_spec (Z.max (Z.of_nat kp) (-1)) (Z.of_nat ke)) as [[_ ->] | [_ ->]].
        + exists ke, "!"%char. split; [reflexivity|]. split; [lia|]. split; [exact Hge|tauto].
        + exists kp, "."%char. split; [lia|]. split; [lia|]. split; [exact Hgp|tauto].
      - right. destruct (Z.max_spec (Z.of_nat kp) (Z.of_nat kq)) as [[_ E] | [_ E]].
        + exists kq, "?"%char. split; [lia|]. split; [lia|]. split; [exact Hgq|tauto].
        + exists kp, "."%char. split; [lia|]. split; [lia|]. split; [exact Hgp|tauto].
      - right.
        destruct (Z.max_spec (Z.max (Z.of_nat kp) (Z.of_nat kq)) (Z.of_nat ke)) as [[_ ->] | [_ ->]].
        + exists ke, "!"%char. split; [reflexivity|]. split; [lia|]. split; [exact Hge|tauto].
        + destruct (Z.max_spec (Z.of_nat kp) (Z.of_nat kq)) as [[_ ->] | [_ ->]].
          * exists kq, "?"%char. split; [reflexivity|]. split; [lia|]. split; [exact Hgq|tauto].
          * exists kp, "."%char. split; [reflexivity|]. split; [lia|]. split; [exact Hgp|tauto]. }
    clearbody lastSentence.
    destruct (Z.ltb (Z.of_nat maxLength) (2 * lastSentence)) eqn:Hmid.
    - apply Z.ltb_lt in Hmid. left.
      destruct Hmark as [-> | (k & c & -> & Hk & Hg & Hc)]; [lia|].
      exists k, c. replace (Z.to_nat (Z.of_nat k + 1)) with (S k) by lia.
      unfold truncated. rewrite substring_0_twice.
      replace (Nat.min (S k) maxLength) with (S k) by lia.
      split; [reflexivity|]. split; [lia|]. split; [lia|].
      split; [|exact Hc]. rewrite <- Hg. unfold truncated. symmetry.
      apply get_substring_0. exact Hk.
    - right. destruct (lastIndexOf_spec truncated " ") as [Hs | (ks & Hs & Hks & _)]; rewrite Hs.
      + exists maxLength. split; [lia|reflexivity].
      + destruct (Z.ltb 0 (Z.of_nat ks)).
        * exists ks. rewrite Hlen in Hks. split; [lia|].
          rewrite Nat2Z.id. unfold truncated. rewrite substring_0_twice.
          replace (Nat.min ks maxLength) with ks by lia. reflexivity.
        * exists maxLength. split; [lia|reflexivity]. }
  split; [exact Hshort|]. split; [exact Hlong|].
  destruct (Nat.le_gt_cases (String.length text) maxLength) as [H|H].
  - rewrite (Hshort H). lia.
  - destruct (Hlong H) as [(k & c & -> & Hk & _) | (k & Hk & ->)].
    + rewrite substring_0_length. lia.
    + rewrite string_length_app, substring_0_length. simpl. lia.
Qed.

End SummarizerFacts.

(** ** More of the embedding client *)

Section EmbeddingFacts.
Import Runtime VoyageAI.

(** The comparator of [embed]: [(a, b) => a.index - b.index]. *)
Definition by_index (a b : Z * list JS.number) : bool := Z.ltb 0 (fst a - fst b).

(** The embeddings that a reply carries: the status is OK and the body
    is JSON with its array of items. *)
Definition embeddings_of (o : FetchOutcome EmbeddingsBody) : option (list (list JS.number)) :=
  match o with
  | Resolved r =>
      if resp_ok r then
        match resp_json r with
        | Some (Items data) => Some (List.map snd (JS.Array_sort by_index data))
        | _ => None
        end
      else None
  | Rejected _ => None
  end.

(** The texts of the requests for embeddings in a list of events. *)
Definition embed_request (e : Event) : option (list string) :=
  match e with EvEmbedRequest texts _ => Some texts | _ => None end.

Definition embed_requests (events : list Event) : list (list string) :=
  omap embed_request events.

(** The requests for embeddings in a list of events. *)
Definition is_embed_request (e : Event) : bool :=
  match e with EvEmbedRequest _ _ => true | _ => false end.

(** How [embed] ends, case by case. *)
Lemma embed_outcome texts inputType w :
  exists r w' events,
    embed texts inputType w = (r, w')
    /\ emitted w w' events /\ toasts events = []
    /\ cache w' = cache w /\ localStorage w' = localStorage w /\ same_page w w'
    /\ (if negb (JS.truthy (vc_apiKey (voyageClient w))) then
          r = Throw (mkError "VoyageAI API key is not configured") /\ w' = w /\ events = []
        else if Nat.eqb (length texts) 0 then r = Return [] /\ w' = w /\ events = []
        else
          embed_requests events = [texts]
          /\ match embeddings_of (embedding_api (env w) (tick w)) with
             | Some es => r = Return es
             | None => exists e, r = Throw e
             end)
    /\ (negb (JS.truthy (vc_apiKey (voyageClient w))) = false ->
        Nat.eqb (length texts) 0 = false ->
        tick w' = S (tick w)
        /\ List.filter is_embed_request events = [EvEmbedRequest texts inputType]).
Proof.
  unfold embed, bind at 1, get_world.
  destruct (negb (JS.truthy (vc_apiKey (voyageClient w)))).
  { exists (Throw (mkError "VoyageAI API key is not configured")), w, [].
    split; [reflexivity|]. split; [apply emitted_refl|].
    repeat split; try reflexivity; discriminate. }
  destruct (Nat.eqb (length texts) 0).
  { exists (Return []), w, []. split; [reflexivity|]. split; [apply emitted_refl|].
    repeat split; try reflexivity; discriminate. }
  unfold try_catch, bind at 1, fetch, embeddings_of.
  destruct (embedding_api (env w) (tick w)) as [reason|r].
  { eexists _, _, _. split; [reflexivity|]. split; [emitted_now|].
    unfold same_page. cbn. repeat split; try reflexivity. eexists. reflexivity. }
  destruct (resp_ok r); cbn [negb].
  2:{ eexists _, _, _. split; [reflexivity|]. split; [emitted_now|].
      unfold same_page. cbn. repeat split; try reflexivity. eexists. reflexivity. }
  unfold bind at 1, response_json.
  destruct (resp_json r) as [[message|data]|]; cbv beta iota delta [bind ret].
  - eexists _, _, _. split; [reflexivity|]. split; [emitted_now|].
    unfold same_page. cbn. repeat split; try reflexivity. eexists. reflexivity.
  - eexists _, _, _. split; [reflexivity|]. split; [emitted_now|].
    unfold same_page. cbn. repeat split; reflexivity.
  - eexists _, _, _. split; [reflexivity|]. split; [emitted_now|].
    unfold same_page. cbn. repeat split; try reflexivity. eexists. reflexivity.
Qed.

(** The items of a reply come back in the order of their indices. *)
Definition index_le (a b : Z * list JS.number) : Prop := (fst a <= fst b)%Z.

#[local] Instance index_le_Transitive : Transitive index_le.
Proof. intros a b c. unfold index_le. lia. Qed.

Lemma sorted_by_index data : StronglySorted index_le (JS.Array_sort by_index data).
Proof.
  apply Sorted_StronglySorted; [typeclasses eauto|].
  apply (Array_sort_Sorted by_index (fun _ => True) index_le).
  - intros x y _ _ H. unfold by_index in H. apply Z.ltb_ge in H. unfold index_le. lia.
  - intros x y _ _ H. unfold by_index in H. apply Z.ltb_lt in H. unfold index_le. lia.
  - apply List.Forall_forall. intros; exact I.
Qed.

Lemma StronglySorted_map_fst (l : list (Z * list JS.number)) :
  StronglySorted index_le l -> StronglySorted Z.le (List.map fst l).
Proof.
  induction 1 as [|a l _ IH Hall]; [constructor|].
  cbn [List.map]. constructor; [exact IH|].
  apply List.Forall_forall. intros z Hz. apply in_map_iff in Hz as (b & <- & Hb).
  rewrite List.Forall_forall in Hall. apply (Hall b Hb).
Qed.

(** The indices 0, 1, ..., [n] - 1. *)
Definition indices (n : nat) : list Z := List.map Z.of_nat (seq 0 n).

Lemma indices_sorted_from start n :
  StronglySorted Z.le (List.map Z.of_nat (seq start n)).
Proof.
  revert start. induction n as [|n IH]; intros start; [constructor|].
  cbn [seq List.map]. constructor; [apply IH|].
  apply List.Forall_forall. intros z Hz. apply in_map_iff in Hz as (k & <- & Hk).
  apply in_seq in Hk. lia.
Qed.

Lemma indices_lookup n j z : indices n !! j = Some z -> z = Z.of_nat j.
Proof.
  unfold indices.
  assert (H : forall start, List.map Z.of_nat (seq start n) !! j = Some z
                            -> z = Z.of_nat (start + j)).
  { revert j. induction n as [|n IH]; intros j start Hj; [discriminate|].
    destruct j as [|j]; cbn in Hj.
    - injection Hj as <-. f_equal. lia.
    - rewrite (IH j (S start) Hj). f_equal. lia. }
  intros Hj. exact (H 0 Hj).
Qed.

#[local] Instance Z_le_AntiSymm : AntiSymm (=) Z.le.
Proof. intros x y. lia. Qed.

Lemma map_lookup_Some {A B} (f : A -> B) (l : list A) (i : nat) (x : A) :
  l !! i = Some x -> List.map f l !! i = Some (f x).
Proof.
  revert i. induction l as [|y l IH]; intros [|i] H; try discriminate.
  - injection H as ->. reflexivity.
  - apply IH. exact H.
Qed.

(** X17. [embed] throws before any request when the key is missing,
    and answers no embedding, again without a request, for no text.
    Otherwise it sends one request with the texts, and an OK reply
    with a JSON body that has its array of items is answered by the
    embeddings of the reply in the order of their indices, whatever the
    order of the reply: the
    sorted items are a permutation of the reply, and when the indices
    of the reply are 0 to [n] - 1 in some order, the embedding with
    index [k] is at position [k]. *)
Theorem embed_orders_by_index texts inputType w :
  (JS.truthy (vc_apiKey (voyageClient w)) = false ->
   embed texts inputType w = (Throw (mkError "VoyageAI API key is not configured"), w))
  /\ (JS.truthy (vc_apiKey (voyageClient w)) = true -> texts = [] ->
      embed texts inputType w = (Return [], w))
  /\ (JS.truthy (vc_apiKey (voyageClient w)) = true -> texts <> [] ->
      forall r data,
        embedding_api (env w) (tick w) = Resolved r ->
        resp_ok r = true -> resp_json r = Some (Items data) ->
        exists sorted w' events,
          embed texts inputType w = (Return (List.map snd sorted), w')
          /\ emitted w w' events /\ embed_requests events = [texts]
          /\ Permutation sorted data
          /\ StronglySorted index_le sorted
          /\ (Permutation (List.map fst data) (indices (length data)) ->
              forall k e, (Z.of_nat k, e) ∈ data ->
                          List.map snd sorted !! k = Some e)).
Proof.
  destruct (embed_outcome texts inputType w)
    as (r0 & w' & events & E & He & _ & _ & _ & _ & H & _).
  split; [|split].
  - intros Hk. rewrite Hk in H. destruct H as (-> & -> & _). exact E.
  - intros Hk ->. rewrite Hk in H. destruct H as (-> & -> & _). exact E.
  - intros Hk Hne r data Hr Hok Hj. rewrite Hk in H. cbn [negb] in H.
    destruct texts as [|t texts]; [contradiction|]. cbn [length Nat.eqb] in H.
    destruct H as [Hreq H]. unfold embeddings_of in H. rewrite Hr, Hok, Hj in H.
    subst r0. set (sorted := JS.Array_sort by_index data).
    assert (Hperm : Permutation sorted data) by apply Array_sort_Permutation.
    exists sorted, w', events. split; [exact E|]. split; [exact He|].
    split; [exact Hreq|]. split; [exact Hperm|]. split; [apply sorted_by_index|].
    intros Hidx k e Hin.
    assert (Hfst : List.map fst sorted = indices (length data)).
    { apply (StronglySorted_unique Z.le).
      - apply StronglySorted_map_fst, sorted_by_index.
      - apply indices_sorted_from.
      - etransitivity; [|exact Hidx]. apply Permutation_map, Hperm. }
    assert (Hin' : (Z.of_nat k, e) ∈ sorted).
    { apply list_elem_of_In. apply (Permutation_in _ (Permutation_sym Hperm)).
      apply list_elem_of_In. exact Hin. }
    apply list_elem_of_lookup in Hin' as (j & Hj').
    pose proof (map_lookup_Some fst _ _ _ Hj') as Hf. rewrite Hfst in Hf.
    apply indices_lookup in Hf. cbn [fst] in Hf. apply Nat2Z.inj in Hf. subst j.
    apply (map_lookup_Some snd _ _ _ Hj').
Qed.

(** The embeddings carried by the reply that the service gives at the
    moment [t]. *)
Definition reply_at (w : World) (t : nat) : option (list (list JS.number)) :=
  embeddings_of (embedding_api (env w) t).

(** One turn of the loop of [embedDocuments] is enough for 128 texts. *)
Lemma embedDocuments_from_run fuel i texts allEmbeddings w :
  length texts - i <= fuel ->
  exists r w' events,
    embedDocuments_from fuel i texts allEmbeddings w = (r, w')
    /\ emitted w w' events /\ toasts events = []
    /\ cache w' = cache w /\ localStorage w' = localStorage w
    /\ (forall k batch,
          embed_requests events !! k = Some batch ->
          batch = firstn BATCH_SIZE (skipn (i + BATCH_SIZE * k) texts)
          /\ i + BATCH_SIZE * k < length texts)
    /\ (forall embeddings,
          r = Return embeddings -> concat (embed_requests events) = skipn i texts)
    /\ (forall embeddings,
          r = Return embeddings ->
          exists parts,
            embeddings = (allEmbeddings ++ concat parts)%list
            /\ length parts = length (embed_requests events)
            /\ forall k part, parts !! k = Some part -> reply_at w (tick w + k) = Some part)
    /\ (forall k,
          JS.truthy (vc_apiKey (voyageClient w)) = true ->
          i + BATCH_SIZE * k < length texts ->
          (forall j, j < k -> is_Some (reply_at w (tick w + j))) ->
          reply_at w (tick w + k) = None ->
          (exists e, r = Throw e) /\ length (embed_requests events) = S k)
    /\ (JS.truthy (vc_apiKey (voyageClient w)) = false -> i < length texts ->
        r = Throw (mkError "VoyageAI API key is not configured") /\ w' = w).
Proof.
  revert i allEmbeddings w. induction fuel as [|fuel IH]; intros i acc w Hfuel.
  - cbn [embedDocuments_from].
    destruct (Nat.ltb i (length texts)) eqn:Hi; [apply Nat.ltb_lt in Hi; lia|].
    apply Nat.ltb_ge in Hi.
    exists (Return acc), w, []. split; [reflexivity|]. split; [apply emitted_refl|].
    split; [reflexivity|]. split; [reflexivity|]. split; [reflexivity|].
    split; [discriminate|]. split; [|split; [|split]].
    + intros _ _. cbn. symmetry. apply skipn_all2. exact Hi.
    + intros es [= <-]. exists []. cbn. rewrite app_nil_r.
      split; [reflexivity|]. split; [reflexivity|discriminate].
    + intros k _ Hk. lia.
    + intros _ Hlt. lia.
  - cbn [embedDocuments_from].
    destruct (Nat.ltb i (length texts)) eqn:Hi.
    2:{ apply Nat.ltb_ge in Hi.
        exists (Return acc), w, []. split; [reflexivity|]. split; [apply emitted_refl|].
        split; [reflexivity|]. split; [reflexivity|]. split; [reflexivity|].
        split; [discriminate|]. split; [|split; [|split]].
        + intros _ _. cbn. symmetry. apply skipn_all2. exact Hi.
        + intros es [= <-]. exists []. cbn. rewrite app_nil_r.
          split; [reflexivity|]. split; [reflexivity|discriminate].
        + intros k _ Hk. lia.
        + intros _ Hlt. lia. }
    apply Nat.ltb_lt in Hi.
    set (batch := firstn BATCH_SIZE (skipn i texts)).
    assert (Hbatch : length batch <> 0).
    { unfold batch, BATCH_SIZE. rewrite length_firstn, length_skipn. lia. }
    destruct (embed_outcome batch "document" w)
      as (r1 & w1 & ev1 & E1 & He1 & Ht1 & Hc1 & Hl1 & Hp1 & H1 & Htick).
    destruct (negb (JS.truthy (vc_apiKey (voyageClient w)))) eqn:Hkey.
    { destruct H1 as (-> & -> & ->).
      exists (Throw (mkError "VoyageAI API key is not configured")), w, [].
      split; [erewrite bind_Throw by exact E1; reflexivity|].
      split; [apply emitted_refl|].
      split; [reflexivity|]. split; [reflexivity|]. split; [reflexivity|].
      split; [discriminate|]. split; [discriminate|]. split; [discriminate|].
      split; [intros k Hk; rewrite Hk in Hkey; discriminate|].
      intros _ _. split; reflexivity. }
    assert (Hset : JS.truthy (vc_apiKey (voyageClient w)) = true).
    { destruct (JS.truthy (vc_apiKey (voyageClient w))); [reflexivity|discriminate]. }
    destruct (Nat.eqb (length batch) 0) eqn:Hz; [apply Nat.eqb_eq in Hz; contradiction|].
    destruct H1 as [Hreq H1]. destruct (Htick eq_refl eq_refl) as [Htick1 _].
    assert (Henv : env w1 = env w) by (destruct Hp1 as (_ & _ & _ & _ & _ & H); exact H).
    assert (Hclient : voyageClient w1 = voyageClient w)
      by (destruct Hp1 as (_ & _ & _ & H & _); exact H).
    assert (Hshift : forall k, reply_at w1 (tick w1 + k) = reply_at w (tick w + S k)).
    { intros k. unfold reply_at. rewrite Henv, Htick1. f_equal. f_equal. lia. }
    fold (reply_at w (tick w)) in H1.
    destruct r1 as [embeddings|e].
    + assert (Hfirst : reply_at w (tick w) = Some embeddings).
      { destruct (reply_at w (tick w)) as [es|]; [congruence|].
        destruct H1 as (e & H1). discriminate. }
      destruct (IH (i + BATCH_SIZE) (acc ++ embeddings)%list w1)
        as (r & w' & ev & E & He & Ht & Hc & Hl & Hk & Hret & Hparts & Hfail & _).
      { unfold BATCH_SIZE. lia. }
      exists r, w', (ev1 ++ ev). split.
      { erewrite bind_Return by exact E1. exact E. }
      split; [eapply emitted_trans; eassumption|].
      rewrite toasts_app, Ht1, Ht. split; [reflexivity|].
      split; [congruence|]. split; [congruence|].
      unfold embed_requests in *. rewrite omap_app, Hreq. split; [|split; [|split; [|split]]].
      * intros [|k] b Hb; cbn in Hb.
        -- injection Hb as <-. rewrite Nat.mul_0_r, Nat.add_0_r. split; [reflexivity|exact Hi].
        -- destruct (Hk k b Hb) as [-> Hlt].
           replace (i + BATCH_SIZE * S k) with (i + BATCH_SIZE + BATCH_SIZE * k) by lia.
           split; [reflexivity|exact Hlt].
      * intros es Hr. cbn [concat app]. rewrite (Hret es Hr).
        unfold batch. rewrite Nat.add_comm, <- skipn_skipn. apply firstn_skipn.
      * intros es Hr. destruct (Hparts es Hr) as (parts & -> & Hlen & Hlook).
        exists (embeddings :: parts). cbn [concat length app].
        split; [rewrite <- app_assoc; reflexivity|]. split; [rewrite Hlen; reflexivity|].
        intros [|k] part Hpart; cbn in Hpart.
        -- injection Hpart as <-. rewrite Nat.add_0_r. exact Hfirst.
        -- rewrite <- Hshift. apply (Hlook k part Hpart).
      * intros [|k] Hkey' Hlt Hbefore Hnone.
        -- rewrite Nat.add_0_r in Hnone. congruence.
        -- destruct (Hfail k) as [Hthrow Hlen].
           ++ rewrite Hclient. exact Hkey'.
           ++ lia.
           ++ intros j Hj. rewrite Hshift. apply Hbefore. lia.
           ++ rewrite Hshift. exact Hnone.
           ++ split; [exact Hthrow|]. cbn [length app]. rewrite Hlen. reflexivity.
      * intros Hno. congruence.
    + exists (Throw e), w1, ev1. split.
      { erewrite bind_Throw by exact E1. reflexivity. }
      split; [exact He1|]. split; [exact Ht1|]. split; [exact Hc1|]. split; [exact Hl1|].
      unfold embed_requests in *. rewrite Hreq. split; [|split; [|split; [|split]]].
      * intros [|k] b Hb; cbn in Hb; [|discriminate].
        injection Hb as <-. rewrite Nat.mul_0_r, Nat.add_0_r. split; [reflexivity|exact Hi].
      * discriminate.
      * discriminate.
      * intros [|k] _ _ Hbefore _; [split; [eauto|reflexivity]|].
        destruct (Hbefore 0) as [es Hes]; [lia|]. rewrite Nat.add_0_r in Hes.
        rewrite Hes in H1. discriminate.
      * intros Hno. congruence.
Qed.

(** X18. [embedDocuments] sends the texts in batches of 128, in their
    order: the request number [k] holds the texts from position [128 k]
    on, 128 of them or those that are left, and no request is empty or
    past the end. The replies are taken one after the other. When the
    call returns, the requests together hold every text once, and the
    result is made of the embeddings of the replies, one reply after the
    other. When the reply to a batch carries no embeddings (the request
    failed, the status is not OK, or the body has no items) and those
    before it did, the call throws and the request of that batch is the
    last one: no further request is sent. Without a key the call throws
    before any request. For no text it answers no embedding without a
    request. The stores are not touched. *)
Theorem embedDocuments_batches texts w :
  exists r w' events,
    embedDocuments texts w = (r, w')
    /\ emitted w w' events /\ toasts events = []
    /\ cache w' = cache w /\ localStorage w' = localStorage w
    /\ (forall k batch,
          embed_requests events !! k = Some batch ->
          batch = firstn BATCH_SIZE (skipn (BATCH_SIZE * k) texts)
          /\ BATCH_SIZE * k < length texts)
    /\ (forall embeddings,
          r = Return embeddings ->
          concat (embed_requests events) = texts
          /\ exists parts,
               embeddings = concat parts
               /\ length parts = length (embed_requests events)
               /\ forall k part, parts !! k = Some part ->
                                 reply_at w (tick w + k) = Some part)
    /\ (forall k,
          JS.truthy (vc_apiKey (voyageClient w)) = true ->
          BATCH_SIZE * k < length texts ->
          (forall j, j < k -> is_Some (reply_at w (tick w + j))) ->
          reply_at w (tick w + k) = None ->
          (exists e, r = Throw e) /\ length (embed_requests events) = S k)
    /\ (JS.truthy (vc_apiKey (voyageClient w)) = false -> texts <> [] ->
        r = Throw (mkError "VoyageAI API key is not configured") /\ w' = w)
    /\ (texts = [] -> r = Return [] /\ w' = w).
Proof.
  unfold embedDocuments. destruct texts as [|t texts].
  - exists (Return []), w, []. split; [reflexivity|]. split; [apply emitted_refl|].
    split; [reflexivity|]. split; [reflexivity|]. split; [reflexivity|].
    split; [discriminate|]. split; [|split; [|split]].
    + intros es [= <-]. split; [reflexivity|]. exists [].
      split; [reflexivity|]. split; [reflexivity|discriminate].
    + intros k _ Hk. cbn in Hk. lia.
    + intros _ H. contradiction.
    + intros _. split; reflexivity.
  - cbn [length Nat.eqb].
    destruct (embedDocuments_from_run (S (length texts)) 0 (t :: texts) [] w)
      as (r & w' & ev & E & He & Ht & Hc & Hl & Hk & Hret & Hparts & Hfail & Hnokey);
      [cbn; lia|].
    exists r, w', ev. split; [exact E|]. split; [exact He|]. split; [exact Ht|].
    split; [exact Hc|]. split; [exact Hl|]. split; [exact Hk|].
    split; [|split; [exact Hfail|split; [|discriminate]]].
    + intros es Hr. split; [exact (Hret es Hr)|]. exact (Hparts es Hr).
    + intros Hno _. apply Hnokey; [exact Hno|cbn; lia].
Qed.

(** X19. [testConnection] of the embedding client never throws. It
    answers [true] exactly when the key is configured and the service
    answers the test request with an OK reply whose body is JSON and has
    its array of items; a body without it, as [{}], gives [false] like
    any other failure. The stores are not touched. *)
Theorem voyage_testConnection_iff w :
  exists ok w',
    testConnection w = (Return ok, w')
    /\ (ok = true <->
        JS.truthy (vc_apiKey (voyageClient w)) = true
        /\ exists r items,
             embedding_api (env w) (tick w) = Resolved r
             /\ resp_ok r = true /\ resp_json r = Some (Items items))
    /\ cache w' = cache w /\ localStorage w' = localStorage w.
Proof.
  destruct (embed_outcome ["test"%string] "document" w)
    as (r & w1 & ev & E & _ & _ & Hc & Hl & _ & H & _).
  unfold testConnection, try_catch. cbn [length Nat.eqb] in H.
  assert (Hcarries : (exists es, embeddings_of (embedding_api (env w) (tick w)) = Some es)
                     <-> exists r items,
                           embedding_api (env w) (tick w) = Resolved r
                           /\ resp_ok r = true /\ resp_json r = Some (Items items)).
  { unfold embeddings_of. destruct (embedding_api (env w) (tick w)) as [reason|r0].
    - split; [intros (es & [=])|intros (r' & items & [=] & _)].
    - destruct (resp_ok r0) eqn:Hok.
      + destruct (resp_json r0) as [[message|items]|] eqn:Hj.
        * split; [intros (es & [=])|]. intros (r' & items & [= <-] & _ & Hj').
          rewrite Hj in Hj'. discriminate.
        * split; [|eauto]. intros _. exists r0, items. repeat split; assumption.
        * split; [intros (es & [=])|]. intros (r' & items & [= <-] & _ & Hj').
          rewrite Hj in Hj'. discriminate.
      + split; [intros (es & [=])|]. intros (r' & items & [= <-] & Hok' & _). congruence. }
  destruct r as [es|e].
  - erewrite bind_Return by exact E. exists true, w1.
    split; [reflexivity|]. split; [|split; assumption].
    rewrite <- Hcarries. split; [|reflexivity]. intros _.
    destruct (JS.truthy (vc_apiKey (voyageClient w))); cbn [negb] in H;
      [|destruct H as [H _]; discriminate].
    split; [reflexivity|]. destruct H as [_ H].
    destruct (embeddings_of _) as [es'|]; [exists es'; reflexivity|].
    destruct H as (e & H). discriminate.
  - erewrite bind_Throw by exact E. eexists false, _.
    split; [reflexivity|]. split; [|split; assumption].
    rewrite <- Hcarries. split; [discriminate|]. intros [Hkey (es & Hes)].
    rewrite Hkey in H. cbn [negb] in H. destruct H as [_ H]. rewrite Hes in H. discriminate.
Qed.

(** An OK reply whose body has no [data] array: the connection test
    answers [false]. *)
Lemma testConnection_without_data :
  fst (testConnection
         (page (constant_env failed_to_fetch
                  (reply (Malformed "Cannot read properties of undefined (reading 'sort')"))
                  false) ∅))
  = Return false.
Proof. reflexivity. Qed.

End EmbeddingFacts.

(** ** Retrieval and the context of a summary *)

Section RetrievalFacts.
Import Runtime Similarity.

Lemma embedQuery_run text w :
  exists r w' events,
    VoyageAI.embedQuery text w = (r, w')
    /\ emitted w w' events /\ toasts events = []
    /\ cache w' = cache w /\ localStorage w' = localStorage w /\ same_page w w'
    /\ (stages events = [] \/ stages events = [StageEmbed])
    /\ (if JS.truthy (vc_apiKey (voyageClient w)) then
          List.filter is_embed_request events = [EvEmbedRequest [text] "query"]
          /\ match reply_at w (tick w) with
             | Some es => r = Return (hd [] es)
             | None => exists e, r = Throw e
             end
        else exists e, r = Throw e).
Proof.
  unfold VoyageAI.embedQuery, bind at 1, VoyageAI.embed, bind at 1, get_world.
  unfold reply_at, embeddings_of.
  destruct (JS.truthy (vc_apiKey (voyageClient w))); cbn [negb].
  2:{ eexists _, _, _. split; [reflexivity|]. split; [emitted_now|].
      unfold same_page. cbn. repeat split; try reflexivity;
        first [left; reflexivity | eexists; reflexivity]. }
  cbn [length Nat.eqb].
  unfold try_catch, bind at 1, fetch.
  destruct (embedding_api (env w) (tick w)) as [reason|r].
  { eexists _, _, _. split; [reflexivity|]. split; [emitted_now|].
    unfold same_page. cbn. repeat split; try reflexivity;
      first [right; reflexivity | eexists; reflexivity]. }
  destruct (resp_ok r); cbn [negb].
  2:{ eexists _, _, _. split; [reflexivity|]. split; [emitted_now|].
      unfold same_page. cbn. repeat split; try reflexivity;
        first [right; reflexivity | eexists; reflexivity]. }
  unfold bind at 1, response_json.
  destruct (resp_json r) as [[message|items]|]; cbv beta iota delta [bind ret].
  - eexists _, _, _. split; [reflexivity|]. split; [emitted_now|].
    unfold same_page. cbn. repeat split; try reflexivity;
      first [right; reflexivity | eexists; reflexivity].
  - eexists _, _, _. split; [reflexivity|]. split; [emitted_now|].
    unfold same_page. cbn. repeat split; try reflexivity;
      first [right; reflexivity | destruct (List.map snd _); reflexivity].
  - eexists _, _, _. split; [reflexivity|]. split; [emitted_now|].
    unfold same_page. cbn. repeat split; try reflexivity;
      first [right; reflexivity | eexists; reflexivity].
Qed.

Lemma StronglySorted_firstn {A} (R : A -> A -> Prop) (l : list A) n :
  StronglySorted R l -> StronglySorted R (firstn n l).
Proof.
  intros H. rewrite <- (firstn_skipn n l) in H.
  apply StronglySorted_app_1_l in H. exact H.
Qed.

Lemma In_firstn {A} (l : list A) n x : In x (firstn n l) -> In x l.
Proof.
  intros H. rewrite <- (firstn_skipn n l). apply in_or_app. left. exact H.
Qed.

(** What is true of every result of a retrieval for the character [c]
    in the world [w'], with the embedding [query] of the query text. *)
Definition relevant (threshold : JS.number) (c : string) (w' : World) (query : vector)
    (item : Scored) : Prop :=
  In (memory item) (stored c w')
  /\ has_embedding (memory item) = true
  /\ JS.ge (similarity item) threshold = true
  /\ similarity item = cosineSimilarity (Some query) (embedding_numbers (memory item)).

(** X20. [retrieveRelevantMemories] never throws: an error of the
    embedding service is logged and answered by no memory. It sends at
    most one request, shows no notification and writes nothing to
    [localStorage]. With a current character and the key configured it
    asks the service for the embedding of the query text as a query;
    when the reply carries embeddings and the first of them by index is
    not empty, the result is what [findTopKSimilar] makes of that
    embedding, the memories of the character's store and the [top_k]
    and the threshold of the settings. So every result is a memory of
    that store with an embedding that is not empty, scored by its cosine
    similarity to the embedding returned for the query text, at or above
    the threshold; the results come in non-increasing similarity and are
    at most [top_k]. In every other case there is no result; without a
    current character nothing happens at all. *)
Theorem retrieveRelevantMemories_spec queryText w :
  exists results w' events,
    Index.retrieveRelevantMemories queryText w = (Return results, w')
    /\ emitted w w' events /\ toasts events = []
    /\ (stages events = [] \/ stages events = [StageEmbed])
    /\ localStorage w' = localStorage w /\ same_page w w'
    /\ length results <= top_k (settings w)
    /\ StronglySorted at_least results
    /\ (forall c es,
          Index.truthy_id (host w) = Some c ->
          JS.truthy (vc_apiKey (voyageClient w)) = true ->
          reply_at w (tick w) = Some es -> hd [] es <> [] ->
          List.filter is_embed_request events = [EvEmbedRequest [queryText] "query"]
          /\ results
             = findTopKSimilar (Some (hd [] es)) (Some (stored c w'))
                 (top_k (settings w)) (similarity_threshold (settings w))
          /\ Forall (relevant (similarity_threshold (settings w)) c w' (hd [] es)) results)
    /\ (results <> [] ->
        exists c es,
          Index.truthy_id (host w) = Some c
          /\ JS.truthy (vc_apiKey (voyageClient w)) = true
          /\ reply_at w (tick w) = Some es /\ hd [] es <> [])
    /\ (Index.truthy_id (host w) = None -> results = [] /\ w' = w).
Proof.
  unfold Index.retrieveRelevantMemories, bind at 1, get_world.
  destruct (Index.truthy_id (host w)) as [c|] eqn:Hid.
  2:{ exists [], w, []. split; [reflexivity|]. split; [apply emitted_refl|].
      split; [reflexivity|]. split; [left; reflexivity|]. split; [reflexivity|].
      split; [reflexivity|]. split; [cbn; lia|]. split; [constructor|].
      split; [intros c es [=]|]. split; [intros H; contradiction|].
      intros _. split; reflexivity. }
  assert (Hnone : forall w' events,
             emitted w w' events -> toasts events = [] ->
             (stages events = [] \/ stages events = [StageEmbed]) ->
             localStorage w' = localStorage w -> same_page w w' ->
             (forall es, JS.truthy (vc_apiKey (voyageClient w)) = true ->
                         reply_at w (tick w) = Some es -> hd [] es <> [] ->
                         List.filter is_embed_request events
                         = [EvEmbedRequest [queryText] "query"]
                         /\ stored c w' = []) ->
             exists results w'' events',
               (@Return (list Scored) [], w') = (Return results, w'')
               /\ emitted w w'' events' /\ toasts events' = []
               /\ (stages events' = [] \/ stages events' = [StageEmbed])
               /\ localStorage w'' = localStorage w /\ same_page w w''
               /\ length results <= top_k (settings w)
               /\ StronglySorted at_least results
               /\ (forall c' es,
                     Some c = Some c' ->
                     JS.truthy (vc_apiKey (voyageClient w)) = true ->
                     reply_at w (tick w) = Some es -> hd [] es <> [] ->
                     List.filter is_embed_request events'
                     = [EvEmbedRequest [queryText] "query"]
                     /\ results
                        = findTopKSimilar (Some (hd [] es)) (Some (stored c' w''))
                            (top_k (settings w)) (similarity_threshold (settings w))
                     /\ Forall (relevant (similarity_threshold (settings w)) c' w'' (hd [] es))
                          results)
               /\ (results <> [] ->
                   exists c' es,
                     Some c = Some c'
                     /\ JS.truthy (vc_apiKey (voyageClient w)) = true
                     /\ reply_at w (tick w) = Some es /\ hd [] es <> [])
               /\ (Some c = None -> results = [] /\ w'' = w)).
  { intros w' events He Ht Hs Hl Hp Hempty. exists [], w', events.
    split; [reflexivity|]. split; [exact He|]. split; [exact Ht|]. split; [exact Hs|].
    split; [exact Hl|]. split; [exact Hp|]. split; [cbn; lia|]. split; [constructor|].
    split; [|split; [intros H; contradiction|discriminate]].
    intros c' es [= <-] Hkey Hes Hq. destruct (Hempty es Hkey Hes Hq) as [Hreq Hst].
    split; [exact Hreq|]. rewrite Hst. split; [reflexivity|constructor]. }
  destruct (embedQuery_run queryText w)
    as (r1 & w1 & ev1 & E1 & He1 & Ht1 & Hc1 & Hl1 & Hp1 & Hs1 & Hout).
  unfold try_catch.
  destruct r1 as [queryEmbedding|e].
  2:{ erewrite bind_Throw by exact E1.
      apply (Hnone _ (ev1 ++ [EvConsoleError
                                ("[VoyageAI Memory] Retrieval error: " ++ err_message e)%string])).
      - unfold emitted in *. cbn. rewrite He1, app_assoc. reflexivity.
      - rewrite toasts_app, Ht1. reflexivity.
      - rewrite stages_app, app_nil_r. exact Hs1.
      - exact Hl1.
      - destruct Hp1 as (Q1 & Q2 & Q3 & Q4 & Q5 & Q6). unfold same_page. repeat split; assumption.
      - intros es Hkey Hes _. rewrite Hkey, Hes in Hout. destruct Hout as [_ [=]]. }
  erewrite bind_Return by exact E1.
  assert (Hkey : JS.truthy (vc_apiKey (voyageClient w)) = true).
  { destruct (JS.truthy (vc_apiKey (voyageClient w))); [reflexivity|].
    destruct Hout as (e & [=]). }
  rewrite Hkey in Hout. destruct Hout as [Hreq Hout].
  assert (Hquery : forall es, reply_at w (tick w) = Some es -> queryEmbedding = hd [] es).
  { intros es Hes. rewrite Hes in Hout. congruence. }
  destruct (Nat.eqb (length queryEmbedding) 0) eqn:Hq.
  { apply (Hnone _ ev1); try assumption.
    intros es _ Hes Hne. rewrite <- (Hquery es Hes) in Hne.
    destruct queryEmbedding; [contradiction|discriminate]. }
  destruct (loadMemories_run c "" w1)
    as (data & w2 & E2 & Hc2 & Hl2 & Hp2 & (ev2 & He2 & Hs2 & Ht2) & _).
  unfold Storage.getMemories. unfold bind at 1. erewrite bind_Return by exact E2.
  unfold ret at 1.
  assert (He12 : emitted w w2 (ev1 ++ ev2)) by (eapply emitted_trans; eassumption).
  assert (Hs12 : stages (ev1 ++ ev2) = [] \/ stages (ev1 ++ ev2) = [StageEmbed]).
  { rewrite stages_app, Hs2, app_nil_r. exact Hs1. }
  assert (Ht12 : toasts (ev1 ++ ev2) = []).
  { rewrite toasts_app, Ht1, Ht2. reflexivity. }
  assert (Hquiet : forall evs, stages evs = [] -> List.filter is_embed_request evs = []).
  { intros evs. induction evs as [|ev evs IH]; [reflexivity|].
    unfold stages. cbn [omap]. destruct ev; cbn; try discriminate; exact IH. }
  assert (Hreq12 : List.filter is_embed_request (ev1 ++ ev2)
                   = [EvEmbedRequest [queryText] "query"]).
  { rewrite List.filter_app, Hreq, (Hquiet ev2 Hs2). reflexivity. }
  destruct (Nat.eqb (length (memories data)) 0) eqn:Hm.
  { apply (Hnone _ (ev1 ++ ev2)); try assumption; [congruence|etransitivity; eassumption|].
    intros es _ _ _. split; [exact Hreq12|].
    unfold stored. rewrite Hc2, lookup_insert_eq.
    destruct (memories data); [reflexivity|discriminate]. }
  set (results := findTopKSimilar (Some queryEmbedding) (Some (memories data))
                    (top_k (settings w)) (similarity_threshold (settings w))).
  destruct (log_run ("Found " ++ pretty (length results) ++ " relevant memories")%string w2)
    as (w3 & E3 & (Hp3 & Hl3 & Hk3 & _ & (ev3 & He3 & Hs3 & Ht3))).
  erewrite bind_Return by exact E3.
  assert (Hstored : stored c w3 = memories data).
  { unfold stored. rewrite (Hk3 c data); [reflexivity|]. rewrite Hc2. apply lookup_insert_eq. }
  exists results, w3, ((ev1 ++ ev2) ++ ev3). split; [reflexivity|].
  split; [eapply emitted_trans; eassumption|].
  split; [rewrite toasts_app, Ht12, Ht3; reflexivity|].
  split; [rewrite stages_app, Hs3, app_nil_r; exact Hs12|].
  split; [congruence|]. split; [etransitivity; [exact Hp1|]; etransitivity; eassumption|].
  split; [unfold results; rewrite findTopKSimilar_candidates; apply firstn_le_length|].
  split; [unfold results; rewrite findTopKSimilar_candidates;
          apply StronglySorted_firstn, sorted_candidates|].
  split; [|split; [|discriminate]].
  - intros c' es [= <-] _ Hes Hne. rewrite <- (Hquery es Hes), Hstored.
    split; [rewrite List.filter_app, Hreq12, (Hquiet ev3 Hs3); reflexivity|].
    split; [reflexivity|].
    apply List.Forall_forall. intros item Hin. unfold results in Hin.
    rewrite findTopKSimilar_candidates in Hin. apply In_firstn in Hin.
    apply (Permutation_in _ (Array_sort_Permutation _ _)) in Hin.
    apply candidates_spec in Hin as (qv & l & [= <-] & [= <-] & Hmem & Hemb & Hsim & Hge).
    unfold relevant. rewrite Hstored. repeat split; assumption.
  - intros _. destruct (reply_at w (tick w)) as [es|] eqn:Hes.
    + exists c, es. split; [reflexivity|]. split; [exact Hkey|]. split; [reflexivity|].
      rewrite <- (Hquery es eq_refl). intros ->. discriminate.
    + destruct Hout as (e & [=]).
Qed.

(** Oldest first. *)
Definition not_after (a b : MemoryRecord) : Prop := (timestamp a <= timestamp b)%Z.

Definition not_before (a b : MemoryRecord) : Prop := (timestamp b <= timestamp a)%Z.

#[local] Instance not_before_Transitive : Transitive not_before.
Proof. intros a b c. unfold not_before. lia. Qed.

(** The comparator of [getRecentSummaries]:
    [(a, b) => new Date(b.timestamp) - new Date(a.timestamp)]. *)
Definition newest_first (a b : MemoryRecord) : bool := Z.ltb 0 (timestamp b - timestamp a).

Lemma sorted_newest_first l : StronglySorted not_before (JS.Array_sort newest_first l).
Proof.
  apply Sorted_StronglySorted; [typeclasses eauto|].
  apply (Array_sort_Sorted newest_first (fun _ => True) not_before).
  - intros x y _ _ H. unfold newest_first in H. apply Z.ltb_ge in H. unfold not_before. lia.
  - intros x y _ _ H. unfold newest_first in H. apply Z.ltb_lt in H. unfold not_before. lia.
  - apply List.Forall_forall. intros; exact I.
Qed.

Lemma StronglySorted_rev {A} (R : A -> A -> Prop) (l : list A) :
  StronglySorted R l -> StronglySorted (fun a b => R b a) (rev l).
Proof.
  induction 1 as [|a l _ IH Hall]; [constructor|].
  cbn [rev]. apply StronglySorted_app_2; [|exact IH|repeat constructor].
  intros x1 x2 H1 H2. apply list_elem_of_singleton in H2. subst x2.
  rewrite List.Forall_forall in Hall. apply Hall.
  apply in_rev. apply list_elem_of_In. exact H1.
Qed.

(** X21. [getRecentSummaries] never throws and answers the summaries
    of the [count] most recent memories of the store, or of all of them
    when there are fewer, oldest first: the memories picked and those
    left out make up the store, none left out is more recent than one
    picked, and the ones picked are in the order of their timestamps. *)
Theorem getRecentSummaries_spec characterId count w :
  exists data w' picked rest,
    Storage.loadMemories characterId "" w = (Return data, w')
    /\ Index.getRecentSummaries characterId count w = (Return (List.map summary picked), w')
    /\ length picked = Nat.min count (length (memories data))
    /\ Permutation (picked ++ rest) (memories data)
    /\ StronglySorted not_after picked
    /\ (forall p r, In p picked -> In r rest -> (timestamp r <= timestamp p)%Z).
Proof.
  destruct (loadMemories_run characterId "" w) as (data & w' & E & _).
  set (sorted := JS.Array_sort newest_first (memories data)).
  exists data, w', (rev (firstn count sorted)), (skipn count sorted).
  split; [exact E|].
  assert (Hsorted : StronglySorted not_before sorted) by apply sorted_newest_first.
  assert (Hperm : Permutation sorted (memories data)) by apply Array_sort_Permutation.
  split.
  { unfold Index.getRecentSummaries, try_catch, Storage.getMemories.
    unfold bind at 1. erewrite bind_Return by exact E. unfold ret at 1.
    destruct (memories data) as [|m ms] eqn:Hm.
    - cbn. destruct count; reflexivity.
    - cbn [length Nat.eqb]. reflexivity. }
  split.
  { rewrite length_rev, length_firstn. unfold sorted. rewrite Array_sort_length. reflexivity. }
  split.
  { etransitivity; [|exact Hperm]. rewrite <- (firstn_skipn count sorted) at 3.
    apply Permutation_app_tail. symmetry. apply Permutation_rev. }
  split.
  { apply (StronglySorted_rev not_before). apply StronglySorted_firstn. exact Hsorted. }
  intros p r Hp Hr. apply in_rev in Hp.
  rewrite <- (firstn_skipn count sorted) in Hsorted.
  apply (StronglySorted_app_1_elem_of not_before _ _ p r Hsorted);
    apply list_elem_of_In; assumption.
Qed.

(** The test of the loop of [getRecentRawMessages] on the message at
    index [i]: a message goes into the result when it is not a system
    message, is not the excluded one, is of a wanted kind, and has five
    characters or more once trimmed. *)
Definition wanted (includeBot includeUser : bool) (excludeIndex : Z)
    (im : Z * ChatMessage) : bool :=
  let (i, msg) := im in
  (negb (is_system msg)
   && negb (Z.leb 0 excludeIndex && Z.eqb i excludeIndex)
   && negb (is_user msg && negb includeUser)
   && negb (negb (is_user msg) && negb includeBot)
   && negb (negb (JS.truthy (mes msg)) || Nat.ltb (String.length (JS.trim (mes msg))) 5))%bool.

(** What is pushed for a message. *)
Definition raw_of (context : Context) (im : Z * ChatMessage) : RawMessage :=
  {| raw_role := if is_user (snd im) then "user" else "assistant";
     raw_name := if is_user (snd im) then JS.or_else (name1 context) "User"
                 else JS.or_else (name2 context) "Character";
     raw_content := mes (snd im) |}.

Lemma collect_raw_spec context includeBot includeUser excludeIndex messages count :
  Index.collect_raw context includeBot includeUser excludeIndex messages count
  = List.map (raw_of context)
      (firstn count (List.filter (wanted includeBot includeUser excludeIndex) messages)).
Proof.
  revert count. induction messages as [|[i msg] messages IH]; intros count.
  - destruct count; reflexivity.
  - cbn [Index.collect_raw List.filter]. unfold wanted at 1.
    destruct count as [|count].
    { rewrite firstn_O. reflexivity. }
    destruct (is_system msg); cbn [negb andb]; [apply IH|].
    destruct (Z.leb 0 excludeIndex && Z.eqb i excludeIndex)%bool; cbn [negb andb]; [apply IH|].
    destruct (is_user msg && negb includeUser)%bool; cbn [negb andb]; [apply IH|].
    destruct (negb (is_user msg) && negb includeBot)%bool; cbn [negb andb]; [apply IH|].
    destruct (negb (JS.truthy (mes msg)) || Nat.ltb (String.length (JS.trim (mes msg))) 5)%bool;
      cbn [negb]; [apply IH|].
    cbn [firstn List.map]. rewrite IH. reflexivity.
Qed.

(** X22. [getRecentRawMessages] answers the last [count] messages of
    the chat that pass its test (not a system message, not the excluded
    index, of a wanted kind, five characters or more once trimmed), or
    all of them when there are fewer, in the order of the chat; a
    missing chat gives none. So the result has at most [count]
    messages. *)
Theorem getRecentRawMessages_spec context count includeBot includeUser excludeIndex :
  (chat context = None ->
   Index.getRecentRawMessages context count includeBot includeUser excludeIndex = [])
  /\ (forall messages,
        chat context = Some messages ->
        let passing := List.filter (wanted includeBot includeUser excludeIndex)
                         (Index.indexed_from 0%Z messages) in
        Index.getRecentRawMessages context count includeBot includeUser excludeIndex
        = List.map (raw_of context) (skipn (length passing - count) passing))
  /\ length (Index.getRecentRawMessages context count includeBot includeUser excludeIndex)
     <= count.
Proof.
  assert (Hsome : forall messages,
             chat context = Some messages ->
             Index.getRecentRawMessages context count includeBot includeUser excludeIndex
             = List.map (raw_of context)
                 (skipn (length (List.filter (wanted includeBot includeUser excludeIndex)
                                   (Index.indexed_from 0%Z messages)) - count)
                    (List.filter (wanted includeBot includeUser excludeIndex)
                       (Index.indexed_from 0%Z messages)))).
  { intros messages Hchat. unfold Index.getRecentRawMessages. rewrite Hchat.
    destruct messages as [|m ms]; [destruct count; reflexivity|].
    rewrite collect_raw_spec, <- map_rev, filter_rev, firstn_rev, rev_involutive.
    reflexivity. }
  split; [|split].
  - intros Hchat. unfold Index.getRecentRawMessages. rewrite Hchat. reflexivity.
  - intros messages Hchat. cbv zeta. apply Hsome, Hchat.
  - destruct (chat context) as [messages|] eqn:Hchat.
    + rewrite (Hsome messages eq_refl), length_map, length_skipn. lia.
    + unfold Index.getRecentRawMessages. rewrite Hchat. cbn. lia.
Qed.

End RetrievalFacts.

(** ** The commands of the page *)

Section CommandFacts.
Import Runtime.

(** What [storeCurrentChat] hands to [summarize] and to [addMemory] for
    a message. *)
Definition batch_context (context : Context) (message : ChatMessage) : SummarizeContext :=
  {| ctx_role := if is_user message then "user" else "assistant";
     ctx_characterName := name2 context; ctx_userName := "";
     ctx_wordLimit := 0; ctx_summaryHistory := []; ctx_rawHistory := [] |}%string.

Definition batch_record (context : Context) (message : ChatMessage) (s : string)
    (emb : list JS.number) : PartialMemory :=
  Storage.createMemory (mes message) s emb
    {| Storage.arg_role := Some (if is_user message then "user" else "assistant")%string;
       Storage.arg_chatId := context_chatId context |}.

(** The turns of the loop of [storeCurrentChat], message by message,
    from the world [w] to the world [w']: a message is tried in the
    world that the message before it left. Either the summarizer
    returns a summary of the message, the embedding service an embedding
    of that summary, and the record made of them is added to the store
    of the character; or one of the two throws, the error goes to the
    console, and nothing is added. [outcomes] holds for each message the
    record added for it, or nothing. *)
Inductive turns (context : Context) (c : string)
  : list ChatMessage -> World -> list (option MemoryRecord) -> World -> Prop :=
| turns_done w : turns context c [] w [] w
| turn_processed message messages w s w1 emb w2 newMemory w3 outcomes w' :
    Summarizer.summarize (mes message) (batch_context context message) w = (Return s, w1) ->
    VoyageAI.embedDocument s w1 = (Return emb, w2) ->
    Storage.addMemory c (batch_record context message s emb) w2 = (Return newMemory, w3) ->
    turns context c messages w3 outcomes w' ->
    turns context c (message :: messages) w (Some newMemory :: outcomes) w'
| turn_failed message messages w e w1 outcomes w' :
    (Summarizer.summarize (mes message) (batch_context context message) w = (Throw e, w1)
     \/ exists s w0,
          Summarizer.summarize (mes message) (batch_context context message) w
          = (Return s, w0)
          /\ VoyageAI.embedDocument s w0 = (Throw e, w1)) ->
    turns context c messages
      (emit (EvConsoleError ("[VoyageAI Memory] Error processing message: "
                             ++ err_message e)%string) w1)
      outcomes w' ->
    turns context c (message :: messages) w (None :: outcomes) w'.

(** The records among the outcomes, in their order. *)
Definition records (outcomes : list (option MemoryRecord)) : list MemoryRecord :=
  omap (fun outcome => outcome) outcomes.

(** How one turn of the loop of [storeCurrentChat] ends: a record for
    the message was appended to the character's store, or the turn
    failed and the stores are as they were. *)
Lemma store_one_run context c message counts w :
  characterId context = Some c ->
  exists w' events outcome,
    emitted w w' events /\ toasts events = [] /\ same_page w w'
    /\ (forall messages outcomes w'',
          turns context c messages w' outcomes w'' ->
          turns context c (message :: messages) w (outcome :: outcomes) w'')
    /\ match outcome with
       | Some newMemory =>
           Index.store_one context message counts w
           = (Return (S (fst counts), snd counts), w')
           /\ exists data0 data',
                cache w' = <[c := data']> (cache w)
                /\ memories data' = memories data0 ++ [newMemory]
                /\ (forall d, cache w !! c = Some d -> data0 = d)
                /\ original_message newMemory = mes message
       | None =>
           Index.store_one context message counts w
           = (Return (fst counts, S (snd counts)), w')
           /\ cache w' = cache w /\ localStorage w' = localStorage w
       end.
Proof.
  intros Hc. unfold Index.store_one, try_catch.
  fold (batch_context context message).
  destruct (summarize_run (mes message) (batch_context context message) w)
    as (r1 & w1 & ev1 & E1 & He1 & Ht1 & Hc1 & Hl1 & Hp1 & _).
  destruct r1 as [s|e].
  2:{ erewrite bind_Throw by exact E1.
      exists (emit (EvConsoleError ("[VoyageAI Memory] Error processing message: "
                                    ++ err_message e)%string) w1),
        (ev1 ++ [EvConsoleError ("[VoyageAI Memory] Error processing message: "
                                 ++ err_message e)%string]), None.
      split; [unfold emitted in *; cbn; rewrite He1, app_assoc; reflexivity|].
      split; [rewrite toasts_app, Ht1; reflexivity|]. split.
      { destruct Hp1 as (Q1 & Q2 & Q3 & Q4 & Q5 & Q6). unfold same_page. repeat split; assumption. }
      split.
      { intros messages outcomes w'' H. eapply turn_failed; [left; exact E1|exact H]. }
      split; [reflexivity|]. split; [exact Hc1|exact Hl1]. }
  erewrite bind_Return by exact E1.
  destruct (embedDocument_run s w1)
    as (r2 & w2 & ev2 & E2 & He2 & Ht2 & Hc2 & Hl2 & Hp2 & _).
  destruct r2 as [emb|e].
  2:{ erewrite bind_Throw by exact E2.
      exists (emit (EvConsoleError ("[VoyageAI Memory] Error processing message: "
                                    ++ err_message e)%string) w2),
        ((ev1 ++ ev2) ++ [EvConsoleError ("[VoyageAI Memory] Error processing message: "
                                          ++ err_message e)%string]), None.
      split; [unfold emitted in *; cbn; rewrite He2, He1, !app_assoc; reflexivity|].
      split; [rewrite !toasts_app, Ht1, Ht2; reflexivity|]. split.
      { transitivity w1; [exact Hp1|].
        destruct Hp2 as (Q1 & Q2 & Q3 & Q4 & Q5 & Q6). unfold same_page. repeat split; assumption. }
      split.
      { intros messages outcomes w'' H. eapply turn_failed; [|exact H].
        right. exists s, w1. split; assumption. }
      split; [reflexivity|]. split; cbn [cache localStorage emit]; congruence. }
  erewrite bind_Return by exact E2.
  unfold Index.addMemory_for. rewrite Hc.
  fold (batch_record context message s emb).
  destruct (addMemory_run c (batch_record context message s emb) w2)
    as (data0 & w0 & uuid & wu & newMemory & data' & w3 & Eload & _ & Eadd & Hnew & Hc3
        & Hm3 & Hp3 & _ & (ev3 & He3 & _ & Ht3)).
  erewrite bind_Return by exact Eadd.
  exists w3, ((ev1 ++ ev2) ++ ev3), (Some newMemory).
  split; [eapply emitted_trans; [eapply emitted_trans|]; eassumption|].
  split; [rewrite !toasts_app, Ht1, Ht2, Ht3; reflexivity|].
  split; [transitivity w1; [exact Hp1|]; transitivity w2; assumption|].
  split.
  { intros messages outcomes w'' H. eapply turn_processed; eassumption. }
  split; [reflexivity|]. exists data0, data'.
  split; [rewrite Hc3; congruence|]. split; [exact Hm3|]. split.
  - intros d Hd.
    destruct (loadMemories_run c "" w2) as (x & y & El & _ & _ & _ & _ & Hhit & _).
    rewrite Eload in El. injection El as <- <-.
    apply (Hhit d). congruence.
  - rewrite Hnew. reflexivity.
Qed.

Lemma store_all_run context c messages counts w :
  characterId context = Some c ->
  exists processed failed w' events base outcomes,
    Index.store_all context messages counts w
    = (Return (fst counts + processed, snd counts + failed), w')
    /\ processed + failed = length messages
    /\ turns context c messages w outcomes w'
    /\ emitted w w' events /\ toasts events = [] /\ same_page w w'
    /\ stored c w' = base ++ records outcomes
    /\ length (records outcomes) = processed
    /\ List.map original_message (records outcomes) `sublist_of` List.map mes messages
    /\ (forall d, cache w !! c = Some d -> base = memories d)
    /\ (cache w' !! c = None -> cache w !! c = None /\ records outcomes = []).
Proof.
  intros Hc. revert counts w. induction messages as [|message messages IH]; intros counts w.
  - exists 0, 0, w, [], (stored c w), [].
    split; [cbn; rewrite !Nat.add_0_r; destruct counts; reflexivity|].
    split; [reflexivity|]. split; [constructor|]. split; [apply emitted_refl|].
    split; [reflexivity|].
    split; [reflexivity|]. split; [symmetry; apply app_nil_r|]. split; [reflexivity|].
    split; [constructor|]. split; [|auto].
    intros d Hd. unfold stored. rewrite Hd. reflexivity.
  - cbn [Index.store_all].
    destruct (store_one_run context c message counts w Hc)
      as (w1 & ev1 & outcome & He1 & Ht1 & Hp1 & Hturn & H1).
    destruct outcome as [newMemory|].
    + destruct H1 as (E1 & data0 & data' & Hc1 & Hm1 & Hhit & Hom).
      destruct (IH (S (fst counts), snd counts) w1)
        as (p & f & w' & ev & base & outcomes & E & Hsum & Hturns & He & Ht & Hp & Hst & Hlen
            & Hsub & Hbase & Hnone).
      exists (S p), f, w', (ev1 ++ ev), (memories data0), (Some newMemory :: outcomes).
      split.
      { erewrite bind_Return by exact E1. rewrite E. cbn [fst snd].
        replace (fst counts + S p) with (S (fst counts) + p) by lia. reflexivity. }
      split; [cbn; lia|]. split; [apply Hturn, Hturns|].
      split; [eapply emitted_trans; eassumption|].
      split; [rewrite toasts_app, Ht1, Ht; reflexivity|].
      split; [etransitivity; eassumption|].
      assert (Hd1 : cache w1 !! c = Some data').
      { rewrite Hc1. apply lookup_insert_eq. }
      change (records (Some newMemory :: outcomes)) with (newMemory :: records outcomes).
      split. { rewrite Hst, (Hbase data' Hd1), Hm1, <- app_assoc. reflexivity. }
      split; [cbn [length]; rewrite Hlen; reflexivity|].
      split; [cbn [List.map]; rewrite Hom; apply sublist_skip, Hsub|].
      split; [intros d Hd; f_equal; apply Hhit, Hd|].
      intros Hn. apply Hnone in Hn as [Hn _]. congruence.
    + destruct H1 as (E1 & Hc1 & _).
      destruct (IH (fst counts, S (snd counts)) w1)
        as (p & f & w' & ev & base & outcomes & E & Hsum & Hturns & He & Ht & Hp & Hst & Hlen
            & Hsub & Hbase & Hnone).
      exists p, (S f), w', (ev1 ++ ev), base, (None :: outcomes).
      split.
      { erewrite bind_Return by exact E1. rewrite E. cbn [fst snd].
        replace (snd counts + S f) with (S (snd counts) + f) by lia. reflexivity. }
      split; [cbn; lia|]. split; [apply Hturn, Hturns|].
      split; [eapply emitted_trans; eassumption|].
      split; [rewrite toasts_app, Ht1, Ht; reflexivity|].
      split; [etransitivity; eassumption|].
      change (records (None :: outcomes)) with (records outcomes).
      split; [exact Hst|]. split; [exact Hlen|].
      split; [cbn [List.map]; apply sublist_cons, Hsub|].
      rewrite <- Hc1. split; [exact Hbase|exact Hnone].
Qed.

(** The notification at the end of [storeCurrentChat]. *)
Definition processed_text (processed failed : nat) : string :=
  ("Processed " ++ pretty processed ++ " messages (" ++ pretty failed ++ " failed)")%string.

(** How a confirmed run of [storeCurrentChat] over [messages] ends:
    the turns run from the world that the confirmation left, then the
    statistics are read and the notification is shown. *)
Definition batch_outcome (c : string) (messages : list ChatMessage) (w w' : World)
    (events : list Event) : Prop :=
  exists processed failed base outcomes w1 w2,
    turns (host w) c messages (next_tick w) outcomes w1
    /\ reads_only w1 w2
    /\ w' = emit (EvToast ToastSuccess (processed_text processed failed)) w2
    /\ processed = length (records outcomes)
    /\ processed + failed = length messages
    /\ toasts events = [ToastSuccess]
    /\ last events = Some (EvToast ToastSuccess (processed_text processed failed))
    /\ stored c w' = base ++ records outcomes
    /\ List.map original_message (records outcomes) `sublist_of` List.map mes messages
    /\ (forall d, cache w !! c = Some d -> base = memories d).

(** X23. [storeCurrentChat] never throws and leaves the in-flight
    flag as it found it. Without a current character or a chat it
    warns and stops; with no message to store (a message is stored
    when it is not a system message and has 20 characters or more) it
    says so and stops; and when the user does not confirm it stops
    without a word. In these three cases the stores are as they were.
    Otherwise every message to store is tried once, in the order of the
    chat, each after the one before it: a message is processed, and
    the record made of its summary and of the embedding of that summary
    is appended to the character's store, when the summarizer and the
    embedding service both return for it; when one of them throws the
    message is counted as failed, the error goes to the console, and
    the next message is tried. The numbers of messages processed and
    failed add up to the number of messages to store, and the run ends
    with one notification that gives the two numbers. *)
Theorem storeCurrentChat_counts w :
  exists w' events,
    Index.storeCurrentChat w = (Return tt, w')
    /\ emitted w w' events /\ same_page w w'
    /\ match Index.truthy_id (host w), chat (host w) with
       | Some c, Some msgs =>
           if Nat.eqb (length (List.filter Index.storable msgs)) 0 then
             toasts events = [ToastInfo]
             /\ cache w' = cache w /\ localStorage w' = localStorage w
           else if confirms (env w) (tick w) then
             batch_outcome c (List.filter Index.storable msgs) w w' events
           else
             events = [] /\ cache w' = cache w /\ localStorage w' = localStorage w
       | _, _ =>
           toasts events = [ToastWarning]
           /\ cache w' = cache w /\ localStorage w' = localStorage w
       end.
Proof.
  unfold Index.storeCurrentChat, Index.storeCurrentChat_start.
  unfold bind at 1, bind at 1, get_world.
  assert (Hwarn : exists w' events,
             bind (bind (toastr ToastWarning "No active chat to process")
                     (fun _ => ret None))
               (fun start : option (Context * list ChatMessage) =>
                  match start with
                  | Some (context, messages) => Index.storeCurrentChat_rest context messages
                  | None => ret tt
                  end) w = (Return tt, w')
             /\ emitted w w' events /\ same_page w w'
             /\ toasts events = [ToastWarning]
             /\ cache w' = cache w /\ localStorage w' = localStorage w).
  { eexists _, [_]. split; [reflexivity|]. split; [emitted_now|].
    unfold same_page. cbn. repeat split; reflexivity. }
  destruct (Index.truthy_id (host w)) as [c|] eqn:Hid; [|exact Hwarn].
  destruct (chat (host w)) as [msgs|] eqn:Hchat; [|exact Hwarn].
  clear Hwarn. cbv zeta. set (messages := List.filter Index.storable msgs).
  destruct (Nat.eqb (length messages) 0) eqn:Hz.
  { eexists _, [_]. split; [reflexivity|]. split; [emitted_now|].
    unfold same_page. cbn. repeat split; reflexivity. }
  unfold bind at 1, confirm. cbv beta iota.
  destruct (confirms (env w) (tick w)) eqn:Hok.
  2:{ exists (next_tick w), []. split; [reflexivity|]. split; [emitted_now|].
      unfold same_page. cbn. repeat split; reflexivity. }
  cbv beta iota delta [ret]. unfold Index.storeCurrentChat_rest.
  assert (Hc : characterId (host w) = Some c).
  { unfold Index.truthy_id in Hid. destruct (characterId (host w)) as [c'|]; [|discriminate].
    destruct (JS.truthy c'); [|discriminate]. congruence. }
  destruct (store_all_run (host w) c messages (0, 0) (next_tick w) Hc)
    as (p & f & w1 & ev1 & base & outcomes & E1 & Hsum & Hturns & He1 & Ht1 & Hp1 & Hst & Hlen
        & Hsub & Hbase & Hnone).
  cbn [fst snd Nat.add] in E1.
  erewrite bind_Return by exact E1.
  destruct (updateMemoryStats_run w1) as (w2 & E2 & Hread).
  pose proof Hread as (Hp2 & Hl2 & Hk2 & _ & (ev2 & He2 & _ & Ht2)).
  erewrite bind_Return by exact E2.
  eexists _, ((ev1 ++ ev2) ++ [EvToast ToastSuccess (processed_text p f)]).
  split; [reflexivity|]. split.
  { unfold emitted in *. cbn in *. rewrite He2, He1, !app_assoc. reflexivity. }
  split.
  { transitivity (next_tick w); [unfold same_page; cbn; repeat split; reflexivity|].
    transitivity w1; [exact Hp1|].
    destruct Hp2 as (Q1 & Q2 & Q3 & Q4 & Q5 & Q6). unfold same_page. cbn.
    repeat split; assumption. }
  destruct (cache w1 !! c) as [d1|] eqn:Hd1.
  - exists p, f, base, outcomes, w1, w2. split; [exact Hturns|]. split; [exact Hread|].
    split; [reflexivity|]. split; [symmetry; exact Hlen|]. split; [exact Hsum|].
    split; [rewrite !toasts_app, Ht1, Ht2; reflexivity|].
    split; [apply last_snoc|].
    split. { unfold stored in *. cbn [cache emit]. rewrite (Hk2 c d1 Hd1). rewrite Hd1 in Hst. exact Hst. }
    split; [exact Hsub|exact Hbase].
  - destruct (Hnone eq_refl) as [Hn0 Hrec].
    exists p, f, (stored c w2), outcomes, w1, w2. split; [exact Hturns|]. split; [exact Hread|].
    split; [reflexivity|]. split; [symmetry; exact Hlen|]. split; [exact Hsum|].
    split; [rewrite !toasts_app, Ht1, Ht2; reflexivity|].
    split; [apply last_snoc|].
    split; [rewrite Hrec, app_nil_r; reflexivity|]. split; [exact Hsub|].
    intros d Hd. cbn [cache next_tick] in Hn0. congruence.
Qed.

(** X24. [onChatChanged] never throws and shows no notification. With
    a current character it forgets the cached store of the character
    and loads it again, with one request for the character's file: the
    store in the cache is then the store of the file, or a new store
    without memories when the file cannot be used, whatever the cache
    held before and whatever was saved to [localStorage], which is not
    touched. Without a current character nothing happens. *)
Theorem onChatChanged_reloads w :
  exists w' events,
    Index.onChatChanged w = (Return tt, w')
    /\ emitted w w' events /\ toasts events = []
    /\ localStorage w' = localStorage w
    /\ match Index.truthy_id (host w) with
       | None => w' = w
       | Some c =>
           omap file_of events = [Storage.getFilePath c]
           /\ exists data,
                cache w' = <[c := data]> (cache w)
                /\ (if unusable (file_server (env w) (tick w) (Storage.getFilePath c))
                    then character_id data = c /\ memories data = []
                    else exists r,
                           file_server (env w) (tick w) (Storage.getFilePath c) = Resolved r
                           /\ resp_json r = Some data)
       end.
Proof.
  unfold Index.onChatChanged, bind at 1, get_world.
  destruct (Index.truthy_id (host w)) as [c|] eqn:Hid.
  2:{ exists w, []. split; [reflexivity|]. split; [apply emitted_refl|].
      repeat split; reflexivity. }
  unfold bind at 1, Storage.invalidateCache, update.
  set (w1 := set_cache (delete c) w).
  assert (Hmiss : cache w1 !! c = None) by apply lookup_delete_eq.
  destruct (loadMemories_miss_run c "" w1 Hmiss)
    as (data & w2 & ev2 & E2 & He2 & Hf2 & Hc2 & Hfile).
  destruct (loadMemories_run c "" w1) as (x & y & El & _ & Hl2 & _ & (ev & He & _ & Ht) & _).
  rewrite E2 in El. injection El as <- <-.
  assert (Eev : ev = ev2).
  { unfold emitted in *. rewrite He2 in He. apply app_inv_head in He. congruence. }
  subst ev.
  assert (Estats : Index.updateMemoryStats w1 = (Return tt, next_tick w2)).
  { unfold Index.updateMemoryStats, bind at 1, get_world.
    change (host w1) with (host w). rewrite Hid.
    unfold try_catch, Storage.getStats. unfold bind at 1.
    erewrite bind_Return by exact E2. reflexivity. }
  erewrite bind_Return by exact Estats.
  destruct (log_dropped ("Switched to character: " ++ name2 (host w))%string (next_tick w2))
    as (w3 & E3 & ((ev3 & He3 & _ & Ht3) & Hc3 & Hl3 & _)).
  rewrite E3. unfold emitted in He3.
  cbn [trace cache localStorage next_tick] in He3, Hc3, Hl3.
  exists w3, (ev2 ++ ev3).
  split; [reflexivity|]. split; [apply (emitted_trans w w2 w3); [exact He2|exact He3]|].
  split; [rewrite toasts_app, Ht, Ht3; reflexivity|].
  split; [rewrite Hl3, Hl2; reflexivity|]. split.
  - rewrite omap_app, Hf2.
    assert (Hlog : omap file_of ev3 = []).
    { unfold Index.log, bind, get_world, when in E3. cbn [settings next_tick] in E3.
      destruct (debug_mode (settings w2)).
      - cbn in E3. injection E3 as <-. cbn in He3.
        apply app_inv_head in He3. subst ev3. reflexivity.
      - injection E3 as <-. cbn in He3.
        rewrite <- (app_nil_r (trace w2)) in He3 at 1. apply app_inv_head in He3.
        subst ev3. reflexivity. }
    rewrite Hlog. reflexivity.
  - exists data. split.
    + rewrite Hc3, Hc2. unfold w1. cbn [cache set_cache]. apply insert_delete_eq.
    + change (env w1) with (env w) in Hfile. change (tick w1) with (tick w) in Hfile.
      destruct (unusable _); [|exact Hfile]. destruct Hfile as (H1 & _ & H3).
      split; assumption.
Qed.

(** X25. [clearCurrentMemories] never throws, and clears nothing
    unless the user confirms. Without a current character it warns;
    when the user does not confirm nothing is shown and the stores are
    as they were; when the user confirms, the store of the current
    character is left without memories, the stores of the other
    characters are kept, and one notification of success is shown. *)
Theorem clearCurrentMemories_confirms w :
  exists w' events,
    Index.clearCurrentMemories w = (Return tt, w')
    /\ emitted w w' events
    /\ match Index.truthy_id (host w) with
       | None =>
           toasts events = [ToastWarning]
           /\ cache w' = cache w /\ localStorage w' = localStorage w
       | Some c =>
           if confirms (env w) (tick w) then
             toasts events = [ToastSuccess]
             /\ stored c w' = []
             /\ (forall other d, other <> c -> cache w !! other = Some d ->
                                 cache w' !! other = Some d)
           else events = [] /\ cache w' = cache w /\ localStorage w' = localStorage w
       end.
Proof.
  unfold Index.clearCurrentMemories, bind at 1, get_world.
  destruct (Index.truthy_id (host w)) as [c|] eqn:Hid.
  2:{ eexists _, [_]. split; [reflexivity|]. split; [emitted_now|].
      repeat split; reflexivity. }
  unfold bind at 1, confirm.
  destruct (confirms (env w) (tick w)).
  2:{ exists (next_tick w), []. split; [reflexivity|]. split; [emitted_now|].
      repeat split; reflexivity. }
  destruct (clearMemories_run c (next_tick w))
    as (w1 & E1 & Hs1 & _ & Ho1 & _ & (ev1 & He1 & Ht1) & (d & Hd)).
  erewrite bind_Return by exact E1.
  destruct (updateMemoryStats_run w1) as (w2 & E2 & (_ & _ & Hk2 & _ & (ev2 & He2 & _ & Ht2))).
  erewrite bind_Return by exact E2.
  eexists _, ((ev1 ++ ev2) ++ [_]). split; [reflexivity|]. split.
  { unfold emitted in *. cbn in *. rewrite He2, He1, !app_assoc. reflexivity. }
  split; [rewrite !toasts_app, Ht1, Ht2; reflexivity|]. split.
  - unfold stored in *. cbn [cache emit]. rewrite (Hk2 c d Hd). rewrite Hd in Hs1. exact Hs1.
  - intros other d' Hne Hd'. cbn [cache emit]. apply Hk2.
    rewrite (Ho1 other Hne). exact Hd'.
Qed.

(** X26. The import command never throws. Without a current character
    it warns, and without a file it does nothing. With a file, the
    user's answer chooses between merging and replacing; a file that
    is not JSON or has no array of memories gives one notification of
    failure and leaves the stores as they were, and a file with an
    array of memories is imported and gives one notification of
    success that tells the number of memories of the file. *)
Theorem importMemories_command file w :
  exists w' events,
    Index.importMemories file w = (Return tt, w')
    /\ emitted w w' events
    /\ match Index.truthy_id (host w), file with
       | None, _ =>
           toasts events = [ToastWarning]
           /\ cache w' = cache w /\ localStorage w' = localStorage w
       | Some _, None => w' = w
       | Some c, Some text =>
           match payload_memories text with
           | None =>
               toasts events = [ToastError]
               /\ cache w' = cache w /\ localStorage w' = localStorage w
           | Some imported =>
               toasts events = [ToastSuccess]
               /\ last events
                  = Some (EvToast ToastSuccess
                            ("Imported " ++ pretty (length imported) ++ " memories")%string)
               /\ exists data0 w0,
                    Storage.loadMemories c "" (next_tick w) = (Return data0, w0)
                    /\ stored c w'
                       = imported_into (confirms (env w) (tick w)) (memories data0) imported
           end
       end.
Proof.
  unfold Index.importMemories, bind at 1, get_world.
  destruct (Index.truthy_id (host w)) as [c|] eqn:Hid.
  2:{ eexists _, [_]. split; [reflexivity|]. split; [emitted_now|].
      repeat split; reflexivity. }
  destruct file as [text|].
  2:{ exists w, []. split; [reflexivity|]. split; [apply emitted_refl|reflexivity]. }
  unfold try_catch, bind at 1, confirm.
  set (merge := confirms (env w) (tick w)).
  destruct (payload_memories text) as [imported|] eqn:Hpay.
  - destruct text as [raw| |doc]; try discriminate. cbn in Hpay.
    destruct (doc_memories doc) as [| |ms] eqn:Hdoc; try discriminate.
    injection Hpay as ->.
    destruct (importMemories_array c doc imported merge (next_tick w) Hdoc)
      as (data0 & w0 & data' & w1 & Eload & Eimp & Hc1 & Hm1 & _).
    assert (Hev1 : exists ev1, emitted (next_tick w) w1 ev1 /\ toasts ev1 = []).
    { clear -Eimp Eload Hdoc.
      destruct (loadMemories_run c "" (next_tick w))
        as (x & y & El & _ & _ & _ & (ev0 & He0 & _ & Ht0) & _).
      rewrite Eload in El. injection El as <- <-.
      unfold Storage.importMemories, try_catch, bind at 1, Storage.JSON_parse, ret in Eimp.
      unfold bind at 1, Storage.get_memories, ret in Eimp. rewrite Hdoc in Eimp.
      erewrite bind_Return in Eimp by exact Eload.
      destruct merge.
      - unfold bind at 1, Storage.mutate, bind at 1, Storage.cache_set, update, ret in Eimp.
        match type of Eimp with
        | context [bind (Storage.saveMemories c ?d) _ ?w] =>
            destruct (saveMemories_run c d w) as (saved & ws & Es & _ & _ & (ev2 & He2 & _ & Ht2) & _)
        end.
        erewrite bind_Return in Eimp by exact Es. cbn in Eimp. injection Eimp as <-.
        exists (ev0 ++ ev2). unfold emitted in *. cbn in He2.
        rewrite He2, He0, toasts_app, Ht0, Ht2, app_assoc. split; reflexivity.
      - unfold bind at 1, Storage.mutate, bind at 1, Storage.cache_set, update, ret in Eimp.
        match type of Eimp with
        | context [bind (Storage.saveMemories c ?d) _ ?w] =>
            destruct (saveMemories_run c d w) as (saved & ws & Es & _ & _ & (ev2 & He2 & _ & Ht2) & _)
        end.
        erewrite bind_Return in Eimp by exact Es. cbn in Eimp. injection Eimp as <-.
        exists (ev0 ++ ev2). unfold emitted in *. cbn in He2.
        rewrite He2, He0, toasts_app, Ht0, Ht2, app_assoc. split; reflexivity. }
    destruct Hev1 as (ev1 & He1 & Ht1).
    erewrite bind_Return by exact Eimp.
    destruct (updateMemoryStats_run w1)
      as (w2 & E2 & (_ & _ & Hk2 & _ & (ev2 & He2 & _ & Ht2))).
    erewrite bind_Return by exact E2.
    eexists _, ((ev1 ++ ev2) ++ [_]). split; [reflexivity|]. split.
    { unfold emitted in *. cbn in *. rewrite He2, He1, !app_assoc. reflexivity. }
    split; [rewrite !toasts_app, Ht1, Ht2; reflexivity|].
    split; [apply last_snoc|].
    exists data0, w0. split; [exact Eload|].
    unfold stored. cbn [cache emit]. rewrite (Hk2 c data'); [exact Hm1|].
    rewrite Hc1. apply lookup_insert_eq.
  - destruct (importMemories_invalid c text merge (next_tick w)) as (e & E & _).
    { destruct text as [raw| |doc]; try exact I. cbn in Hpay.
      destruct (doc_memories doc); try exact I. discriminate. }
    erewrite bind_Throw by exact E.
    eexists _, [_; _]. split; [reflexivity|]. split; [emitted_now|].
    repeat split; reflexivity.
Qed.

End CommandFacts.

(** ** The message handlers *)

Section HandlerFacts.
Import Runtime.

(** The switches let the messages of the assistant, or of the user,
    through. *)
Definition lets_bot (switches : Index.Switches) : bool :=
  (Index.enabled switches && Index.auto_store switches && Index.summarize_bot switches)%bool.

Definition lets_user (switches : Index.Switches) : bool :=
  (Index.enabled switches && Index.auto_store switches && Index.summarize_user switches)%bool.

(** The message a handler would store: the one at the index, when the
    chat has it and it is not a system message. *)
Definition eligible (w : World) (messageId : nat) : option ChatMessage :=
  match chat (host w) with
  | Some msgs =>
      match nth_error msgs messageId with
      | Some message => if is_system message then None else Some message
      | None => None
      end
  | None => None
  end.

Lemma store_message_run messageId speaker w :
  is_Some (chat (host w)) ->
  Index.store_message messageId speaker w
  = match eligible w messageId with
    | Some message => Index.processAndStoreMessage (mes message) speaker (host w) w
    | None => (Return tt, w)
    end.
Proof.
  intros (msgs & Hchat). unfold Index.store_message, eligible, bind at 1, get_world.
  rewrite Hchat. destruct (nth_error msgs messageId) as [message|]; [|reflexivity].
  destruct (is_system message); reflexivity.
Qed.

Lemma processAndStoreMessage_returns messageText speaker context w :
  exists w',
    Index.processAndStoreMessage messageText speaker context w = (Return tt, w')
    /\ isProcessing w' = isProcessing w.
Proof.
  destruct (start_run messageText w) as [Hdrop Hgo].
  unfold Index.processAndStoreMessage.
  destruct (isProcessing w) eqn:Hflag.
  - destruct Hdrop as (w' & E & (_ & _ & _ & Hf & _)); [left; reflexivity|].
    exists w'. erewrite bind_Return by exact E. split; [reflexivity|congruence].
  - destruct (Index.too_short messageText) eqn:Hshort.
    + destruct Hdrop as (w' & E & (_ & _ & _ & Hf & _)); [right; reflexivity|].
      exists w'. erewrite bind_Return by exact E. split; [reflexivity|congruence].
    + erewrite bind_Return by exact (Hgo eq_refl eq_refl).
      destruct (rest_run messageText speaker context (set_isProcessing true w))
        as (w' & events & E & _ & Hf & _).
      exists w'. split; [exact E|exact Hf].
Qed.

(** X27. The two message handlers store nothing unless the extension
    is enabled, storing is automatic and the kind of the message is
    wanted: otherwise the call returns with the stores, the flag and
    the outside world as they were and without a request (a line is
    logged in debug mode when only the kind is unwanted). With the
    switches on and a chat, a message that is missing or is a system
    message is left alone, and any other message goes to
    [processAndStoreMessage], with the role [assistant] for a message
    received and [user] for a message sent. With a chat a handler
    never throws, and it leaves the in-flight flag as it found it. *)
Theorem message_handlers_gate switches messageId w :
  (lets_bot switches = false ->
   exists w', Index.onMessageReceived switches messageId w = (Return tt, w')
              /\ dropped w w')
  /\ (lets_user switches = false ->
      exists w', Index.onMessageSent switches messageId w = (Return tt, w')
                 /\ dropped w w')
  /\ (is_Some (chat (host w)) ->
      (lets_bot switches = true ->
       Index.onMessageReceived switches messageId w
       = match eligible w messageId with
         | Some message =>
             Index.processAndStoreMessage (mes message) "assistant" (host w) w
         | None => (Return tt, w)
         end)
      /\ (lets_user switches = true ->
          Index.onMessageSent switches messageId w
          = match eligible w messageId with
            | Some message =>
                Index.processAndStoreMessage (mes message) "user" (host w) w
            | None => (Return tt, w)
            end)
      /\ (exists w', Index.onMessageReceived switches messageId w = (Return tt, w')
                     /\ isProcessing w' = isProcessing w)
      /\ (exists w', Index.onMessageSent switches messageId w = (Return tt, w')
                     /\ isProcessing w' = isProcessing w)).
Proof.
  assert (Hstay : dropped w w).
  { unfold dropped. split; [apply quiet_refl|]. repeat split; reflexivity. }
  assert (Hstore : forall speaker,
             is_Some (chat (host w)) ->
             exists w', Index.store_message messageId speaker w = (Return tt, w')
                        /\ isProcessing w' = isProcessing w).
  { intros speaker Hchat. rewrite (store_message_run _ _ _ Hchat).
    destruct (eligible w messageId) as [message|].
    - apply processAndStoreMessage_returns.
    - exists w. split; reflexivity. }
  assert (Hlog : forall text,
             exists w', Index.log text w = (Return tt, w')
                        /\ isProcessing w' = isProcessing w).
  { intros text. destruct (log_dropped text w) as (w' & E & (_ & _ & _ & Hf & _)).
    exists w'. split; assumption. }
  unfold lets_bot, lets_user, Index.onMessageReceived, Index.onMessageSent.
  destruct (Index.enabled switches), (Index.auto_store switches); cbn [negb orb andb].
  - split; [|split].
    + intros ->. cbn [negb]. apply log_dropped.
    + intros ->. cbn [negb]. apply log_dropped.
    + intros Hchat. split; [|split; [|split]].
      * intros ->. cbn [negb]. apply store_message_run, Hchat.
      * intros ->. cbn [negb]. apply store_message_run, Hchat.
      * destruct (Index.summarize_bot switches); cbn [negb]; [apply Hstore, Hchat|apply Hlog].
      * destruct (Index.summarize_user switches); cbn [negb]; [apply Hstore, Hchat|apply Hlog].
  - split; [|split]; [intros _; exists w; split; [reflexivity|exact Hstay] ..|].
    intros _. split; [discriminate|]. split; [discriminate|].
    split; exists w; split; reflexivity.
  - split; [|split]; [intros _; exists w; split; [reflexivity|exact Hstay] ..|].
    intros _. split; [discriminate|]. split; [discriminate|].
    split; exists w; split; reflexivity.
  - split; [|split]; [intros _; exists w; split; [reflexivity|exact Hstay] ..|].
    intros _. split; [discriminate|]. split; [discriminate|].
    split; exists w; split; reflexivity.
Qed.

End HandlerFacts.

(** ** The identifiers *)

Section DigitFacts.
Local Open Scope Z_scope.

(** Shifting right by [n] bits a mantissa that ends with [n] zero bits
    is exact. *)
Lemma shr_exact n : forall m,
  SpecFloat.iter_pos shr_1 n
    {| shr_m := Z.pos (Pos.iter xO m n); shr_r := false; shr_s := false |}
  = {| shr_m := Z.pos m; shr_r := false; shr_s := false |}.
Proof.
  induction n as [n IH|n IH|]; intros m.
  - cbn [SpecFloat.iter_pos Pos.iter shr_1 orb]. rewrite IH, IH. reflexivity.
  - cbn [SpecFloat.iter_pos Pos.iter]. rewrite IH, IH. reflexivity.
  - reflexivity.
Qed.

Lemma digits2_pos_iter_xO m n :
  Z.pos (digits2_pos (Pos.iter xO m n)) = Z.pos (digits2_pos m) + Z.pos n.
Proof.
  induction n as [|n IH] using Pos.peano_ind.
  - cbn. lia.
  - rewrite Pos.iter_succ. cbn [digits2_pos]. rewrite Pos2Z.inj_succ, IH. lia.
Qed.

(** Rounding a mantissa that ends with the [n] bits to drop changes
    nothing. *)
Lemma binary_round_aux_exact s m n e :
  fexp prec emax (Zdigits2 (Z.pos (Pos.iter xO m n)) + e) - e = Z.pos n ->
  binary_round_aux prec emax s (Z.pos (Pos.iter xO m n)) e loc_Exact
  = if e + Z.pos n <=? emax - prec then S754_finite s m (e + Z.pos n)
    else S754_infinity s.
Proof.
  intros Hn. unfold binary_round_aux, shr_fexp at 1. rewrite Hn.
  cbn [shr shr_record_of_loc]. rewrite shr_exact.
  cbn [shr_m loc_of_shr_record round_nearest_even].
  unfold shr_fexp. cbn [Zdigits2] in Hn |- *.
  rewrite digits2_pos_iter_xO in Hn.
  replace (fexp prec emax (Z.pos (digits2_pos m) + (e + Z.pos n)) - (e + Z.pos n)) with 0.
  2:{ replace (Z.pos (digits2_pos m) + (e + Z.pos n))
        with (Z.pos (digits2_pos m) + Z.pos n + e) by lia. lia. }
  reflexivity.
Qed.

(** Sixteen times a number of the unit interval, as the product
    computes it: nothing is lost. *)
Lemma mul16_exact m e :
  bounded prec emax m e = true ->
  exists m' k,
    0 <= k <= 4 /\ Z.pos m' = Z.pos m * 2 ^ k
    /\ binary_round_aux prec emax false (Z.pos (m * 4503599627370496)) (e + -48) loc_Exact
       = if e + 4 - k <=? emax - prec then S754_finite false m' (e + 4 - k)
         else S754_infinity false.
Proof.
  intros B. apply bounded_facts in B as (He & Hd & Hc).
  pose proof (digits2_pos_bounds m) as [Hlo _].
  assert (Hdpos : 0 < Z.pos (digits2_pos m)) by lia.
  set (N := Z.max (Z.pos (digits2_pos m) + e - 49) (-1074) - e + 48).
  assert (HN : 48 <= N <= 52) by (unfold N; lia).
  destruct N as [|n|n] eqn:EN; try lia.
  set (k := 52 - Z.pos n).
  assert (Hk : 0 <= k <= 4) by (unfold k; lia).
  assert (Hpow : 0 < 2 ^ k) by (apply Z.pow_pos_nonneg; lia).
  set (m' := Z.to_pos (Z.pos m * 2 ^ k)).
  assert (Hm' : Z.pos m' = Z.pos m * 2 ^ k) by (unfold m'; rewrite Z2Pos.id; lia).
  assert (HM : (m * 4503599627370496)%positive = Pos.iter xO m' n).
  { apply Pos2Z.inj. rewrite iter_xO_value, Hm', Pos2Z.inj_mul, <- Z.mul_assoc.
    rewrite <- Z.pow_add_r by lia. replace (k + Z.pos n) with 52 by (unfold k; lia).
    reflexivity. }
  exists m', k. split; [exact Hk|]. split; [exact Hm'|].
  rewrite HM.
  replace (e + 4 - k) with (e + -48 + Z.pos n) by (unfold k; lia).
  apply binary_round_aux_exact.
  cbn [Zdigits2]. rewrite digits2_pos_iter_xO.
  assert (Hdm' : Z.pos (digits2_pos m') = Z.pos (digits2_pos m) + k).
  { pose proof (digits2_pos_bounds m') as [Hlo' Hhi'].
    pose proof (digits2_pos_bounds m) as [Hlom Hhim].
    rewrite Hm' in Hlo', Hhi'.
    assert (H1 : 2 ^ (Z.pos (digits2_pos m) - 1) * 2 ^ k < 2 ^ Z.pos (digits2_pos m')) by nia.
    assert (H2 : 2 ^ (Z.pos (digits2_pos m') - 1) < 2 ^ Z.pos (digits2_pos m) * 2 ^ k) by nia.
    rewrite <- Z.pow_add_r in H1, H2 by lia.
    apply Z.pow_lt_mono_r_iff in H1; [|lia|lia].
    apply Z.pow_lt_mono_r_iff in H2; [|lia|lia]. lia. }
  rewrite Hdm'. unfold fexp, SpecFloat.emin, prec, emax. unfold N in EN. unfold k. lia.
Qed.

(** A number of the unit interval, as a finite float, is below 1. *)
Lemma below_one m e :
  bounded prec emax m e = true ->
  SFltb (S754_finite false m e) (S754_finite false 4503599627370496 (-52)) = true ->
  e < 0 /\ Z.pos m < 2 ^ (- e).
Proof.
  intros B H. unfold SFltb in H.
  rewrite (SFcompare_finite_scaled false m e false 4503599627370496 (-52) B eq_refl) in H.
  unfold scaled in H. cbn [cond_Zopp] in H.
  destruct (shl_align_value m e (Z.min e (-52))) as [V1 _].
  destruct (shl_align_value 4503599627370496 (-52) (Z.min e (-52))) as [V2 _].
  rewrite V1, V2 in H.
  destruct (Z.compare_spec (Z.pos m * 2 ^ (e - Z.min e (Z.min e (-52))))
              (4503599627370496 * 2 ^ (-52 - Z.min (-52) (Z.min e (-52))))) as [|Hlt|];
    try discriminate.
  clear H. destruct (Z.le_gt_cases e (-52)) as [Hle|Hgt].
  - replace (Z.min e (Z.min e (-52))) with e in Hlt by lia.
    replace (Z.min (-52) (Z.min e (-52))) with e in Hlt by lia.
    rewrite Z.sub_diag, Z.pow_0_r, Z.mul_1_r in Hlt.
    change 4503599627370496 with (2 ^ 52) in Hlt.
    rewrite <- Z.pow_add_r in Hlt by lia.
    replace (52 + (-52 - e)) with (- e) in Hlt by lia. split; [lia|exact Hlt].
  - replace (Z.min e (Z.min e (-52))) with (-52) in Hlt by lia.
    replace (Z.min (-52) (Z.min e (-52))) with (-52) in Hlt by lia.
    rewrite Z.sub_diag, Z.pow_0_r, Z.mul_1_r in Hlt.
    change 4503599627370496 with (2 ^ 52) in Hlt.
    assert (He : e < 0).
    { destruct (Z.lt_ge_cases e 0) as [|Hge]; [assumption|].
      assert (2 ^ 52 <= 2 ^ (e - -52)) by (apply Z.pow_le_mono_r; lia). nia. }
    split; [exact He|].
    assert (H52 : 2 ^ 52 = 2 ^ (- e) * 2 ^ (e - -52)).
    { rewrite <- Z.pow_add_r by lia. f_equal. lia. }
    rewrite H52 in Hlt.
    assert (0 < 2 ^ (e - -52)) by (apply Z.pow_pos_nonneg; lia). nia.
Qed.

(** [Math.random() * 16 | 0] is a digit from 0 to 15 when
    [Math.random()] is in the unit interval. *)
Lemma random_digit (x : float) :
  (0 <=? x)%float = true -> (x <? 1)%float = true ->
  0 <= JS.ToInt32 (x * 16)%float <= 15.
Proof.
  rewrite FloatAxioms.leb_spec, FloatAxioms.ltb_spec. unfold JS.ToInt32.
  rewrite FloatAxioms.mul_spec. pose proof (Prim2SF_valid x) as V.
  change (Prim2SF 0%float) with (S754_zero false).
  change (Prim2SF 1%float) with (S754_finite false 4503599627370496 (-52)).
  change (Prim2SF 16%float) with (S754_finite false 4503599627370496 (-48)).
  destruct (Prim2SF x) as [s|s| |s m e]; intros H0 H1.
  - cbn. lia.
  - destruct s; discriminate.
  - discriminate.
  - destruct s; [discriminate|]. cbn in V.
    destruct (below_one m e V H1) as [He Hm].
    unfold SF64mul, SFmul. cbn [xorb].
    destruct (mul16_exact m e V) as (m' & k & Hk & Hm' & ->).
    destruct (e + 4 - k <=? emax - prec); [|cbn; lia].
    assert (Hr : 0 <= Z.shiftl (Z.pos m') (e + 4 - k) <= 15).
    { assert (Hpk : 0 < 2 ^ k) by (apply Z.pow_pos_nonneg; lia).
      destruct (Z.le_gt_cases 0 (e + 4 - k)) as [Hge|Hlt].
      - rewrite Z.shiftl_mul_pow2 by lia. rewrite Hm', <- Z.mul_assoc, <- Z.pow_add_r by lia.
        replace (k + (e + 4 - k)) with (e + 4) by lia.
        assert (Hp : 0 < 2 ^ (e + 4)) by (apply Z.pow_pos_nonneg; lia).
        assert (H16 : 2 ^ (- e) * 2 ^ (e + 4) = 16).
        { rewrite <- Z.pow_add_r by lia. replace (- e + (e + 4)) with 4 by lia. reflexivity. }
        nia.
      - rewrite Z.shiftl_div_pow2 by lia.
        assert (Hp : 0 < 2 ^ (- (e + 4 - k))) by (apply Z.pow_pos_nonneg; lia).
        split; [apply Z.div_pos; lia|].
        apply Z.lt_succ_r. apply Z.div_lt_upper_bound; [exact Hp|].
        assert (H16 : 2 ^ (- (e + 4 - k)) * 16 = 2 ^ (- e) * 2 ^ k).
        { change 16 with (2 ^ 4). rewrite <- !Z.pow_add_r by lia. f_equal. lia. }
        rewrite Hm'. nia. }
    set (t := Z.shiftl (Z.pos m') (e + 4 - k)) in *. cbv zeta.
    rewrite Z.mod_small by lia. lia.
Qed.

End DigitFacts.

Section IdentifierFacts.
Import Runtime Storage.
Local Open Scope Z_scope.

(** What [Math.random] promises: a number from 0 up to, not including, 1. *)
Definition in_unit_interval (x : JS.number) : Prop :=
  (0 <=? x)%float = true /\ (x <? 1)%float = true.

Definition is_hex (c : ascii) : Prop :=
  In c (list_ascii_of_string "0123456789abcdef").

(** What stands in the identifier at a place of the template: a
    hexadecimal digit for [x], one of 8, 9, a, b for [y], the
    template's own character elsewhere. *)
Definition fills (t c : ascii) : Prop :=
  if Ascii.eqb t "x" then is_hex c
  else if Ascii.eqb t "y" then In c (list_ascii_of_string "89ab")
  else c = t.

Lemma hex_digit_cases r :
  0 <= r <= 15 ->
  (exists h, JS.hex_digit r = String h EmptyString /\ is_hex h)
  /\ (exists h, JS.hex_digit (Z.lor (Z.land r 3) 8) = String h EmptyString
                /\ In h (list_ascii_of_string "89ab")).
Proof.
  intros Hr.
  assert (Hc : r = 0 \/ r = 1 \/ r = 2 \/ r = 3 \/ r = 4 \/ r = 5 \/ r = 6 \/ r = 7
               \/ r = 8 \/ r = 9 \/ r = 10 \/ r = 11 \/ r = 12 \/ r = 13 \/ r = 14
               \/ r = 15) by lia.
  unfold is_hex.
  repeat (destruct Hc as [->|Hc]); try subst r;
    (split; eexists; (split; [reflexivity|]); cbn; tauto).
Qed.

Lemma uuid_digit_run c w :
  in_unit_interval (random (env w) (tick w)) ->
  (Ascii.eqb c "x" || Ascii.eqb c "y")%bool = true ->
  exists h, uuid_digit c w = (Return (String h EmptyString), next_tick w) /\ fills c h.
Proof.
  intros [H0 H1] Hc. pose proof (random_digit _ H0 H1) as Hr.
  destruct (hex_digit_cases _ Hr) as [(hx & Ex & Hx) (hy & Ey & Hy)].
  unfold uuid_digit, Math_random, bind, ret, fills. cbv beta iota zeta.
  destruct (Ascii.eqb c "x") eqn:Ecx.
  - exists hx. rewrite Ex. split; [reflexivity|exact Hx].
  - cbn [orb] in Hc. rewrite Hc. exists hy. rewrite Ey. split; [reflexivity|exact Hy].
Qed.

Lemma replace_xy_fills template : forall w,
  (forall n, in_unit_interval (random (env w) n)) ->
  exists out w',
    replace_xy template w = (Return out, w')
    /\ Forall2 fills (list_ascii_of_string template) (list_ascii_of_string out)
    /\ env w' = env w.
Proof.
  induction template as [|c rest IH]; intros w Hw.
  - exists EmptyString, w. repeat split. constructor.
  - cbn [replace_xy].
    assert (Hd : exists h w1,
               (if (Ascii.eqb c "x" || Ascii.eqb c "y")%bool
                then uuid_digit c else ret (String c EmptyString)) w
               = (Return (String h EmptyString), w1)
               /\ fills c h /\ env w1 = env w).
    { destruct (Ascii.eqb c "x" || Ascii.eqb c "y")%bool eqn:Ec.
      - destruct (uuid_digit_run c w (Hw _) Ec) as (h & E & Hf).
        exists h, (next_tick w). repeat split; assumption.
      - exists c, w. split; [reflexivity|]. split; [|reflexivity].
        apply orb_false_iff in Ec as [Ex Ey]. unfold fills. rewrite Ex, Ey. reflexivity. }
    destruct Hd as (h & w1 & E1 & Hf & Henv).
    destruct (IH w1) as (ds & w2 & E2 & Hfs & Henv2).
    { intros n. rewrite Henv. apply Hw. }
    exists (String h ds), w2. split.
    { erewrite bind_Return by exact E1. erewrite bind_Return by exact E2. reflexivity. }
    split; [|congruence]. cbn [list_ascii_of_string]. constructor; assumption.
Qed.

(** X28 ([generateUUID]): when [Math.random] gives numbers from 0 up to,
    not including, 1, the identifier follows the template
    [xxxxxxxx-xxxx-4xxx-yxxx-xxxxxxxxxxxx] place by place: a hexadecimal
    digit at every [x], one of 8, 9, a, b at the [y], the hyphens and
    the 4 where the template has them; so it has 36 characters. *)
Theorem generateUUID_shape (w : World) :
  (forall n, in_unit_interval (random (env w) n)) ->
  exists uuid w',
    generateUUID w = (Return uuid, w')
    /\ Forall2 fills (list_ascii_of_string uuid_template) (list_ascii_of_string uuid)
    /\ String.length uuid = 36%nat.
Proof.
  intros Hw. destruct (replace_xy_fills uuid_template w Hw) as (uuid & w' & E & Hf & _).
  exists uuid, w'. split; [exact E|]. split; [exact Hf|].
  apply Forall2_length in Hf. rewrite <- (string_of_list_ascii_of_string uuid).
  rewrite <- (string_of_list_ascii_of_string uuid_template) in Hf.
  clear E. revert Hf. rewrite list_ascii_of_string_of_list_ascii.
  generalize (list_ascii_of_string uuid). intros l Hl.
  assert (Hlen : forall l : list ascii, String.length (string_of_list_ascii l) = length l).
  { intros l0. induction l0 as [|a l0 IHl]; [reflexivity|]. cbn. rewrite IHl. reflexivity. }
  rewrite Hlen, <- Hl. reflexivity.
Qed.

Lemma generateUUID_shape_witness :
  (forall n, in_unit_interval
               (random (env (page (constant_env failed_to_fetch failed_to_fetch false) ∅)) n))
  /\ exists uuid w',
       generateUUID (page (constant_env failed_to_fetch failed_to_fetch false) ∅)
       = (Return uuid, w')
       /\ Forall2 fills (list_ascii_of_string uuid_template) (list_ascii_of_string uuid)
       /\ String.length uuid = 36%nat.
Proof.
  assert (H : forall n, in_unit_interval
               (random (env (page (constant_env failed_to_fetch failed_to_fetch false) ∅)) n)).
  { intros n. split; reflexivity. }
  split; [exact H|]. exact (generateUUID_shape _ H).
Defined.

End IdentifierFacts.
